(** * lounge: the schema engine of [lib/schema.js]

    A shallow embedding of the [Schema] class of lounge (an object-document
    mapper for Couchbase) and the properties of its document-key, index,
    reference-key and composition code.

    Layout: strings, UTF-8 and MD5; JavaScript values and plain objects; the
    regular expressions that [getDocumentKeyValue] builds; the [Schema]
    record, the collaborators of [schema.js] and its methods, written in a
    state-and-exception monad over the receiver; a reference set of
    collaborators and the example schemas; then the theorems, method by
    method. *)

From Stdlib Require Import String Ascii List Arith NArith Bool Lia.
Import ListNotations.

Set Implicit Arguments.

(** ** Strings

    A JavaScript string is a sequence of UTF-16 code units. *)

Definition jsstring := list N.

(** The code units of an ASCII literal of the source. *)
Definition js (s : string) : jsstring :=
  map N_of_ascii (list_ascii_of_string s).

Definition jsstring_eqb (a b : jsstring) : bool :=
  if list_eq_dec N.eq_dec a b then true else false.


(** [Array.prototype.join] over strings. *)
Fixpoint join (sep : jsstring) (l : list jsstring) : jsstring :=
  match l with
  | [] => []
  | [x] => x
  | x :: rest => x ++ sep ++ join sep rest
  end.

(** *** UTF-8

    [Buffer.byteLength(s)] and [hash.update(s)] read a string through its
    UTF-8 encoding: a surrogate pair is one four-byte code point, and a
    surrogate that stands alone is written as U+FFFD. *)

Definition isHighSurrogate (c : N) : bool := (0xD800 <=? c)%N && (c <=? 0xDBFF)%N.
Definition isLowSurrogate (c : N) : bool := (0xDC00 <=? c)%N && (c <=? 0xDFFF)%N.

Definition replacementBytes : list N := [0xEF; 0xBF; 0xBD]%N.

Definition utf8_2 (c : N) : list N :=
  [N.lor 0xC0 (N.shiftr c 6); N.lor 0x80 (N.land c 0x3F)]%N.

Definition utf8_3 (c : N) : list N :=
  [N.lor 0xE0 (N.land (N.shiftr c 12) 0x0F);
   N.lor 0x80 (N.land (N.shiftr c 6) 0x3F);
   N.lor 0x80 (N.land c 0x3F)]%N.

Definition utf8_4 (hi lo : N) : list N :=
  let cp := (0x10000 + N.shiftl (hi - 0xD800) 10 + (lo - 0xDC00))%N in
  [N.lor 0xF0 (N.shiftr cp 18);
   N.lor 0x80 (N.land (N.shiftr cp 12) 0x3F);
   N.lor 0x80 (N.land (N.shiftr cp 6) 0x3F);
   N.lor 0x80 (N.land cp 0x3F)]%N.

Fixpoint utf8 (s : jsstring) : list N :=
  match s with
  | [] => []
  | c :: t =>
      if (c <? 0x80)%N then c :: utf8 t
      else if (c <? 0x800)%N then utf8_2 c ++ utf8 t
      else if isHighSurrogate c then
        match t with
        | lo :: t' =>
            if isLowSurrogate lo then utf8_4 c lo ++ utf8 t'
            else replacementBytes ++ utf8 t
        | [] => replacementBytes
        end
      else if isLowSurrogate c then replacementBytes ++ utf8 t
      else utf8_3 c ++ utf8 t
  end.

(** [Buffer.byteLength(s)] with the default encoding. *)
Definition byteLength (s : jsstring) : nat := length (utf8 s).

(** *** MD5 (RFC 1321)

    [crypto.createHash('md5').update(v).digest('hex')].  Words are 32-bit
    and written out with their wrap-around. *)

Module MD5.

Definition mask32 : N := 0xFFFFFFFF%N.
Definition add32 (a b : N) : N := N.land (a + b) mask32.
Definition not32 (a : N) : N := N.lxor (N.land a mask32) mask32.
Definition rotl32 (x : N) (c : N) : N :=
  N.land (N.lor (N.shiftl x c) (N.shiftr x (32 - c))) mask32.

Definition K : list N :=
  [0xd76aa478; 0xe8c7b756; 0x242070db; 0xc1bdceee;
   0xf57c0faf; 0x4787c62a; 0xa8304613; 0xfd469501;
   0x698098d8; 0x8b44f7af; 0xffff5bb1; 0x895cd7be;
   0x6b901122; 0xfd987193; 0xa679438e; 0x49b40821;
   0xf61e2562; 0xc040b340; 0x265e5a51; 0xe9b6c7aa;
   0xd62f105d; 0x02441453; 0xd8a1e681; 0xe7d3fbc8;
   0x21e1cde6; 0xc33707d6; 0xf4d50d87; 0x455a14ed;
   0xa9e3e905; 0xfcefa3f8; 0x676f02d9; 0x8d2a4c8a;
   0xfffa3942; 0x8771f681; 0x6d9d6122; 0xfde5380c;
   0xa4beea44; 0x4bdecfa9; 0xf6bb4b60; 0xbebfbc70;
   0x289b7ec6; 0xeaa127fa; 0xd4ef3085; 0x04881d05;
   0xd9d4d039; 0xe6db99e5; 0x1fa27cf8; 0xc4ac5665;
   0xf4292244; 0x432aff97; 0xab9423a7; 0xfc93a039;
   0x655b59c3; 0x8f0ccc92; 0xffeff47d; 0x85845dd1;
   0x6fa87e4f; 0xfe2ce6e0; 0xa3014314; 0x4e0811a1;
   0xf7537e82; 0xbd3af235; 0x2ad7d2bb; 0xeb86d391]%N.

Definition shifts : list N :=
  [7; 12; 17; 22; 7; 12; 17; 22; 7; 12; 17; 22; 7; 12; 17; 22;
   5; 9; 14; 20; 5; 9; 14; 20; 5; 9; 14; 20; 5; 9; 14; 20;
   4; 11; 16; 23; 4; 11; 16; 23; 4; 11; 16; 23; 4; 11; 16; 23;
   6; 10; 15; 21; 6; 10; 15; 21; 6; 10; 15; 21; 6; 10; 15; 21]%N.

Definition state : Type := (N * N * N * N)%type.

Definition init : state :=
  (0x67452301, 0xefcdab89, 0x98badcfe, 0x10325476)%N.

(** One of the 64 operations of a block; [m] holds its sixteen words. *)
Definition step (m : list N) (st : state) (i : nat) : state :=
  let '(a, b, c, d) := st in
  let '(f, g) :=
    if Nat.ltb i 16 then
      (N.lor (N.land b c) (N.land (not32 b) d), i)
    else if Nat.ltb i 32 then
      (N.lor (N.land d b) (N.land (not32 d) c), Nat.modulo (5 * i + 1) 16)
    else if Nat.ltb i 48 then
      (N.lxor b (N.lxor c d), Nat.modulo (3 * i + 5) 16)
    else
      (N.lxor c (N.lor b (not32 d)), Nat.modulo (7 * i) 16) in
  let f' := add32 (add32 (add32 f a) (nth i K 0%N)) (nth g m 0%N) in
  (d, add32 b (rotl32 f' (nth i shifts 0%N)), b, c).

(** Little-endian words of a run of bytes. *)
Fixpoint words (bytes : list N) : list N :=
  match bytes with
  | b0 :: b1 :: b2 :: b3 :: rest =>
      (b0 + N.shiftl b1 8 + N.shiftl b2 16 + N.shiftl b3 24)%N :: words rest
  | _ => []
  end.

Definition block (st : state) (bytes : list N) : state :=
  let '(a0, b0, c0, d0) := st in
  let '(a, b, c, d) := fold_left (step (words bytes)) (seq 0 64) st in
  (add32 a0 a, add32 b0 b, add32 c0 c, add32 d0 d).

Fixpoint blocks (n : nat) (st : state) (bytes : list N) : state :=
  match n with
  | O => st
  | S n' => blocks n' (block st (firstn 64 bytes)) (skipn 64 bytes)
  end.

Definition bytesLE (count : nat) (x : N) : list N :=
  map (fun i => N.land (N.shiftr x (8 * N.of_nat i)) 0xFF%N) (seq 0 count).

(** The message, a one bit, zeros up to 56 modulo 64, and the bit length
    as a 64-bit little-endian integer. *)
Definition pad (msg : list N) : list N :=
  let len := length msg in
  let zeros := Nat.modulo (64 + 55 - Nat.modulo len 64) 64 in
  msg ++ [0x80%N] ++ repeat 0%N zeros
      ++ bytesLE 8 (N.land (8 * N.of_nat len) 0xFFFFFFFFFFFFFFFF%N).

Definition digest (msg : list N) : list N :=
  let padded := pad msg in
  let '(a, b, c, d) := blocks (Nat.div (length padded) 64) init padded in
  bytesLE 4 a ++ bytesLE 4 b ++ bytesLE 4 c ++ bytesLE 4 d.

Definition hexDigit (n : N) : N :=
  if (n <? 10)%N then (48 + n)%N else (87 + n)%N.

Definition hexByte (b : N) : jsstring :=
  [hexDigit (N.shiftr b 4); hexDigit (N.land b 0x0F)]%N.

(** [.digest('hex')]. *)
Definition hex (msg : list N) : jsstring := flat_map hexByte (digest msg).

End MD5.

(** ** Values

    The values [schema.js] handles: property descriptors, option values,
    handlers and static members.  Numbers are left out of the universe: the
    class never computes with one.  A function is a handle; what calling it
    returns is the host's business (see [Deps]).  The built-in constructors
    that serve as type tags stand on their own. *)

Set Warnings "-register-all".

Inductive ctor := CString | CNumber | CBoolean | CObject | CArray | CDate.

Inductive value :=
| VUndefined
| VNull
| VBool (b : bool)
| VStr (s : jsstring)
| VCtor (c : ctor)                         (* a built-in constructor *)
| VFun (f : N)                            (* a function of the caller, by handle *)
| VNative (name : jsstring)               (* a method of Object.prototype *)
| VArr (elems : list value)
| VObj (props : list (jsstring * value)). (* a plain object *)

Definition ctorName (c : ctor) : jsstring :=
  match c with
  | CString => js "String"
  | CNumber => js "Number"
  | CBoolean => js "Boolean"
  | CObject => js "Object"
  | CArray => js "Array"
  | CDate => js "Date"
  end.

(** [!!v]. *)
Definition truthy (v : value) : bool :=
  match v with
  | VUndefined | VNull | VBool false | VStr [] => false
  | _ => true
  end.

(** [_.isString], [_.isFunction], [_.isPlainObject] (and the
    [utils.isPlainObject] of the repository), [_.isBoolean],
    [_.isUndefined]. *)
Definition isString (v : value) : bool :=
  match v with VStr _ => true | _ => false end.

Definition isFunction (v : value) : bool :=
  match v with VFun _ | VCtor _ | VNative _ => true | _ => false end.

Definition isPlainObject (v : value) : bool :=
  match v with VObj _ => true | _ => false end.

Definition isBoolean (v : value) : bool :=
  match v with VBool _ => true | _ => false end.

Definition isUndefined (v : value) : bool :=
  match v with VUndefined => true | _ => false end.

(** [v === true]. *)
Definition isTrue (v : value) : bool :=
  match v with VBool true => true | _ => false end.

(** ** Objects

    A plain object is the list of its own enumerable properties in the
    order [for ... in] visits them: array-index names first, in ascending
    order, then the other names in the order of their creation. *)

Definition omap (A : Type) := list (jsstring * A).
Definition obj := omap value.

Definition isDigit (c : N) : bool := (48 <=? c)%N && (c <=? 57)%N.

Fixpoint digitsValue (acc : N) (s : jsstring) : N :=
  match s with
  | [] => acc
  | c :: rest => digitsValue (10 * acc + (c - 48))%N rest
  end.

(** A name is an array index when it is the canonical decimal form of an
    integer below 2^32 - 1. *)
Definition arrayIndex (k : jsstring) : option N :=
  match k with
  | [] => None
  | c :: rest =>
      if forallb isDigit k && (negb (N.eqb c 48) || match rest with [] => true | _ => false end)
         && (length k <=? 10)%nat && (digitsValue 0 k <? 4294967295)%N
      then Some (digitsValue 0 k)
      else None
  end.

Section Omap.
Variable A : Type.

(** An own property. *)
Fixpoint olookup (k : jsstring) (o : omap A) : option A :=
  match o with
  | [] => None
  | (k', v) :: rest => if jsstring_eqb k k' then Some v else olookup k rest
  end.

Definition okeys (o : omap A) : list jsstring := map fst o.
Definition ovalues (o : omap A) : list A := map snd o.

Fixpoint oreplace (k : jsstring) (v : A) (o : omap A) : omap A :=
  match o with
  | [] => []
  | (k', v') :: rest =>
      if jsstring_eqb k k' then (k', v) :: rest
      else (k', v') :: oreplace k v rest
  end.

Fixpoint oinsertIndex (n : N) (k : jsstring) (v : A) (o : omap A) : omap A :=
  match o with
  | [] => [(k, v)]
  | (k', v') :: rest =>
      match arrayIndex k' with
      | Some m => if (n <? m)%N then (k, v) :: o else (k', v') :: oinsertIndex n k v rest
      | None => (k, v) :: o
      end
  end.

(** [o[k] = v] on a plain object: an own property keeps its place, a new
    one is created.  This is the assignment for every name but
    [__proto__]: under that name the source assigns through the accessor of
    [Object.prototype], which replaces the prototype of [o] or does nothing
    and creates no property.  Objects carry no prototype here, so a
    statement about what an assignment leaves is made for the other names
    ([protoName] below marks the one left out). *)
Definition oset (k : jsstring) (v : A) (o : omap A) : omap A :=
  match olookup k o with
  | Some _ => oreplace k v o
  | None =>
      match arrayIndex k with
      | Some n => oinsertIndex n k v o
      | None => o ++ [(k, v)]
      end
  end.

End Omap.

(** The members every plain object inherits from [Object.prototype]. *)
Definition inheritedNames : list jsstring :=
  [js "constructor"; js "hasOwnProperty"; js "isPrototypeOf";
   js "propertyIsEnumerable"; js "toLocaleString"; js "toString";
   js "valueOf"; js "__defineGetter__"; js "__defineSetter__";
   js "__lookupGetter__"; js "__lookupSetter__"].

Definition isInherited (p : jsstring) : bool :=
  existsb (jsstring_eqb p) inheritedNames.

(** The accessor name under which an object shows its prototype. *)
Definition protoName : jsstring := js "__proto__".

(** [Object.prototype] as a value: an object with no enumerable property
    of its own. *)
Definition objectPrototype : value := VObj [].

(** [o[p]] read on a plain object: the own property, else what
    [Object.prototype] holds under that name ([o.__proto__] is
    [Object.prototype] itself), else [undefined]. *)
Definition getProp (o : obj) (p : jsstring) : value :=
  match olookup p o with
  | Some v => v
  | None =>
      if jsstring_eqb p (js "constructor") then VCtor CObject
      else if isInherited p then VNative p
      else if jsstring_eqb p protoName then objectPrototype
      else VUndefined
  end.

(** [v[p]] where the code has just checked that [v] is a plain object. *)
Definition field (v : value) (p : jsstring) : value :=
  match v with
  | VObj o => getProp o p
  | _ => VUndefined
  end.

(** [{}.hasOwnProperty.call(o, p)], the own-property test of
    [Object.prototype].  (A call [o.hasOwnProperty(p)] looks the method up
    on [o] first: see [hasOwnPropertyCall] and [descriptorOwns].) *)
Definition hasOwn (A : Type) (o : omap A) (p : jsstring) : bool :=
  match olookup p o with Some _ => true | None => false end.

(** ** Regular expressions

    [getDocumentKeyValue] builds its patterns from [escapeStringRegexp]
    output, [.*], [^] and [$]: a pattern is a run of literal code units and
    [.*] atoms, anchored or not at either end.  No flag is set, so [.] stops
    at a line terminator and [$] matches at the end of the input only. *)

Inductive atom :=
| Chr (c : N)
| DotStar.

Record RegExp := {
  anchoredStart : bool;
  atoms : list atom;
  anchoredEnd : bool
}.

(** What [escapeStringRegexp(s)] matches once compiled: [s], code unit for
    code unit. *)
Definition escapeStringRegexp (s : jsstring) : list atom := map Chr s.

Definition isLineTerminator (c : N) : bool :=
  N.eqb c 10 || N.eqb c 13 || N.eqb c 0x2028 || N.eqb c 0x2029.

(** [.*] before the rest of a pattern, whose matcher is [rest]: as many
    code units as [.] accepts, giving back one at a time until the rest
    matches. *)
Fixpoint dotStar (rest : jsstring -> option nat) (s : jsstring) : option nat :=
  match s with
  | x :: s' =>
      if isLineTerminator x then rest s
      else match dotStar rest s' with
           | Some n => Some (S n)
           | None => rest s
           end
  | [] => rest s
  end.

(** The backtracking matcher at one position: the length of the match. *)
Fixpoint matchHere (r : list atom) (atEnd : bool) (s : jsstring) {struct r} : option nat :=
  match r with
  | [] =>
      if atEnd then match s with [] => Some 0 | _ :: _ => None end
      else Some 0
  | Chr c :: r' =>
      match s with
      | x :: s' => if N.eqb x c then option_map S (matchHere r' atEnd s') else None
      | [] => None
      end
  | DotStar :: r' => dotStar (matchHere r' atEnd) s
  end.

(** The leftmost match from position [i] on. *)
Fixpoint search (r : list atom) (atEnd : bool) (s : jsstring) (i : nat) : option (nat * nat) :=
  match matchHere r atEnd s with
  | Some n => Some (i, n)
  | None =>
      match s with
      | [] => None
      | _ :: s' => search r atEnd s' (S i)
      end
  end.

(** Start and length of the match, as [RegExp.prototype.exec] finds it. *)
Definition exec (re : RegExp) (s : jsstring) : option (nat * nat) :=
  if anchoredStart re
  then option_map (pair 0) (matchHere (atoms re) (anchoredEnd re) s)
  else search (atoms re) (anchoredEnd re) s 0.

(** [re.test(s)]. *)
Definition test (re : RegExp) (s : jsstring) : bool :=
  match exec re s with Some _ => true | None => false end.

(** [s.replace(re, repl)] for a pattern without the [g] flag and a
    replacement without [$] patterns. *)
Definition replace (re : RegExp) (repl : jsstring) (s : jsstring) : jsstring :=
  match exec re s with
  | Some (i, n) => firstn i s ++ repl ++ skipn (i + n) s
  | None => s
  end.

(** [trailingDigitReg = new RegExp('^\\d+$')]: one or more decimal digits
    and nothing else. *)
Definition trailingDigitReg_test (s : jsstring) : bool :=
  match s with
  | [] => false
  | _ :: _ => forallb isDigit s
  end.

(** [s.replace('.', '_')]: the first full stop only. *)
Fixpoint replaceFirstDot (s : jsstring) : jsstring :=
  match s with
  | [] => []
  | c :: rest => if N.eqb c 46 then 95%N :: rest else c :: replaceFirstDot rest
  end.

(** ** The schema *)

Definition MAX_REF_KEY_LENGTH : nat := 250.

(** The [prop] argument of [index]: a property name, or an array of
    property names for a compound index. *)
Inductive IndexPath :=
| Single (p : jsstring)
| Compound (ps : list jsstring).

(** The name under which an index path is used as a property key. *)
Definition pathKey (p : IndexPath) : jsstring :=
  match p with
  | Single k => k
  | Compound ps => join (js ",") ps
  end.

(** The [options] argument of [index]; an absent option is [None]. *)
Module IndexOptions.
Record t := {
  indexName : option jsstring;
  indexType : option jsstring;
  refKeyCase : option jsstring
}.
Definition none : t :=
  {| indexName := None; indexType := None; refKeyCase := None |}.
End IndexOptions.

(** [indexData], an entry of [schema.indexes]. *)
Record IndexData := {
  path : IndexPath;
  name : jsstring;
  indexType : jsstring;
  compound : bool;
  refKeyCase : option jsstring
}.

(** An entry of [schema.refs]. *)
Record RefData := {
  refPath : jsstring;
  refInfo : value
}.

Inductive phase := Pre | Post.

Definition phaseName (h : phase) : jsstring :=
  match h with Pre => js "pre" | Post => js "post" end.

(** An entry of [schema.hooks]: [{hook, name, fns}]. *)
Record HookData := {
  hook : phase;
  event : jsstring;
  fns : list value
}.

(** [schema.key], the document key settings. *)
Record Key := {
  docKeyKey : jsstring;
  prefix : value;
  suffix : value;
  generate : bool;
  dynamicKey : value
}.

Record Schema := {
  options : obj;
  methods : obj;
  statics : obj;
  hooks : omap HookData;
  refs : omap RefData;
  indexes : omap IndexData;
  key : Key;
  descriptor : obj
}.

(** ** Collaborators

    What [schema.js] calls and does not define: the host's string case
    mappings, the [inflection] and [lodash] packages, the functions a caller
    hands in, and the modules [./normalize] and [./schema.utils] of the
    repository. *)

Class Deps := {
  (** [String.prototype.toUpperCase], [String.prototype.toLowerCase] *)
  toUpperCase : jsstring -> jsstring;
  toLowerCase : jsstring -> jsstring;
  (** [inflection.singularize] on a string *)
  singularize : jsstring -> jsstring;
  (** [_.merge(dest, source)] *)
  merge : value -> value -> value;
  (** calling a function value with arguments; the functions a caller
      hands in are taken to return, and to leave the schema alone *)
  call : value -> list value -> value;
  (** the source text of a function, as [String(f)] gives it *)
  fnToString : N -> jsstring;
  (** [normalizeProperties(properties, name)] of [./normalize] *)
  normalizeProperties : value -> value -> value;
  (** [schemaUtils.getRefs(descriptor)] *)
  getRefs : value -> list RefData;
  (** [schemaUtils.getIndexes(descriptor, key)] *)
  getIndexes : value -> value -> list IndexData;
  (** [schemaUtils.getIndexName(indexProps)] *)
  getIndexName : list jsstring -> jsstring
}.

(** Modelled from the spec: the constants [utils.REF_KEY_CASE.UPPER] and
    [utils.REF_KEY_CASE.LOWER] of [./utils], which the spec gives as the
    values ['upper'] and ['lower'] of [options.refKeyCase]. *)
Module REF_KEY_CASE.
Definition UPPER : jsstring := js "upper".
Definition LOWER : jsstring := js "lower".
End REF_KEY_CASE.

(** ** Exceptions and the state of the receiver *)

Inductive exn :=
| TypeError (msg : string).

(** How a method call on a schema ends: it returns a value or throws, and
    either way leaves the receiver in some state. *)
Inductive outcome (A : Type) :=
| Returns (a : A) (s : Schema)
| Throws (e : exn) (s : Schema).

Arguments Throws {A} e s.

Definition M (A : Type) : Type := Schema -> outcome A.

Definition ret {A : Type} (a : A) : M A := fun s => Returns a s.

Definition bind {A B : Type} (c : M A) (k : A -> M B) : M B :=
  fun s =>
    match c s with
    | Returns a s' => k a s'
    | Throws e s' => Throws e s'
    end.

Definition throw {A : Type} (e : exn) : M A := fun s => Throws e s.

Definition this : M Schema := fun s => Returns s s.

Definition update (f : Schema -> Schema) : M unit := fun s => Returns tt (f s).

Declare Scope schema_scope.
Delimit Scope schema_scope with schema.
Notation "x <- c ;; k" := (bind c (fun x => k))
  (at level 61, c at next level, right associativity) : schema_scope.
Notation "c ;; k" := (bind c (fun _ => k))
  (at level 61, right associativity) : schema_scope.
Local Open Scope schema_scope.

(** A loop whose body may throw. *)
Fixpoint forEach {B : Type} (l : list B) (body : B -> M unit) : M unit :=
  match l with
  | [] => ret tt
  | x :: rest => body x ;; forEach rest body
  end.

(** A loop that carries a local variable. *)
Fixpoint foldM {B C : Type} (body : C -> B -> M C) (acc : C) (l : list B) : M C :=
  match l with
  | [] => ret acc
  | x :: rest => acc' <- body acc x ;; foldM body acc' rest
  end.

(** A result without a receiver. *)
Inductive result (A : Type) :=
| Ok (a : A)
| Raise (e : exn).

Arguments Raise {A} e.

(** Field updates. *)
Definition withOptions (o : obj) (s : Schema) : Schema :=
  {| options := o; methods := methods s; statics := statics s; hooks := hooks s;
     refs := refs s; indexes := indexes s; key := key s; descriptor := descriptor s |}.
Definition withMethods (o : obj) (s : Schema) : Schema :=
  {| options := options s; methods := o; statics := statics s; hooks := hooks s;
     refs := refs s; indexes := indexes s; key := key s; descriptor := descriptor s |}.
Definition withStatics (o : obj) (s : Schema) : Schema :=
  {| options := options s; methods := methods s; statics := o; hooks := hooks s;
     refs := refs s; indexes := indexes s; key := key s; descriptor := descriptor s |}.
Definition withHooks (o : omap HookData) (s : Schema) : Schema :=
  {| options := options s; methods := methods s; statics := statics s; hooks := o;
     refs := refs s; indexes := indexes s; key := key s; descriptor := descriptor s |}.
Definition withRefs (o : omap RefData) (s : Schema) : Schema :=
  {| options := options s; methods := methods s; statics := statics s; hooks := hooks s;
     refs := o; indexes := indexes s; key := key s; descriptor := descriptor s |}.
Definition withIndexes (o : omap IndexData) (s : Schema) : Schema :=
  {| options := options s; methods := methods s; statics := statics s; hooks := hooks s;
     refs := refs s; indexes := o; key := key s; descriptor := descriptor s |}.
Definition withKey (k : Key) (s : Schema) : Schema :=
  {| options := options s; methods := methods s; statics := statics s; hooks := hooks s;
     refs := refs s; indexes := indexes s; key := k; descriptor := descriptor s |}.
Definition withDescriptor (o : obj) (s : Schema) : Schema :=
  {| options := options s; methods := methods s; statics := statics s; hooks := hooks s;
     refs := refs s; indexes := indexes s; key := key s; descriptor := o |}.

Section Methods.
Context {D : Deps}.

(** [String(v)], the conversion [String.prototype.concat] applies to its
    arguments and a property access applies to its key.  (A plain object
    that redefines [toString] is outside the model.) *)
Fixpoint ToString (v : value) : jsstring :=
  match v with
  | VUndefined => js "undefined"
  | VNull => js "null"
  | VBool true => js "true"
  | VBool false => js "false"
  | VStr s => s
  | VCtor c => js "function " ++ ctorName c ++ js "() { [native code] }"
  | VFun f => fnToString f
  | VNative n => js "function " ++ n ++ js "() { [native code] }"
  | VArr elems =>
      join (js ",")
        (map (fun e => match e with
                       | VUndefined | VNull => []
                       | _ => ToString e
                       end) elems)
  | VObj _ => js "[object Object]"
  end.

(** [clone(v)]: values are immutable here, so a deep copy is the value. *)
Definition clone (v : value) : value := v.

(** [_.extend(target, source)]: every property of [source] assigned onto
    [target]. *)
Definition lodash_extend (target source : obj) : obj :=
  fold_left (fun acc k => oset k (getProp source k) acc) (okeys source) target.

(** *** [_applyDocumentKey] *)

(** [type === String || type === Number || type === 'number' || type === 'string'] *)
Definition keyTypeAllowed (t : value) : bool :=
  match t with
  | VCtor CString | VCtor CNumber => true
  | VStr s => jsstring_eqb s (js "number") || jsstring_eqb s (js "string")
  | _ => false
  end.

(** [utils.isPlainObject(descriptor[prop]) && descriptor[prop].key === true] *)
Definition isKeyProperty (d : value) : bool :=
  isPlainObject d && isTrue (field d (js "key")).

(** The settings a key property [prop] with descriptor [d] leaves in
    [this.key] (lines 134-147). *)
Definition keyFrom (prop : jsstring) (d : value) (k : Key) : Key :=
  {| docKeyKey := prop;
     prefix := if isString (field d (js "prefix")) then field d (js "prefix") else prefix k;
     suffix := if isString (field d (js "suffix")) then field d (js "suffix") else suffix k;
     generate := match field d (js "generate") with VBool b => b | _ => false end;
     dynamicKey := dynamicKey k |}.

(** [o.hasOwnProperty(p)] on an object of members or options (lines 510
    and 535): the method is looked up on [o], so an own property called
    [hasOwnProperty] is what gets called.  A function is called with [p];
    the method of [Object.prototype] handed in as a value does its own test;
    anything else is not callable. *)
Definition hasOwnPropertyCall (o : obj) (p : jsstring) : M bool :=
  match olookup (js "hasOwnProperty") o with
  | None => ret (hasOwn o p)
  | Some v =>
      if isFunction v then
        ret (match v with
             | VNative n =>
                 if jsstring_eqb n (js "hasOwnProperty") then hasOwn o p
                 else truthy (call v [VStr p])
             | _ => truthy (call v [VStr p])
             end)
      else throw (TypeError "hasOwnProperty is not a function")
  end.

(** [descriptor.hasOwnProperty(prop)] on a descriptor (lines 113 and 510).
    The entries of a descriptor are the objects that [normalizeProperties]
    returns and [virtual] stores: with an entry called [hasOwnProperty] the
    member the call finds is that object, which is not callable. *)
Definition descriptorOwns (o : obj) (p : jsstring) : M bool :=
  if hasOwn o (js "hasOwnProperty")
  then throw (TypeError "descriptor.hasOwnProperty is not a function")
  else ret (hasOwn o p).

(** The body of the [for ... in] loop of [_applyDocumentKey]; the result
    is the local [docKeyFound]. *)
Definition applyDocumentKeyTo (docKeyFound : bool) (prop : jsstring) : M bool :=
  s <- this ;;
  own <- descriptorOwns (descriptor s) prop ;;
  let d := getProp (descriptor s) prop in
  if own && isKeyProperty d then
    if isTrue (field d (js "index")) then
      throw (TypeError "Schema key cannot be index field")
    else if truthy (field d (js "ref")) then
      throw (TypeError "Schema key cannot be reference property")
    else if truthy (field d (js "type")) && negb (keyTypeAllowed (field d (js "type"))) then
      throw (TypeError "Schema expects key to be a String or a Number")
    else
      update (fun s => withKey (keyFrom prop d (key s)) s) ;;
      update (fun s =>
        withDescriptor
          (oset (docKeyKey (key s))
                (normalizeProperties d (VStr (docKeyKey (key s))))
                (descriptor s)) s) ;;
      ret true
  else ret docKeyFound.

Definition withDocKeyKey (k : jsstring) (s : Schema) : Schema :=
  withKey {| docKeyKey := k; prefix := prefix (key s); suffix := suffix (key s);
             generate := generate (key s); dynamicKey := dynamicKey (key s) |} s.

(** [_applyDocumentKey(this.descriptor)] *)
Definition _applyDocumentKey : M unit :=
  s <- this ;;
  docKeyFound <- foldM applyDocumentKeyTo false (okeys (descriptor s)) ;;
  s <- this ;;
  if negb docKeyFound && negb (truthy (VStr (docKeyKey (key s)))) then
    update (withDocKeyKey (js "id")) ;;
    update (fun s =>
      withDescriptor
        (oset (docKeyKey (key s))
              (normalizeProperties (VCtor CString) (VStr (docKeyKey (key s))))
              (descriptor s)) s)
  else ret tt.

(** *** [_getRefs], [_getIndexes] *)

Definition _getRefs (descr : value) : M unit :=
  forEach (getRefs descr)
    (fun elem => update (fun s => withRefs (oset (refPath elem) elem (refs s)) s)).

Definition _getIndexes (descr : value) (k : value) : M unit :=
  forEach (getIndexes descr k)
    (fun elem => update (fun s => withIndexes (oset (pathKey (path elem)) elem (indexes s)) s)).

(** *** [add] *)

(** The first argument of [add]: a property name or a map of
    descriptors. *)
Inductive addKey :=
| KeyName (k : jsstring)
| KeyMap (m : obj).

Definition addKeyValue (k : addKey) : value :=
  match k with
  | KeyName n => VStr n
  | KeyMap m => VObj m
  end.

(** [add(key, descriptor)].  The field [descriptor] starts as the empty
    object that the first call creates (lines 478-480). *)
Definition add (k : addKey) (descr : value) : M unit :=
  (if truthy (addKeyValue k) && truthy descr then
     _getRefs descr ;;
     _getIndexes descr (addKeyValue k) ;;
     update (fun s =>
       withDescriptor
         (oset (ToString (addKeyValue k))
               (normalizeProperties descr (addKeyValue k))
               (descriptor s)) s)
   else
     match k with
     | KeyMap m =>
         (* typeof key === 'object' && !descriptor *)
         _getRefs (VObj m) ;;
         _getIndexes (VObj m) VUndefined ;;
         forEach (okeys m) (fun index =>
           update (fun s =>
             withDescriptor
               (oset index (normalizeProperties (getProp m index) (VStr index))
                     (descriptor s)) s))
     | KeyName _ => ret tt
     end) ;;
  _applyDocumentKey.

(** *** The constructor *)

Definition initialKey : Key :=
  {| docKeyKey := []; prefix := VNull; suffix := VNull; generate := true;
     dynamicKey := VUndefined |}.

Definition defaultOptions : obj :=
  [(js "strict", VBool true); (js "dotNotation", VBool true)].

Definition initialSchema (opts : obj) : Schema :=
  {| options := lodash_extend defaultOptions opts;
     methods := []; statics := []; hooks := []; refs := []; indexes := [];
     key := initialKey; descriptor := [] |}.

Definition withPrefix (p : value) (s : Schema) : Schema :=
  withKey {| docKeyKey := docKeyKey (key s); prefix := p; suffix := suffix (key s);
             generate := generate (key s); dynamicKey := dynamicKey (key s) |} s.
Definition withSuffix (p : value) (s : Schema) : Schema :=
  withKey {| docKeyKey := docKeyKey (key s); prefix := prefix (key s); suffix := p;
             generate := generate (key s); dynamicKey := dynamicKey (key s) |} s.
Definition withDynamicKey (f : value) (s : Schema) : Schema :=
  withKey {| docKeyKey := docKeyKey (key s); prefix := prefix (key s); suffix := suffix (key s);
             generate := generate (key s); dynamicKey := f |} s.

(** [new Schema(descriptor, options)]: the state of the new object when
    the constructor returns, or the exception it throws. *)
Definition construct (descr : obj) (opts : obj) : outcome unit :=
  (add (KeyMap descr) VUndefined ;;
   s <- this ;;
   (if negb (truthy (prefix (key s))) && isString (getProp (options s) (js "keyPrefix"))
    then update (withPrefix (getProp (options s) (js "keyPrefix")))
    else ret tt) ;;
   (if truthy (getProp (options s) (js "dynamicKey"))
    then update (withDynamicKey (getProp (options s) (js "dynamicKey")))
    else ret tt) ;;
   (if negb (truthy (suffix (key s))) && isString (getProp (options s) (js "keySuffix"))
    then update (withSuffix (getProp (options s) (js "keySuffix")))
    else ret tt))
  (initialSchema opts).

(** *** [index] *)

(** An optional string that is set and not empty, as [if (x)] and
    [x || d] test it. *)
Definition given (x : option jsstring) : option jsstring :=
  match x with
  | Some (c :: r) => Some (c :: r)
  | _ => None
  end.

(** [p[p.length - 2]]: the code unit before the last one, [undefined]
    ([None]) when there is none. *)
Definition beforeLast (p : jsstring) : option jsstring :=
  if (2 <=? length p)%nat then Some [nth (length p - 2) p 0%N] else None.

(** The name inferred from the single property [prop] (lines 244-249).
    [inflection.singularize(undefined)] dereferences its argument. *)
Definition inferIndexName (prop : jsstring) : M jsstring :=
  if trailingDigitReg_test prop then
    match beforeLast prop with
    | Some c => ret (singularize c)
    | None => throw (TypeError "Cannot read properties of undefined")
    end
  else ret (singularize prop).

(** The callback of [_.map] at lines 232-238. *)
Definition inferIndexPart (p : jsstring) : M jsstring :=
  if trailingDigitReg_test p then
    match beforeLast p with
    | Some c => ret (singularize (replaceFirstDot c))
    | None => throw (TypeError "Cannot read properties of undefined")
    end
  else ret (singularize (replaceFirstDot p)).

Fixpoint mapM {B C : Type} (f : B -> M C) (l : list B) : M (list C) :=
  match l with
  | [] => ret []
  | x :: rest => y <- f x ;; ys <- mapM f rest ;; ret (y :: ys)
  end.

(** [index(prop, options)] *)
Definition index (prop : IndexPath) (opts : IndexOptions.t) : M unit :=
  let indexType :=
    match given (IndexOptions.indexType opts) with
    | Some ty => ty
    | None => js "single"
    end in
  nc <- match prop with
        | Compound ps =>
            n <- match given (IndexOptions.indexName opts) with
                 | Some n => ret n
                 | None =>
                     indexProps <- mapM inferIndexPart ps ;;
                     ret (getIndexName indexProps)
                 end ;;
            ret (n, true)
        | Single p =>
            n <- match given (IndexOptions.indexName opts) with
                 | Some n => ret n
                 | None => inferIndexName p
                 end ;;
            ret (n, false)
        end ;;
  let indexData :=
    {| path := prop; name := fst nc; indexType := indexType; compound := snd nc;
       refKeyCase := given (IndexOptions.refKeyCase opts) |} in
  update (fun s => withIndexes (oset (fst nc) indexData (indexes s)) s).

(** *** [method], [static], [virtual] *)

(** The [else] branch of [method] (lines 295-301). *)
Definition methodNamed (nm func : value) : M unit :=
  if negb (isString nm) then
    throw (TypeError "Schema#method expects a string identifier as a function name")
  else if negb (isFunction func) then
    throw (TypeError "Schema#method expects a function as a handle")
  else update (fun s => withMethods (oset (ToString nm) func (methods s)) s).

(** [method(name, func)] *)
Definition method (nm func : value) : M unit :=
  match nm with
  | VObj m =>
      forEach (okeys m) (fun k =>
        if hasOwn m k then methodNamed (VStr k) (getProp m k) else ret tt)
  | _ => methodNamed nm func
  end.

(** The [else] branch of [static] (lines 336-340). *)
Definition staticNamed (nm func : value) : M unit :=
  if negb (isString nm) then
    throw (TypeError "Schema#statics expects a string identifier as a function name")
  else update (fun s => withStatics (oset (ToString nm) func (statics s)) s).

(** [static(name, func)] *)
Definition static (nm func : value) : M unit :=
  match nm with
  | VObj m =>
      forEach (okeys m) (fun k =>
        if hasOwn m k then staticNamed (VStr k) (getProp m k) else ret tt)
  | _ => staticNamed nm func
  end.

(** [virtual(name, type, options)] *)
Definition virtual (nm type opts : value) : M unit :=
  if negb (isString nm) then
    throw (TypeError "Schema#virtual expects a string identifier as a property name")
  else
    to <- (if isPlainObject type && negb (truthy opts) then
             ret (VStr (js "any"), type)
           else if negb (isPlainObject opts) then
             throw (TypeError "Schema#virtual expects an object as a handle")
           else if negb (isFunction (field opts (js "get"))) then
             throw (TypeError "Schema#virtual expects an object with a get function")
           else ret (type, opts)) ;;
    let type := fst to in
    let opts := snd to in
    let virtualType :=
      [(js "type", type); (js "virtual", VBool true);
       (js "get", field opts (js "get")); (js "invisible", VBool true)] in
    let virtualType :=
      if truthy (field opts (js "set"))
      then oset (js "set") (field opts (js "set")) virtualType
      else oset (js "readOnly") (VBool true) virtualType in
    update (fun s => withDescriptor (oset (ToString nm) (VObj virtualType) (descriptor s)) s).

(** *** [set], [get], [pre], [post] *)

(** [set(key, value)] with both arguments. *)
Definition set (k : jsstring) (v : value) : M unit :=
  update (fun s => withOptions (oset k v (options s)) s).

(** [get(key)] *)
Definition get (k : jsstring) : M value :=
  s <- this ;; ret (getProp (options s) k).

(** [_hook(hook, name, fn)]; the key is [`${hook}:${name}`], which no
    inherited member is called. *)
Definition _hook (h : phase) (ev : jsstring) (fn : value) : M unit :=
  update (fun s =>
    let k := phaseName h ++ js ":" ++ ev in
    match olookup k (hooks s) with
    | Some e =>
        withHooks (oset k {| hook := hook e; event := event e; fns := fns e ++ [fn] |}
                        (hooks s)) s
    | None =>
        withHooks (oset k {| hook := h; event := ev; fns := [fn] |} (hooks s)) s
    end).

Definition pre (ev : jsstring) (fn : value) : M unit := _hook Pre ev fn.
Definition post (ev : jsstring) (fn : value) : M unit := _hook Post ev fn.

(** *** [_cloneProp], [extend] *)

(** The [prop] argument of [_cloneProp]. *)
Inductive cloned := Cdescriptor | Cstatics | Cmethods.

Definition propOf (prop : cloned) (s : Schema) : obj :=
  match prop with
  | Cdescriptor => descriptor s
  | Cstatics => statics s
  | Cmethods => methods s
  end.

Definition withProp (prop : cloned) (o : obj) (s : Schema) : Schema :=
  match prop with
  | Cdescriptor => withDescriptor o s
  | Cstatics => withStatics o s
  | Cmethods => withMethods o s
  end.

(** [other[prop].hasOwnProperty(p)] at line 510. *)
Definition ownsMember (prop : cloned) (o : obj) (p : jsstring) : M bool :=
  match prop with
  | Cdescriptor => descriptorOwns o p
  | Cstatics | Cmethods => hasOwnPropertyCall o p
  end.

(** [_cloneProp(other, prop, add)] for a schema [other], whose
    [descriptor], [statics] and [methods] are objects (so the guard of
    line 507 holds). *)
Definition _cloneProp (other : Schema) (prop : cloned) (viaAdd : bool) : M unit :=
  forEach (okeys (propOf prop other)) (fun p =>
    own <- ownsMember prop (propOf prop other) p ;;
    s <- this ;;
    if own && negb (truthy (getProp (propOf prop s) p)) then
      if viaAdd then add (KeyName p) (clone (getProp (descriptor other) p))
      else update (fun s => withProp prop (oset p (getProp (propOf prop other) p) (propOf prop s)) s)
    else ret tt).

(** The argument of [extend]: a [Schema] instance, or any other value. *)
Inductive extendArg :=
| Other (other : Schema)
| NotASchema (v : value).

(** [extend(other)]; the value returned is the receiver. *)
Definition extend (arg : extendArg) : M Schema :=
  match arg with
  | Other other =>
      _cloneProp other Cdescriptor true ;;
      _cloneProp other Cstatics false ;;
      _cloneProp other Cmethods false ;;
      forEach (okeys (options other)) (fun k =>
        own <- hasOwnPropertyCall (options other) k ;;
        if own then
          ours <- get k ;;
          let theirs := getProp (options other) k in
          if isUndefined ours then set k (clone theirs)
          else if isPlainObject ours && isPlainObject theirs then
            set k (merge (clone theirs) ours)
          else ret tt
        else ret tt) ;;
      forEach (ovalues (hooks other)) (fun h =>
        forEach (fns h) (fun fn =>
          match hook h with
          | Pre => pre (event h) fn
          | Post => post (event h) fn
          end)) ;;
      this
  | NotASchema _ => this
  end.

(** *** [getDocumentKeyValue] *)

Definition keyPattern (pre suf : jsstring) : RegExp :=
  {| anchoredStart := true;
     atoms := escapeStringRegexp pre ++ [DotStar] ++ escapeStringRegexp suf;
     anchoredEnd := true |}.

Definition prefixPattern (pre : jsstring) : RegExp :=
  {| anchoredStart := true; atoms := escapeStringRegexp pre; anchoredEnd := false |}.

Definition suffixPattern (suf : jsstring) : RegExp :=
  {| anchoredStart := false; atoms := escapeStringRegexp suf; anchoredEnd := true |}.

Definition stringOrEmpty (v : value) : jsstring :=
  match v with VStr s => s | _ => [] end.

(** [getDocumentKeyValue(id, full)] *)
Definition getDocumentKeyValue (id : value) (full : bool) (s : Schema) : value :=
  match id with
  | VStr id =>
      let pre := stringOrEmpty (prefix (key s)) in
      let suf := stringOrEmpty (suffix (key s)) in
      let matched := test (keyPattern pre suf) id in
      if full then
        if matched then
          if isFunction (dynamicKey (key s)) then call (dynamicKey (key s)) [VStr id]
          else VStr id
        else if isFunction (dynamicKey (key s)) then
          call (dynamicKey (key s)) [VStr (pre ++ id ++ suf)]
        else VStr (pre ++ id ++ suf)
      else if matched then
        VStr (replace (suffixPattern suf) [] (replace (prefixPattern pre) [] id))
      else VStr id
  | _ => id
  end.

(** *** [getRefKey] *)

(** [v] after the case folding of lines 618-623.  (Under an inherited
    name [this.indexes[name]] is a function, with no [refKeyCase].) *)
Definition foldRefKeyCase (nm v : jsstring) (s : Schema) : jsstring :=
  match olookup nm (indexes s) with
  | Some ix =>
      match refKeyCase ix with
      | Some c =>
          if jsstring_eqb c REF_KEY_CASE.UPPER then toUpperCase v
          else if jsstring_eqb c REF_KEY_CASE.LOWER then toLowerCase v
          else v
      | None => v
      end
  | None => v
  end.

(** [kp] at line 625. *)
Definition refKeyPrefix (s : Schema) : value :=
  if isFunction (getProp (options s) (js "dynamicKey"))
  then call (getProp (options s) (js "dynamicKey")) []
  else if truthy (getProp (options s) (js "keyPrefix"))
       then getProp (options s) (js "keyPrefix")
       else VStr [].

(** What [concat] appends to [kp] at line 625. *)
Definition refKeyInfix (nm : jsstring) (s : Schema) : jsstring :=
  ToString (if truthy (getProp (options s) (js "refIndexKeyPrefix"))
            then getProp (options s) (js "refIndexKeyPrefix")
            else VStr [])
  ++ nm ++ ToString (getProp (options s) (js "delimiter")).

(** [getRefKey(name, v)].  A prefix that is not a string has no usable
    [concat] ([Buffer.byteLength] rejects what an array's would build). *)
Definition getRefKey (nm v : jsstring) (s : Schema) : result jsstring :=
  let v := foldRefKeyCase nm v s in
  match refKeyPrefix s with
  | VStr kp =>
      let fullPrefix := kp ++ refKeyInfix nm s in
      let v :=
        if (MAX_REF_KEY_LENGTH <? byteLength (fullPrefix ++ v))%nat
        then js "hashed_" ++ MD5.hex (utf8 v)
        else v in
      Ok (fullPrefix ++ v)
  | _ => Raise (TypeError "kp.concat is not a function")
  end.

End Methods.

(** An identifier free of line terminators, which [.] stops at. *)
Definition noLineTerminator (s : jsstring) : bool :=
  forallb (fun c => negb (isLineTerminator c)) s.

(** ** The remaining methods *)

Section Readers.
Context {D : Deps}.

(** [set(key)] with one argument ([arguments.length === 1], lines
    419-421): the option is read and nothing is written. *)
Definition setRead (k : jsstring) : M value :=
  s <- this ;; ret (getProp (options s) k).


End Readers.

(** ** A reference set of collaborators

    The instance on which the examples run.  The functions of the
    repository that [schema.js] imports are modelled from the spec; the
    third-party ones are cut down to what the examples use. *)

Module Reference.

(** ASCII case mapping; other code units are left as they are. *)
Definition asciiUpper (s : jsstring) : jsstring :=
  map (fun c => if (97 <=? c)%N && (c <=? 122)%N then (c - 32)%N else c) s.

Definition asciiLower (s : jsstring) : jsstring :=
  map (fun c => if (65 <=? c)%N && (c <=? 90)%N then (c + 32)%N else c) s.

(** The regular plural only: a final [s] is dropped. *)
Definition dropFinalS (s : jsstring) : jsstring :=
  match rev s with
  | 115%N :: (_ :: _) as r => rev (tl (115%N :: r))
  | _ => s
  end.

(** Plain objects are merged key by key, the source winning on a leaf and
    an [undefined] source value never replacing a destination value. *)
Fixpoint mergeObjects (dest src : value) {struct src} : value :=
  match dest, src with
  | VObj d, VObj sprops =>
      VObj (fold_left
              (fun acc kv =>
                 match olookup (fst kv) acc, snd kv with
                 | Some (VObj dd), VObj _ => oset (fst kv) (mergeObjects (VObj dd) (snd kv)) acc
                 | Some _, VUndefined => acc
                 | _, sv => oset (fst kv) sv acc
                 end) sprops d)
  | _, _ => dest
  end.

(** Handle 1 stands for [function (k) { return 'dyn::' + k }]; the type
    tag [String] called as a function converts its argument; any other
    function returns [undefined]. *)
Definition sourceOf (f : N) : jsstring :=
  if N.eqb f 1 then js "function (k) { return 'dyn::' + k }"
  else js "function () {}".

Definition stringOf (v : value) : jsstring :=
  match v with
  | VStr s => s
  | VUndefined => js "undefined"
  | VNull => js "null"
  | VBool true => js "true"
  | VBool false => js "false"
  | _ => js "[object Object]"
  end.

Definition callFunction (f : value) (args : list value) : value :=
  match f with
  | VFun 1%N => VStr (js "dyn::" ++ stringOf (hd VUndefined args))
  | VCtor CString => VStr (match args with [] => [] | a :: _ => stringOf a end)
  | _ => VUndefined
  end.

Definition typeAlias (c : ctor) : jsstring := asciiLower (ctorName c).

(** Modelled from the spec: [normalizeProperties] of [./normalize] (spec
    4.1).  A type shorthand, a nested mapping or an array wrapper becomes a
    descriptor with an explicit [type]; a full descriptor object (one that
    carries [type]) keeps its fields and gets its type in canonical form;
    an unknown or omitted type is ['any']; nested and array shapes are
    normalized recursively.  The property name plays no part. *)
Fixpoint normalize (raw : value) : value :=
  match raw with
  | VObj props =>
      let inner := map (fun kv => (fst kv, normalize (snd kv))) props in
      match olookup (js "type") props, olookup (js "type") inner with
      | Some VUndefined, _ | None, _ | _, None =>
          VObj [(js "type", VStr (js "object")); (js "objectType", VObj inner)]
      | Some _, Some (VObj canonical) =>
          VObj (fold_left (fun acc kv => oset (fst kv) (snd kv) acc) canonical props)
      | Some _, Some _ => raw
      end
  | VArr elems =>
      match map normalize elems with
      | [] => VObj [(js "type", VStr (js "array"))]
      | first :: _ => VObj [(js "type", VStr (js "array")); (js "arrayType", first)]
      end
  | VCtor c => VObj [(js "type", VStr (typeAlias c))]
  | VStr s => VObj [(js "type", VStr (asciiLower s))]
  | _ => VObj [(js "type", VStr (js "any"))]
  end.

(** Modelled from the spec: [getRefs] of [./schema.utils] (spec 4.2).
    Every property of the raw descriptor tree that declares a [ref] gives
    one entry; the path of a nested property is dot-joined. *)
Fixpoint refsUnder (at_ : jsstring) (raw : value) : list RefData :=
  match raw with
  | VObj props =>
      flat_map
        (fun kv =>
           match snd kv with
           | VObj inner =>
               if truthy (getProp inner (js "ref"))
               then [{| refPath := at_ ++ fst kv; refInfo := snd kv |}]
               else refsUnder (at_ ++ fst kv ++ js ".") (snd kv)
           | _ => []
           end) props
  | _ => []
  end.

(** Modelled from the spec: [getIndexes] of [./schema.utils] (spec 4.3).
    Every property of the raw descriptor tree flagged [index: true] gives a
    single-property index entry. *)
Fixpoint indexesUnder (at_ : jsstring) (raw : value) : list IndexData :=
  match raw with
  | VObj props =>
      flat_map
        (fun kv =>
           match snd kv with
           | VObj inner =>
               if isTrue (getProp inner (js "index"))
               then [{| path := Single (at_ ++ fst kv); name := at_ ++ fst kv;
                        indexType := js "single"; compound := false;
                        refKeyCase := match getProp inner (js "refKeyCase") with
                                      | VStr c => given (Some c)
                                      | _ => None
                                      end |}]
               else indexesUnder (at_ ++ fst kv ++ js ".") (snd kv)
           | _ => []
           end) props
  | _ => []
  end.

Definition indexesOf (raw : value) (k : value) : list IndexData :=
  match k with
  | VStr nm => indexesUnder [] (VObj [(nm, raw)])
  | _ => indexesUnder [] raw
  end.

(** Modelled from the spec: [getIndexName] of [./schema.utils] (spec 4.3).
    The components are joined by a fixed separator; the spec's example name
    [EmailAndUserName] suggests [And]. *)
Definition joinedName (parts : list jsstring) : jsstring := join (js "And") parts.

Definition deps : Deps :=
  {| toUpperCase := asciiUpper;
     toLowerCase := asciiLower;
     singularize := dropFinalS;
     merge := mergeObjects;
     call := callFunction;
     fnToString := sourceOf;
     normalizeProperties := fun raw _ => normalize raw;
     getRefs := refsUnder [];
     getIndexes := indexesOf;
     getIndexName := joinedName |}.

End Reference.

(** ** Vocabulary of the statements *)

(** The entry a compound call stores under [n]. *)
Definition compoundEntry (ps : list jsstring) (n : jsstring) (opts : IndexOptions.t) : IndexData :=
  {| path := Compound ps;
     name := n;
     indexType := match given (IndexOptions.indexType opts) with
                  | Some ty => ty
                  | None => js "single"
                  end;
     compound := true;
     refKeyCase := given (IndexOptions.refKeyCase opts) |}.

(** A match was found. *)
Definition matches (o : option nat) : bool :=
  match o with Some _ => true | None => false end.

(** The three conflicts [_applyDocumentKey] rejects in a key property
    (lines 115-131). *)
Definition markedIndex (d : value) : bool := isTrue (field d (js "index")).
Definition declaresRef (d : value) : bool := truthy (field d (js "ref")).
Definition typeNotKeyLike (d : value) : bool :=
  truthy (field d (js "type")) && negb (keyTypeAllowed (field d (js "type"))).
Definition keyConflict (d : value) : bool :=
  markedIndex d || declaresRef d || typeNotKeyLike d.

(** The receiver once [_applyDocumentKey] has accepted the key property
    [p] (lines 133-149). *)
Definition keyApplied {D : Deps} (p : jsstring) (s : Schema) : Schema :=
  withDescriptor
    (oset p (normalizeProperties (getProp (descriptor s) p) (VStr p)) (descriptor s))
    (withKey (keyFrom p (getProp (descriptor s) p) (key s)) s).

(** The receiver once [_applyDocumentKey] has made up the key [id]
    (lines 154-158). *)
Definition synthesized {D : Deps} (s : Schema) : Schema :=
  withDescriptor
    (oset (js "id") (normalizeProperties (VCtor CString) (VStr (js "id"))) (descriptor s))
    (withDocKeyKey (js "id") s).

(** The receiver once [add] has recorded the references and indexes of
    [descr] (lines 484-485, 488-489). *)
Definition recorded {D : Deps} (descr : value) (k : value) (s : Schema) : Schema :=
  fold_left (fun s elem => withIndexes (oset (pathKey (path elem)) elem (indexes s)) s)
    (getIndexes descr k)
    (fold_left (fun s elem => withRefs (oset (refPath elem) elem (refs s)) s)
       (getRefs descr) s).

(** The descriptor once [add] has stored the normalized properties of the
    map [m] (lines 491-493). *)
Definition storedMap {D : Deps} (m : obj) (o : obj) : obj :=
  fold_left (fun o k => oset k (normalizeProperties (getProp m k) (VStr k)) o) (okeys m) o.

(** The new object once the constructor has taken [keyPrefix],
    [dynamicKey] and [keySuffix] from the options (lines 92-102). *)
Definition finished (s : Schema) : Schema :=
  let s1 :=
    if negb (truthy (prefix (key s))) && isString (getProp (options s) (js "keyPrefix"))
    then withPrefix (getProp (options s) (js "keyPrefix")) s else s in
  let s2 :=
    if truthy (getProp (options s) (js "dynamicKey"))
    then withDynamicKey (getProp (options s) (js "dynamicKey")) s1 else s1 in
  if negb (truthy (suffix (key s))) && isString (getProp (options s) (js "keySuffix"))
  then withSuffix (getProp (options s) (js "keySuffix")) s2 else s2.

(** The instance members and static members of a schema. *)
Definition handlers (s : Schema) : obj * obj := (methods s, statics s).

(** The key of [this.hooks] for a phase and an event (line 456). *)
Definition hookKey (h : phase) (ev : jsstring) : jsstring :=
  phaseName h ++ js ":" ++ ev.

(** The functions registered for a phase and an event, in order. *)
Definition hooksFor (h : phase) (ev : jsstring) (s : Schema) : list value :=
  match olookup (hookKey h ev) (hooks s) with
  | Some e => fns e
  | None => []
  end.

Definition phase_eqb (a b : phase) : bool :=
  match a, b with
  | Pre, Pre | Post, Post => true
  | _, _ => false
  end.

(** The value [add] hands to [_getRefs] and [_getIndexes], if any (lines
    483-490). *)
Definition scanned (k : addKey) (descr : value) : option value :=
  if truthy (addKeyValue k) && truthy descr then Some descr
  else match k with
       | KeyMap m => Some (VObj m)
       | KeyName _ => None
       end.

(** The entry [index(prop, options)] stores under [n] (lines 253-256). *)
Definition indexEntry (prop : IndexPath) (n : jsstring) (opts : IndexOptions.t) : IndexData :=
  {| path := prop;
     name := n;
     indexType := match given (IndexOptions.indexType opts) with
                  | Some ty => ty
                  | None => js "single"
                  end;
     compound := match prop with Compound _ => true | Single _ => false end;
     refKeyCase := given (IndexOptions.refKeyCase opts) |}.

(** The property names of an index path. *)
Definition pathParts (prop : IndexPath) : list jsstring :=
  match prop with
  | Single p => [p]
  | Compound ps => ps
  end.

(** The hooks of a schema as [_hook] builds them: one entry for each
    name, stored under the key of its phase and event. *)
Definition hooksKeyed (h : omap HookData) : Prop :=
  NoDup (okeys h)
  /\ forall k e, In (k, e) h -> k = hookKey (hook e) (event e).

(** The options of the receiver once the loop of [extend] has visited the
    name [k] of the other schema's options (lines 534-544). *)
Definition optionVisited {D : Deps} (other : Schema) (k : jsstring) (o : obj) : obj :=
  if hasOwn (options other) k then
    if isUndefined (getProp o k) then oset k (clone (getProp (options other) k)) o
    else if isPlainObject (getProp o k) && isPlainObject (getProp (options other) k) then
      oset k (merge (clone (getProp (options other) k)) (getProp o k)) o
    else o
  else o.



(** The second argument of the call of [_getIndexes] in [add]: the key
    when a descriptor comes with it, [undefined] for a map alone. *)
Definition scannedKey (k : addKey) (descr : value) : value :=
  if truthy (addKeyValue k) && truthy descr then addKeyValue k else VUndefined.

(** The map [m] marks its property [p] as key, as [_applyDocumentKey]
    reads the mark off what [normalizeProperties] returns. *)
Definition declaresKey {D : Deps} (m : obj) (p : jsstring) : bool :=
  hasOwn m p && isKeyProperty (normalizeProperties (getProp m p) (VStr p)).

(** [n] is the name under which [index(prop, options)] stores its entry:
    the one given, or else the one made from the path (lines 229-246). *)
Definition indexNameIs {D : Deps} (prop : IndexPath) (opts : IndexOptions.t)
           (s : Schema) (n : jsstring) : Prop :=
  match given (IndexOptions.indexName opts) with
  | Some m => n = m
  | None =>
      match prop with
      | Single p => inferIndexName p s = Returns n s
      | Compound ps =>
          exists parts, mapM inferIndexPart ps s = Returns parts s /\ n = getIndexName parts
      end
  end.

(** The index registered under [nm], if there is one, folds no case. *)
Definition foldsNoCase (nm : jsstring) (s : Schema) : Prop :=
  forall ix, olookup nm (indexes s) = Some ix -> refKeyCase ix = None.

(** The first argument of [add] asks for a property called [__proto__]:
    it is that name, or a map with a property of that name. *)
Definition namesProto (k : addKey) : bool :=
  match k with
  | KeyName p => jsstring_eqb p protoName
  | KeyMap m => hasOwn m protoName
  end.

(** ** Example schemas *)

Module Examples.

(** The object a constructor call leaves. *)
Definition built (o : outcome unit) : Schema :=
  match o with
  | Returns _ s => s
  | Throws _ s => s
  end.

(** The receiver after a method call. *)
Definition after {A : Type} (c : M A) (s : Schema) : Schema :=
  match c s with
  | Returns _ s' => s'
  | Throws _ s' => s'
  end.

(** [new Schema({})] *)
Definition empty : Schema := built (construct (D := Reference.deps) [] []).

(** [new Schema({}, {dynamicKey: function (k) { return 'dyn::' + k }})] *)
Definition dynamic : Schema :=
  built (construct (D := Reference.deps) [] [(js "dynamicKey", VFun 1)]).

(** [new Schema({}, {keyPrefix: 'user::'})] *)
Definition users : Schema :=
  built (construct (D := Reference.deps) [] [(js "keyPrefix", VStr (js "user::"))]).

(** [new Schema({}, {delimiter: '_'})] *)
Definition delimited : Schema :=
  built (construct (D := Reference.deps) [] [(js "delimiter", VStr (js "_"))]).

(** [index(['email', 'userName'], {indexName: 'EmailAndUserName'})] *)
Definition emailAndUserName : IndexOptions.t :=
  {| IndexOptions.indexName := Some (js "EmailAndUserName");
     IndexOptions.indexType := None;
     IndexOptions.refKeyCase := None |}.

(** [A = new Schema({}); A.static('FLAG', false)] and
    [B = new Schema({}); B.static('FLAG', true)] *)
Definition flagOff : Schema :=
  after (static (D := Reference.deps) (VStr (js "FLAG")) (VBool false)) empty.
Definition flagOn : Schema :=
  after (static (D := Reference.deps) (VStr (js "FLAG")) (VBool true)) empty.

(** [A = new Schema({}); A.method('foo', f1)] and
    [B = new Schema({}); B.method({foo: f2, bar: f3, toString: f4})] *)
Definition withFoo : Schema :=
  after (method (D := Reference.deps) (VStr (js "foo")) (VFun 11)) empty.
Definition withFooBar : Schema :=
  after (method (D := Reference.deps)
           (VObj [(js "foo", VFun 12); (js "bar", VFun 13); (js "toString", VFun 14)])
           VUndefined) empty.


(** [A = new Schema({}); A.pre('save', f21)] and
    [B = new Schema({}); B.post('save', f22); B.pre('save', f23)] *)
Definition hookedA : Schema :=
  after (pre (js "save") (VFun 21)) empty.
Definition hookedB : Schema :=
  after (pre (js "save") (VFun 23)) (after (post (js "save") (VFun 22)) empty).

(** [new Schema({}, {strict: false})] *)
Definition lax : Schema :=
  built (construct (D := Reference.deps) [] [(js "strict", VBool false)]).

(** [new Schema({name: String})] *)
Definition named : Schema :=
  built (construct (D := Reference.deps) [(js "name", VCtor CString)] []).


(** [{email: {type: String, key: true, prefix: ''}}] *)
Definition keyedByEmail : obj :=
  [(js "email", VObj [(js "type", VCtor CString); (js "key", VBool true);
                      (js "prefix", VStr [])])].

(** [{email: {type: String, index: true, refKeyCase: 'upper'}}] *)
Definition indexedEmail : obj :=
  [(js "email", VObj [(js "type", VCtor CString); (js "index", VBool true);
                      (js "refKeyCase", VStr (js "upper"))])].


(** [S = new Schema({}, {delimiter: '_'}); S.index('email')] *)
Definition plainEmail : Schema :=
  after (index (D := Reference.deps) (Single (js "email")) IndexOptions.none) delimited.

End Examples.

(** * Theorems *)

(** ** The example schemas

    Each of them is what its constructor call returns. *)

Example examples_constructed :
  @construct Reference.deps [] [] = Returns tt Examples.empty
  /\ @construct Reference.deps [] [(js "dynamicKey", VFun 1)] = Returns tt Examples.dynamic
  /\ @construct Reference.deps [] [(js "keyPrefix", VStr (js "user::"))]
     = Returns tt Examples.users
  /\ @construct Reference.deps [] [(js "delimiter", VStr (js "_"))]
     = Returns tt Examples.delimited.
Proof. repeat split. Qed.

Example examples_keys :
  key Examples.empty
  = {| docKeyKey := js "id"; prefix := VNull; suffix := VNull; generate := true;
       dynamicKey := VUndefined |}
  /\ key Examples.dynamic
     = {| docKeyKey := js "id"; prefix := VNull; suffix := VNull; generate := true;
          dynamicKey := VFun 1 |}
  /\ key Examples.users
     = {| docKeyKey := js "id"; prefix := VStr (js "user::"); suffix := VNull;
          generate := true; dynamicKey := VUndefined |}.
Proof. repeat split. Qed.

(** ** Hashing and strings *)

(** The RFC 1321 test suite and two longer messages. *)
Example md5_empty : MD5.hex [] = js "d41d8cd98f00b204e9800998ecf8427e".
Proof. vm_compute. reflexivity. Qed.

Example md5_abc : MD5.hex (utf8 (js "abc")) = js "900150983cd24fb0d6963f7d28e17f72".
Proof. vm_compute. reflexivity. Qed.

Example md5_fox :
  MD5.hex (utf8 (js "The quick brown fox jumps over the lazy dog"))
  = js "9e107d9d372bb6826bd81d3542a419d6".
Proof. vm_compute. reflexivity. Qed.

Example md5_300a :
  MD5.hex (utf8 (repeat 97%N 300)) = js "4e5475d125a33c6190718e75adc1b704".
Proof. vm_compute. reflexivity. Qed.

Example md5_e_acute :
  MD5.hex (utf8 (repeat 233%N 130)) = js "9d8e9d0986f2ef9ee24e063b37be0430".
Proof. vm_compute. reflexivity. Qed.

Lemma jsstring_eqb_eq (a b : jsstring) : jsstring_eqb a b = true <-> a = b.
Proof.
  unfold jsstring_eqb. destruct (list_eq_dec N.eq_dec a b); split; congruence.
Qed.

Lemma jsstring_eqb_refl (a : jsstring) : jsstring_eqb a a = true.
Proof. apply jsstring_eqb_eq. reflexivity. Qed.

Lemma jsstring_eqb_neq (a b : jsstring) : jsstring_eqb a b = false <-> a <> b.
Proof.
  unfold jsstring_eqb. destruct (list_eq_dec N.eq_dec a b); split; congruence.
Qed.

(** The digest is 32 hexadecimal digits whatever the message. *)
Lemma md5_hex_length (msg : list N) : length (MD5.hex msg) = 32.
Proof.
  unfold MD5.hex, MD5.digest.
  destruct (MD5.blocks _ MD5.init (MD5.pad msg)) as [[[a b] c] d].
  reflexivity.
Qed.

(** ** Objects *)

Section OmapFacts.
Variable A : Type.
Implicit Types (o : omap A) (k : jsstring) (v : A).

Lemma olookup_oreplace k k' v o :
  olookup k' (oreplace k v o)
  = if jsstring_eqb k' k
    then match olookup k o with Some _ => Some v | None => None end
    else olookup k' o.
Proof.
  induction o as [|[k0 v0] o IH]; simpl.
  - destruct (jsstring_eqb k' k); reflexivity.
  - destruct (jsstring_eqb k k0) eqn:E; simpl.
    + apply jsstring_eqb_eq in E. subst k0.
      destruct (jsstring_eqb k' k); reflexivity.
    + destruct (jsstring_eqb k' k0) eqn:E'.
      * apply jsstring_eqb_eq in E'. subst k0.
        destruct (jsstring_eqb k' k) eqn:E''; [|reflexivity].
        apply jsstring_eqb_eq in E''. subst k'.
        rewrite jsstring_eqb_refl in E. discriminate.
      * exact IH.
Qed.

Lemma olookup_oinsertIndex n k k' v o :
  olookup k o = None ->
  olookup k' (oinsertIndex n k v o)
  = if jsstring_eqb k' k then Some v else olookup k' o.
Proof.
  induction o as [|[k0 v0] o IH]; simpl; intros L.
  - destruct (jsstring_eqb k' k); reflexivity.
  - destruct (jsstring_eqb k k0) eqn:E0; [discriminate|].
    assert (H : jsstring_eqb k' k = true -> jsstring_eqb k' k0 = false).
    { intros E. apply jsstring_eqb_eq in E. subst k'. exact E0. }
    destruct (arrayIndex k0) as [m|]; [destruct (n <? m)%N|]; simpl;
      try rewrite (IH L);
      destruct (jsstring_eqb k' k) eqn:E; try rewrite (H eq_refl); reflexivity.
Qed.

Lemma olookup_app k o o' :
  olookup k (o ++ o')
  = match olookup k o with Some w => Some w | None => olookup k o' end.
Proof.
  induction o as [|[k0 v0] o IH]; simpl; [reflexivity|].
  destruct (jsstring_eqb k k0); [reflexivity|exact IH].
Qed.

(** Reading after writing. *)
Lemma olookup_oset k k' v o :
  olookup k' (oset k v o) = if jsstring_eqb k' k then Some v else olookup k' o.
Proof.
  unfold oset. destruct (olookup k o) as [w|] eqn:L.
  - rewrite olookup_oreplace, L. reflexivity.
  - destruct (arrayIndex k) as [n|].
    + rewrite olookup_oinsertIndex by exact L. reflexivity.
    + rewrite olookup_app. simpl.
      destruct (jsstring_eqb k' k) eqn:E.
      * apply jsstring_eqb_eq in E. subst k'. rewrite L. reflexivity.
      * destruct (olookup k' o); reflexivity.
Qed.

Lemma olookup_oset_same k v o : olookup k (oset k v o) = Some v.
Proof. rewrite olookup_oset, jsstring_eqb_refl. reflexivity. Qed.

Lemma olookup_oset_other k k' v o : k' <> k -> olookup k' (oset k v o) = olookup k' o.
Proof.
  intros H. rewrite olookup_oset.
  apply jsstring_eqb_neq in H. rewrite H. reflexivity.
Qed.

Lemma hasOwn_oset k k' v o :
  hasOwn (oset k v o) k' = jsstring_eqb k' k || hasOwn o k'.
Proof.
  unfold hasOwn. rewrite olookup_oset.
  destruct (jsstring_eqb k' k); reflexivity.
Qed.

Lemma hasOwn_okeys k o : hasOwn o k = true <-> In k (okeys o).
Proof.
  unfold hasOwn. induction o as [|[k0 v0] o IH]; simpl.
  - split; [discriminate|tauto].
  - destruct (jsstring_eqb k k0) eqn:E.
    + apply jsstring_eqb_eq in E. subst. split; auto.
    + apply jsstring_eqb_neq in E. rewrite IH. split; [auto|].
      intros [H|H]; [congruence|exact H].
Qed.

End OmapFacts.

Lemma okeys_oreplace (A : Type) (k : jsstring) (v : A) (o : omap A) :
  okeys (oreplace k v o) = okeys o.
Proof.
  unfold okeys. induction o as [|[k0 v0] o IH]; simpl; [reflexivity|].
  destruct (jsstring_eqb k k0); simpl; [reflexivity|].
  rewrite IH. reflexivity.
Qed.

Lemma okeys_oinsertIndex (A : Type) (n : N) (k : jsstring) (v : A) (o : omap A) :
  Add k (okeys o) (okeys (oinsertIndex n k v o)).
Proof.
  induction o as [|[k0 v0] o IH]; simpl.
  - apply Add_head.
  - destruct (arrayIndex k0) as [m|].
    + destruct (n <? m)%N; simpl.
      * apply Add_head.
      * apply Add_cons. exact IH.
    + apply Add_head.
Qed.

Lemma NoDup_okeys_oset (A : Type) (k : jsstring) (v : A) (o : omap A) :
  NoDup (okeys o) -> NoDup (okeys (oset k v o)).
Proof.
  intros N. unfold oset. destruct (olookup k o) eqn:L.
  - rewrite okeys_oreplace. exact N.
  - assert (Nk : ~ In k (okeys o)).
    { intros I. apply hasOwn_okeys in I. unfold hasOwn in I. rewrite L in I.
      discriminate I. }
    destruct (arrayIndex k) as [n|].
    + apply (NoDup_Add (okeys_oinsertIndex n k v o)). auto.
    + unfold okeys. rewrite map_app. simpl.
      apply (NoDup_Add (a := k) (l := map fst o)).
      * clear. induction (map fst o) as [|x l IH]; simpl.
        -- apply Add_head.
        -- apply Add_cons. exact IH.
      * auto.
Qed.

(** ** Regular expressions *)

Lemma matchHere_literal_end (lit s : jsstring) :
  matches (matchHere (escapeStringRegexp lit) true s) = true <-> s = lit.
Proof.
  revert s. induction lit as [|c lit IH]; intros [|x s]; simpl;
    try (split; [discriminate|congruence]); try (split; reflexivity).
  destruct (N.eqb x c) eqn:E.
  - apply N.eqb_eq in E. subst x.
    destruct (matchHere (escapeStringRegexp lit) true s) eqn:M; simpl.
    + split; [intros _|reflexivity]. f_equal. apply IH. rewrite M. reflexivity.
    + split; [discriminate|]. intros H. injection H as H. apply IH in H.
      rewrite M in H. discriminate.
  - apply N.eqb_neq in E. split; [discriminate|congruence].
Qed.

Lemma matchHere_literal_end_length (lit : jsstring) :
  matchHere (escapeStringRegexp lit) true lit = Some (length lit).
Proof.
  induction lit as [|c lit IH]; simpl; [reflexivity|].
  rewrite N.eqb_refl, IH. reflexivity.
Qed.

Lemma matchHere_literal_open (lit rest : jsstring) :
  matchHere (escapeStringRegexp lit) false (lit ++ rest) = Some (length lit).
Proof.
  induction lit as [|c lit IH]; simpl; [reflexivity|].
  rewrite N.eqb_refl, IH. reflexivity.
Qed.

(** A literal in front of a pattern consumes itself. *)
Lemma matchHere_literal_then (lit : jsstring) (r : list atom) (e : bool) (s : jsstring) :
  matches (matchHere (escapeStringRegexp lit ++ r) e s) = true
  <-> exists rest, s = lit ++ rest /\ matches (matchHere r e rest) = true.
Proof.
  revert s. induction lit as [|c lit IH]; intros s; simpl.
  - split.
    + intros H. exists s. auto.
    + intros [rest [-> H]]. exact H.
  - destruct s as [|x s].
    + split; [discriminate|]. intros [rest [H _]]. discriminate.
    + destruct (N.eqb x c) eqn:E.
      * apply N.eqb_eq in E. subst x.
        assert (Hm : matches (option_map S (matchHere (escapeStringRegexp lit ++ r) e s))
                     = matches (matchHere (escapeStringRegexp lit ++ r) e s))
          by (destruct (matchHere _ e s); reflexivity).
        rewrite Hm, IH. split.
        -- intros [rest [-> H]]. exists rest. auto.
        -- intros [rest [H1 H2]]. injection H1 as ->. exists rest. auto.
      * apply N.eqb_neq in E. split; [discriminate|].
        intros [rest [H _]]. injection H as H _. congruence.
Qed.

Lemma dotStar_rest (rest : jsstring -> option nat) (s : jsstring) :
  matches (rest s) = true -> matches (dotStar rest s) = true.
Proof.
  intros H. destruct s as [|x s]; simpl; [exact H|].
  destruct (isLineTerminator x); [exact H|].
  destruct (dotStar rest s); [reflexivity|exact H].
Qed.

(** [.*] followed by a literal and [$]: any run free of line terminators,
    then the literal. *)
Lemma dotStar_literal_end (lit s : jsstring) :
  matches (dotStar (matchHere (escapeStringRegexp lit) true) s) = true
  <-> exists m, s = m ++ lit /\ noLineTerminator m = true.
Proof.
  split.
  - induction s as [|x s IH]; simpl.
    + intros H. apply matchHere_literal_end in H. exists []. auto.
    + destruct (isLineTerminator x) eqn:LT.
      * intros H. apply matchHere_literal_end in H. exists []. auto.
      * destruct (dotStar (matchHere (escapeStringRegexp lit) true) s) eqn:DS.
        -- intros _. destruct IH as [m [-> Hm]]; [reflexivity|].
           exists (x :: m). split; [reflexivity|].
           simpl. rewrite LT. exact Hm.
        -- intros H. apply matchHere_literal_end in H. exists []. auto.
  - intros [m [-> Hm]]. induction m as [|x m IH]; simpl.
    + apply dotStar_rest. rewrite matchHere_literal_end_length. reflexivity.
    + simpl in Hm. apply andb_true_iff in Hm. destruct Hm as [Hx Hm].
      apply negb_true_iff in Hx. rewrite Hx.
      specialize (IH Hm).
      destruct (dotStar (matchHere (escapeStringRegexp lit) true) (m ++ lit));
        [reflexivity|discriminate].
Qed.

(** What [^prefix.*suffix$] accepts. *)
Lemma test_keyPattern (pre suf id : jsstring) :
  test (keyPattern pre suf) id = true
  <-> exists m, id = pre ++ m ++ suf /\ noLineTerminator m = true.
Proof.
  unfold test, exec, keyPattern; simpl.
  assert (H : forall o : option nat,
             match option_map (pair 0) o with Some _ => true | None => false end = matches o)
    by (intros [n|]; reflexivity).
  rewrite H, matchHere_literal_then. simpl.
  split.
  - intros [rest [-> Hr]]. apply dotStar_literal_end in Hr.
    destruct Hr as [m [-> Hm]]. exists m. auto.
  - intros [m [-> Hm]]. exists (m ++ suf). split; [reflexivity|].
    apply dotStar_literal_end. exists m. auto.
Qed.

(** [replace(/^prefix/, '')] removes the prefix. *)
Lemma replace_prefixPattern (pre rest : jsstring) :
  replace (prefixPattern pre) [] (pre ++ rest) = rest.
Proof.
  unfold replace, exec, prefixPattern; simpl.
  rewrite matchHere_literal_open. simpl.
  induction pre as [|c pre IH]; simpl; [reflexivity|exact IH].
Qed.

Lemma search_literal_end (suf m : jsstring) (i : nat) :
  search (escapeStringRegexp suf) true (m ++ suf) i = Some (i + length m, length suf).
Proof.
  revert i. induction m as [|x m IH]; intros i.
  - simpl. destruct suf as [|c suf].
    + simpl. f_equal. f_equal. lia.
    + change (search (escapeStringRegexp (c :: suf)) true (c :: suf) i)
        with (match matchHere (escapeStringRegexp (c :: suf)) true (c :: suf) with
              | Some n => Some (i, n)
              | None => search (escapeStringRegexp (c :: suf)) true suf (S i)
              end).
      rewrite matchHere_literal_end_length. f_equal. f_equal. lia.
  - change (search (escapeStringRegexp suf) true ((x :: m) ++ suf) i)
      with (match matchHere (escapeStringRegexp suf) true (x :: m ++ suf) with
            | Some n => Some (i, n)
            | None => search (escapeStringRegexp suf) true (m ++ suf) (S i)
            end).
    destruct (matchHere (escapeStringRegexp suf) true (x :: m ++ suf)) eqn:M.
    + assert (H : x :: m ++ suf = suf)
        by (apply matchHere_literal_end; rewrite M; reflexivity).
      apply (f_equal (@length N)) in H. simpl in H. rewrite length_app in H. lia.
    + rewrite IH. simpl. f_equal. f_equal. lia.
Qed.

(** [replace(/suffix$/, '')] removes the suffix. *)
Lemma replace_suffixPattern (suf m : jsstring) :
  replace (suffixPattern suf) [] (m ++ suf) = m.
Proof.
  unfold replace, exec, suffixPattern; simpl.
  rewrite search_literal_end. simpl.
  rewrite firstn_app, firstn_all, Nat.sub_diag. simpl.
  rewrite skipn_all2 by (rewrite length_app; lia).
  rewrite !app_nil_r. reflexivity.
Qed.

(** ** [getDocumentKeyValue] *)

Section DocumentKey.
Context {D : Deps}.
Variable s : Schema.

(** Without a dynamic key, expansion returns a matching identifier as it
    is and wraps any other. *)
Lemma getDocumentKeyValue_full (id : jsstring) :
  isFunction (dynamicKey (key s)) = false ->
  getDocumentKeyValue (VStr id) true s
  = VStr (if test (keyPattern (stringOrEmpty (prefix (key s)))
                              (stringOrEmpty (suffix (key s)))) id
          then id
          else stringOrEmpty (prefix (key s)) ++ id ++ stringOrEmpty (suffix (key s))).
Proof.
  intros H. unfold getDocumentKeyValue. rewrite H.
  destruct (test _ id); reflexivity.
Qed.

Lemma test_expanded (id : jsstring) :
  noLineTerminator id = true ->
  test (keyPattern (stringOrEmpty (prefix (key s))) (stringOrEmpty (suffix (key s))))
       (stringOrEmpty (prefix (key s)) ++ id ++ stringOrEmpty (suffix (key s)))
  = true.
Proof. intros H. apply test_keyPattern. exists id. auto. Qed.

(** Stripping a matching identifier leaves what stands between prefix and
    suffix. *)
Lemma getDocumentKeyValue_strip (m : jsstring) :
  noLineTerminator m = true ->
  getDocumentKeyValue
    (VStr (stringOrEmpty (prefix (key s)) ++ m ++ stringOrEmpty (suffix (key s)))) false s
  = VStr m.
Proof.
  intros H. unfold getDocumentKeyValue.
  rewrite (test_expanded m H), replace_prefixPattern, replace_suffixPattern.
  reflexivity.
Qed.

Lemma getDocumentKeyValue_strip_other (id : jsstring) :
  test (keyPattern (stringOrEmpty (prefix (key s))) (stringOrEmpty (suffix (key s)))) id
  = false ->
  getDocumentKeyValue (VStr id) false s = VStr id.
Proof.
  intros H. unfold getDocumentKeyValue. rewrite H. reflexivity.
Qed.

End DocumentKey.

(** C2 (amended): on a schema with no dynamic key function, and for an
    identifier free of line terminators, expanding an expanded key with
    [full = true] returns it unchanged. *)
Theorem getDocumentKeyValue_idempotent (D : Deps) (s : Schema) (id : jsstring) :
  isFunction (dynamicKey (key s)) = false ->
  noLineTerminator id = true ->
  getDocumentKeyValue (getDocumentKeyValue (VStr id) true s) true s
  = getDocumentKeyValue (VStr id) true s.
Proof.
  intros Hd Hid. rewrite (getDocumentKeyValue_full s id Hd).
  destruct (test _ id) eqn:T; rewrite (getDocumentKeyValue_full s _ Hd).
  - rewrite T. reflexivity.
  - rewrite (test_expanded s id Hid). reflexivity.
Qed.

Lemma getDocumentKeyValue_idempotent_witness :
  @getDocumentKeyValue Reference.deps
    (@getDocumentKeyValue Reference.deps (VStr (js "114477a8")) true Examples.users) true Examples.users
  = @getDocumentKeyValue Reference.deps (VStr (js "114477a8")) true Examples.users.
Proof.
  apply (getDocumentKeyValue_idempotent Reference.deps Examples.users (js "114477a8"));
    reflexivity.
Defined.

(** C2, as stated, fails under a dynamic key: [dynamicKey] is applied to
    the key at every expansion, so ['a'] becomes ['dyn::a'] and then
    ['dyn::dyn::a']. *)
Lemma getDocumentKeyValue_dynamic_not_idempotent :
  @getDocumentKeyValue Reference.deps
    (@getDocumentKeyValue Reference.deps (VStr (js "a")) true Examples.dynamic) true Examples.dynamic
  = VStr (js "dyn::dyn::a")
  /\ @getDocumentKeyValue Reference.deps (VStr (js "a")) true Examples.dynamic
     = VStr (js "dyn::a")
  /\ @getDocumentKeyValue Reference.deps
       (@getDocumentKeyValue Reference.deps (VStr (js "a")) true Examples.dynamic)
       true Examples.dynamic
     <> @getDocumentKeyValue Reference.deps (VStr (js "a")) true Examples.dynamic.
Proof. split; [|split]; vm_compute; [reflexivity|reflexivity|discriminate]. Qed.

(** An identifier with a line feed is wrapped again: [.] does not cross
    the line feed, so ['user::a\nb'] is not recognised as expanded. *)
Example getDocumentKeyValue_line_feed :
  @getDocumentKeyValue Reference.deps
    (@getDocumentKeyValue Reference.deps (VStr (js "a" ++ [10%N] ++ js "b")) true Examples.users)
    true Examples.users
  = VStr (js "user::user::a" ++ [10%N] ++ js "b").
Proof. vm_compute. reflexivity. Qed.

(** C8 (amended): on a schema with no dynamic key function, and for an
    identifier free of line terminators, stripping the expanded key gives
    what stripping the identifier gives; with [full = false] an identifier
    made of the prefix, a run free of line terminators and the suffix is
    reduced to that run; a value that is not a string is returned as it
    is. *)
Theorem getDocumentKeyValue_round_trip (D : Deps) (s : Schema) :
  (forall id : jsstring,
      isFunction (dynamicKey (key s)) = false ->
      noLineTerminator id = true ->
      getDocumentKeyValue (getDocumentKeyValue (VStr id) true s) false s
      = getDocumentKeyValue (VStr id) false s)
  /\ (forall m : jsstring,
         noLineTerminator m = true ->
         getDocumentKeyValue
           (VStr (stringOrEmpty (prefix (key s)) ++ m ++ stringOrEmpty (suffix (key s))))
           false s
         = VStr m)
  /\ (forall (v : value) (full : bool),
         isString v = false -> getDocumentKeyValue v full s = v).
Proof.
  split; [|split].
  - intros id Hd Hid. rewrite (getDocumentKeyValue_full s id Hd).
    destruct (test _ id) eqn:T; [reflexivity|].
    rewrite (getDocumentKeyValue_strip s id Hid).
    rewrite (getDocumentKeyValue_strip_other s id T). reflexivity.
  - intros m Hm. apply getDocumentKeyValue_strip. exact Hm.
  - intros v full Hv. destruct v; try reflexivity. discriminate.
Qed.

Lemma getDocumentKeyValue_round_trip_witness :
  @getDocumentKeyValue Reference.deps
    (@getDocumentKeyValue Reference.deps (VStr (js "114477a8")) true Examples.users) false Examples.users
  = @getDocumentKeyValue Reference.deps (VStr (js "114477a8")) false Examples.users
  /\ @getDocumentKeyValue Reference.deps (VStr (js "user::114477a8")) false Examples.users
     = VStr (js "114477a8")
  /\ @getDocumentKeyValue Reference.deps VNull false Examples.users = VNull.
Proof.
  pose proof (getDocumentKeyValue_round_trip Reference.deps Examples.users) as [H1 [H2 H3]].
  split; [|split].
  - apply (H1 (js "114477a8")); reflexivity.
  - apply (H2 (js "114477a8")); reflexivity.
  - apply (H3 VNull false); reflexivity.
Defined.

(** C8, as stated, fails under a dynamic key: the expanded key of ['a'] is
    ['dyn::a'], which no prefix or suffix pattern reduces to ['a']. *)
Lemma getDocumentKeyValue_dynamic_no_round_trip :
  @getDocumentKeyValue Reference.deps
    (@getDocumentKeyValue Reference.deps (VStr (js "a")) true Examples.dynamic) false Examples.dynamic
  = VStr (js "dyn::a")
  /\ @getDocumentKeyValue Reference.deps (VStr (js "a")) false Examples.dynamic
     = VStr (js "a")
  /\ @getDocumentKeyValue Reference.deps
       (@getDocumentKeyValue Reference.deps (VStr (js "a")) true Examples.dynamic)
       false Examples.dynamic
     <> @getDocumentKeyValue Reference.deps (VStr (js "a")) false Examples.dynamic.
Proof. split; [|split]; vm_compute; [reflexivity|reflexivity|discriminate]. Qed.

(** ** [index] *)

Lemma inferIndexPart_state (D : Deps) (p : jsstring) (s : Schema) :
  forall (c : jsstring) (s' : Schema), inferIndexPart p s = Returns c s' -> s' = s.
Proof.
  intros c s'. unfold inferIndexPart, ret, throw.
  destruct (trailingDigitReg_test p); [destruct (beforeLast p)|];
    intros H; try discriminate H; injection H as _ <-; reflexivity.
Qed.

Lemma mapM_inferIndexPart_state (D : Deps) (ps : list jsstring) (s : Schema) :
  forall (parts : list jsstring) (s' : Schema),
    mapM inferIndexPart ps s = Returns parts s' -> s' = s.
Proof.
  induction ps as [|p ps IH]; simpl; intros parts s'.
  - unfold ret. congruence.
  - unfold bind.
    destruct (inferIndexPart p s) as [c s0|e s0] eqn:E0; [|intros H; discriminate H].
    apply inferIndexPart_state in E0. subst s0.
    destruct (mapM inferIndexPart ps s) as [l s1|e s1] eqn:E; [|intros H; discriminate H].
    unfold ret. intros H. injection H as _ <-. exact (IH l s1 eq_refl).
Qed.

(** What a compound call of [index] that stores under [n] leaves. *)
Lemma index_compound_stored (D : Deps) (ps : list jsstring) (opts : IndexOptions.t)
      (n : jsstring) (s : Schema) :
  let s' := withIndexes (oset n (compoundEntry ps n opts) (indexes s)) s in
  s' = withIndexes (oset n (compoundEntry ps n opts) (indexes s)) s
  /\ olookup n (indexes s') = Some (compoundEntry ps n opts)
  /\ (forall k, k <> n -> olookup k (indexes s') = olookup k (indexes s)).
Proof.
  cbv zeta. split; [reflexivity|]. split.
  - simpl. apply olookup_oset_same.
  - intros k N. simpl. apply olookup_oset_other. exact N.
Qed.

(** C7: [index(['email','userName'], {indexName: 'EmailAndUserName'})]
    returns, and afterwards the indexes hold under ['EmailAndUserName'] an
    entry with [compound: true] and the path [['email','userName']], and
    under every other name what they held before: one entry is registered.
    Every compound call that returns has stored, under the name given or
    else made from the path, one entry whose path is the given sequence, in
    its order, and a call with an explicit name always returns.  (The name
    [__proto__] is left out: under it line 258 stores no entry.) *)
Theorem index_compound_path (D : Deps) (s : Schema) :
  (exists s',
      index (Compound [js "email"; js "userName"]) Examples.emailAndUserName s
      = Returns tt s'
      /\ olookup (js "EmailAndUserName") (indexes s')
         = Some {| path := Compound [js "email"; js "userName"];
                   name := js "EmailAndUserName";
                   indexType := js "single";
                   compound := true;
                   refKeyCase := None |}
      /\ (forall k, k <> js "EmailAndUserName" ->
                    olookup k (indexes s') = olookup k (indexes s))
      /\ withIndexes (indexes s) s' = s)
  /\ (forall (ps : list jsstring) (opts : IndexOptions.t) (s' : Schema),
         index (Compound ps) opts s = Returns tt s' ->
         exists n,
           indexNameIs (Compound ps) opts s n
           /\ (n <> protoName ->
               s' = withIndexes (oset n (compoundEntry ps n opts) (indexes s)) s
               /\ olookup n (indexes s') = Some (compoundEntry ps n opts)
               /\ (forall k, k <> n -> olookup k (indexes s') = olookup k (indexes s))))
  /\ (forall (ps : list jsstring) (opts : IndexOptions.t) (n : jsstring),
         given (IndexOptions.indexName opts) = Some n ->
         exists s',
           index (Compound ps) opts s = Returns tt s'
           /\ (n <> protoName ->
               s' = withIndexes (oset n (compoundEntry ps n opts) (indexes s)) s
               /\ olookup n (indexes s') = Some (compoundEntry ps n opts)
               /\ (forall k, k <> n -> olookup k (indexes s') = olookup k (indexes s))))
  /\ (forall (ps : list jsstring) (opts : IndexOptions.t) (n : jsstring),
         path (compoundEntry ps n opts) = Compound ps
         /\ name (compoundEntry ps n opts) = n
         /\ compound (compoundEntry ps n opts) = true).
Proof.
  split; [|split; [|split]].
  - exists (withIndexes
              (oset (js "EmailAndUserName")
                    (compoundEntry [js "email"; js "userName"] (js "EmailAndUserName")
                                   Examples.emailAndUserName)
                    (indexes s)) s).
    split; [reflexivity|]. split; [|split].
    + simpl. apply olookup_oset_same.
    + intros k N. simpl. apply olookup_oset_other. exact N.
    + destruct s; reflexivity.
  - intros ps opts s'. unfold index, indexNameIs, bind, ret, update.
    destruct (given (IndexOptions.indexName opts)) as [n|] eqn:G.
    + intros H. injection H as <-. exists n. split; [reflexivity|].
      intros _. exact (index_compound_stored D ps opts _ s).
    + destruct (mapM inferIndexPart ps s) as [parts s1|e s1] eqn:E;
        [|intros H; discriminate H].
      pose proof (mapM_inferIndexPart_state D ps s E) as ->.
      intros H. injection H as <-. exists (getIndexName parts).
      split; [exists parts; split; reflexivity|].
      intros _. exact (index_compound_stored D ps opts _ s).
  - intros ps opts n G. eexists. split.
    + unfold index, bind, ret, update. rewrite G. reflexivity.
    + intros _. exact (index_compound_stored D ps opts _ s).
  - intros ps opts n. split; [reflexivity|split; reflexivity].
Qed.

Lemma index_compound_path_witness :
  exists s',
    @index Reference.deps (Compound [js "email"; js "userName"])
           Examples.emailAndUserName Examples.empty
    = Returns tt s'
    /\ olookup (js "EmailAndUserName") (indexes s')
       = Some (compoundEntry [js "email"; js "userName"] (js "EmailAndUserName")
                             Examples.emailAndUserName).
Proof.
  destruct (proj1 (proj2 (proj2 (index_compound_path Reference.deps Examples.empty)))
              [js "email"; js "userName"] Examples.emailAndUserName
              (js "EmailAndUserName") eq_refl) as [s' [E R]].
  exists s'. split; [exact E|].
  apply R. intros N. discriminate N.
Defined.

(** A property name that is not made of digits only reaches
    [singularize] whole. *)
Lemma index_single_inferred (D : Deps) (s : Schema) (p : jsstring) :
  trailingDigitReg_test p = false ->
  index (Single p) IndexOptions.none s
  = Returns tt
      (withIndexes
         (oset (singularize p)
               {| path := Single p; name := singularize p; indexType := js "single";
                  compound := false; refKeyCase := None |}
               (indexes s)) s).
Proof.
  intros H. unfold index, inferIndexName, bind, ret, update. simpl. rewrite H.
  reflexivity.
Qed.

(** C6 (the code at the failing input): [index('users2')] hands
    ['users2'], digit included, to [singularize] and registers the index
    under what comes back; [trailingDigitReg] accepts names made of digits
    only, and for those one code unit is kept, as for ['1234']. *)
Theorem index_keeps_trailing_digits (D : Deps) (s : Schema) :
  index (Single (js "users2")) IndexOptions.none s
  = Returns tt
      (withIndexes
         (oset (singularize (js "users2"))
               {| path := Single (js "users2"); name := singularize (js "users2");
                  indexType := js "single"; compound := false; refKeyCase := None |}
               (indexes s)) s)
  /\ index (Single (js "1234")) IndexOptions.none s
     = Returns tt
         (withIndexes
            (oset (singularize (js "3"))
                  {| path := Single (js "1234"); name := singularize (js "3");
                     indexType := js "single"; compound := false; refKeyCase := None |}
                  (indexes s)) s).
Proof. split; reflexivity. Qed.

(** With the reference [singularize], ['users'] is registered as ['user']
    and ['users2'] as ['users2']. *)
Example index_users :
  okeys (indexes (Examples.after (@index Reference.deps (Single (js "users")) IndexOptions.none)
                                 Examples.empty)) = [js "user"]
  /\ okeys (indexes (Examples.after (@index Reference.deps (Single (js "users2")) IndexOptions.none)
                                    Examples.empty)) = [js "users2"].
Proof. split; vm_compute; reflexivity. Qed.

(** ** [extend] with anything but a schema *)

(** C10: [extend(x)] for an [x] that is no [Schema] instance returns the
    receiver and leaves every field of it as it was. *)
Theorem extend_not_a_schema (D : Deps) (s : Schema) (x : value) :
  extend (NotASchema x) s = Returns s s.
Proof. reflexivity. Qed.

(** ** [method], [static], [virtual] *)

Section Loops.
Context {B : Type}.
Variable body : B -> M unit.

(** A loop whose body throws at one of the elements, whatever the state,
    throws: there or before. *)
Lemma forEach_throws (E : exn) (l : list B) (x : B) :
  In x l ->
  (forall s, exists s', body x s = Throws E s') ->
  (forall y s e s', body y s = Throws e s' -> e = E) ->
  forall s, exists s', forEach l body s = Throws E s'.
Proof.
  intros Hin Hx Hall. induction l as [|y l IH]; [destruct Hin|].
  intros s. simpl. unfold bind.
  destruct (body y s) as [[] s1|e s1] eqn:Ey.
  - destruct Hin as [->|Hin].
    + destruct (Hx s) as [s' Hs']. congruence.
    + apply IH. exact Hin.
  - apply Hall in Ey. subst e. exists s1. reflexivity.
Qed.

End Loops.

Lemma methodNamed_not_function (D : Deps) (k : jsstring) (f : value) (s : Schema) :
  isFunction f = false ->
  methodNamed (VStr k) f s
  = Throws (TypeError "Schema#method expects a function as a handle") s.
Proof. intros H. unfold methodNamed. simpl. rewrite H. reflexivity. Qed.

Lemma methodNamed_string_throws (D : Deps) (k : jsstring) (f : value) (s s' : Schema) (e : exn) :
  methodNamed (VStr k) f s = Throws e s' ->
  e = TypeError "Schema#method expects a function as a handle".
Proof.
  unfold methodNamed, throw, update. simpl.
  destruct (isFunction f); simpl; congruence.
Qed.

(** C9 (amended): [method] with a name that is neither a string nor a
    plain object, or with a string name and a handler that is no function,
    throws a [TypeError] and leaves the schema as it was, and so does
    [static] with a name that is neither a string nor a plain object;
    [virtual] throws a [TypeError] and leaves the schema as it was when the
    name is no string and, unless it is called as [virtual(name, options)]
    with a plain object in second place and nothing in third, when
    [options] is no plain object or has no [get] function.  [method] with a
    map of handlers throws when one of them is no function. *)
Theorem invalid_arguments_throw (D : Deps) (s : Schema) :
  (forall nm func : value,
      isString nm = false -> isPlainObject nm = false ->
      method nm func s
      = Throws (TypeError "Schema#method expects a string identifier as a function name") s)
  /\ (forall nm func : value,
         isString nm = true -> isFunction func = false ->
         method nm func s
         = Throws (TypeError "Schema#method expects a function as a handle") s)
  /\ (forall nm func : value,
         isString nm = false -> isPlainObject nm = false ->
         static nm func s
         = Throws (TypeError "Schema#statics expects a string identifier as a function name") s)
  /\ (forall nm type opts : value,
         isString nm = false ->
         virtual nm type opts s
         = Throws (TypeError "Schema#virtual expects a string identifier as a property name") s)
  /\ (forall nm type opts : value,
         isString nm = true ->
         isPlainObject type && negb (truthy opts) = false ->
         isPlainObject opts = false ->
         virtual nm type opts s
         = Throws (TypeError "Schema#virtual expects an object as a handle") s)
  /\ (forall nm type opts : value,
         isString nm = true ->
         isPlainObject type && negb (truthy opts) = false ->
         isPlainObject opts = true ->
         isFunction (field opts (js "get")) = false ->
         virtual nm type opts s
         = Throws (TypeError "Schema#virtual expects an object with a get function") s)
  /\ (forall (m : obj) (func : value) (k : jsstring),
         In k (okeys m) -> isFunction (getProp m k) = false ->
         exists s',
           method (VObj m) func s
           = Throws (TypeError "Schema#method expects a function as a handle") s').
Proof.
  repeat split.
  - intros nm func Hs Ho. destruct nm; try discriminate; reflexivity.
  - intros nm func Hs Hf. destruct nm; try discriminate.
    apply methodNamed_not_function. exact Hf.
  - intros nm func Hs Ho. destruct nm; try discriminate; reflexivity.
  - intros nm type opts Hs. unfold virtual. rewrite Hs. reflexivity.
  - intros nm type opts Hs H2 Ho. unfold virtual, bind, throw.
    rewrite Hs, H2, Ho. reflexivity.
  - intros nm type opts Hs H2 Ho Hg. unfold virtual, bind, throw.
    rewrite Hs, H2, Ho, Hg. reflexivity.
  - intros m func k Hin Hf. simpl.
    apply forEach_throws with (x := k); [exact Hin| |].
    + intros s0. exists s0.
      apply hasOwn_okeys in Hin. rewrite Hin.
      apply methodNamed_not_function. exact Hf.
    + intros y s0 e s' H. destruct (hasOwn m y).
      * apply methodNamed_string_throws in H. exact H.
      * discriminate H.
Qed.

Lemma invalid_arguments_throw_witness :
  @method Reference.deps VNull (VFun 7) Examples.empty
  = Throws (TypeError "Schema#method expects a string identifier as a function name")
           Examples.empty
  /\ @method Reference.deps (VStr (js "getFullName")) (VStr (js "text")) Examples.empty
     = Throws (TypeError "Schema#method expects a function as a handle") Examples.empty
  /\ @static Reference.deps (VBool true) (VFun 7) Examples.empty
     = Throws (TypeError "Schema#statics expects a string identifier as a function name")
              Examples.empty
  /\ @virtual Reference.deps VNull (VCtor CString) (VObj [(js "get", VFun 7)]) Examples.empty
     = Throws (TypeError "Schema#virtual expects a string identifier as a property name")
              Examples.empty
  /\ @virtual Reference.deps (VStr (js "fullName")) (VCtor CString) (VFun 7) Examples.empty
     = Throws (TypeError "Schema#virtual expects an object as a handle") Examples.empty
  /\ @virtual Reference.deps (VStr (js "fullName")) (VCtor CString) (VObj []) Examples.empty
     = Throws (TypeError "Schema#virtual expects an object with a get function")
              Examples.empty.
Proof.
  pose proof (invalid_arguments_throw Reference.deps Examples.empty)
    as [H1 [H2 [H3 [H4 [H5 [H6 _]]]]]].
  split; [apply H1; reflexivity|].
  split; [apply H2; reflexivity|].
  split; [apply H3; reflexivity|].
  split; [apply H4; reflexivity|].
  split; [apply H5; reflexivity|].
  apply H6; reflexivity.
Defined.

(** C9, as stated, fails for [static]: a handler that is no function is
    accepted, as in the documented [static('FOO', 'bar')]. *)
Lemma static_accepts_any_value :
  isFunction (VStr (js "bar")) = false
  /\ @static Reference.deps (VStr (js "FOO")) (VStr (js "bar")) Examples.empty
     = Returns tt (withStatics [(js "FOO", VStr (js "bar"))] Examples.empty).
Proof. split; reflexivity. Qed.

(** [virtual(name, options)] does not look for the getter: an [options]
    object without [get] is registered, read-only. *)
Example virtual_two_arguments_no_getter :
  @virtual Reference.deps (VStr (js "full")) (VObj []) VUndefined Examples.empty
  = Returns tt
      (withDescriptor
         (oset (js "full")
               (VObj [(js "type", VStr (js "any")); (js "virtual", VBool true);
                      (js "get", VUndefined); (js "invisible", VBool true);
                      (js "readOnly", VBool true)])
               (descriptor Examples.empty))
         Examples.empty).
Proof. reflexivity. Qed.

(** ** [getRefKey] *)




(** ** [add] and [_applyDocumentKey] *)

Lemma getProp_oset_same (k : jsstring) (v : value) (o : obj) : getProp (oset k v o) k = v.
Proof. unfold getProp. rewrite olookup_oset_same. reflexivity. Qed.

Lemma getProp_oset_other (k p : jsstring) (v : value) (o : obj) :
  p <> k -> getProp (oset k v o) p = getProp o p.
Proof. intros H. unfold getProp. rewrite olookup_oset_other by exact H. reflexivity. Qed.

Lemma getProp_own (o : obj) (p : jsstring) (v : value) :
  olookup p o = Some v -> getProp o p = v.
Proof. intros H. unfold getProp. rewrite H. reflexivity. Qed.

(** A loop of assignments returns, in the state they add up to. *)
Lemma forEach_update (B : Type) (g : B -> Schema -> Schema) (l : list B) (s : Schema) :
  forEach l (fun x => update (g x)) s = Returns tt (fold_left (fun s x => g x s) l s).
Proof.
  revert s. induction l as [|x l IH]; intros s; simpl; [reflexivity|].
  unfold bind, update at 1. apply IH.
Qed.

Lemma fold_left_preserves (B C : Type) (proj : Schema -> C) (g : B -> Schema -> Schema)
      (l : list B) (s : Schema) :
  (forall x s, proj (g x s) = proj s) ->
  proj (fold_left (fun s x => g x s) l s) = proj s.
Proof.
  intros H. revert s. induction l as [|x l IH]; intros s; simpl; [reflexivity|].
  rewrite IH. apply H.
Qed.

Section KeyFacts.
Context {D : Deps}.

Lemma recorded_key (descr k : value) (s : Schema) : key (recorded descr k s) = key s.
Proof.
  unfold recorded.
  rewrite (fold_left_preserves key) by reflexivity.
  rewrite (fold_left_preserves key) by reflexivity. reflexivity.
Qed.

Lemma recorded_descriptor (descr k : value) (s : Schema) :
  descriptor (recorded descr k s) = descriptor s.
Proof.
  unfold recorded.
  rewrite (fold_left_preserves descriptor) by reflexivity.
  rewrite (fold_left_preserves descriptor) by reflexivity. reflexivity.
Qed.

Lemma _getRefs_getIndexes (descr k : value) (s : Schema) :
  (_getRefs descr ;; _getIndexes descr k)%schema s = Returns tt (recorded descr k s).
Proof.
  unfold bind, _getRefs, _getIndexes. rewrite forEach_update, forEach_update.
  reflexivity.
Qed.

Lemma olookup_storedMap (m o : obj) (p : jsstring) :
  olookup p (storedMap m o)
  = if hasOwn m p then Some (normalizeProperties (getProp m p) (VStr p)) else olookup p o.
Proof.
  unfold storedMap.
  assert (H : forall ks o,
             olookup p (fold_left
                          (fun o k => oset k (normalizeProperties (getProp m k) (VStr k)) o)
                          ks o)
             = if existsb (jsstring_eqb p) ks
               then Some (normalizeProperties (getProp m p) (VStr p))
               else olookup p o).
  { induction ks as [|k ks IH]; intros o0; simpl; [reflexivity|].
    rewrite IH, olookup_oset.
    destruct (jsstring_eqb p k) eqn:E; simpl.
    - apply jsstring_eqb_eq in E. subst k. destruct (existsb _ ks); reflexivity.
    - reflexivity. }
  rewrite H.
  assert (E : existsb (jsstring_eqb p) (okeys m) = hasOwn m p).
  { destruct (hasOwn m p) eqn:O.
    - apply existsb_exists. exists p. split; [|apply jsstring_eqb_refl].
      apply hasOwn_okeys. exact O.
    - destruct (existsb _ (okeys m)) eqn:X; [|reflexivity].
      apply existsb_exists in X. destruct X as [k [Hk Ek]].
      apply jsstring_eqb_eq in Ek. subst k.
      apply hasOwn_okeys in Hk. congruence. }
  rewrite E. reflexivity.
Qed.

(** [add(map)]: the references and indexes are recorded, the properties
    stored, and the document key applied. *)
Lemma add_KeyMap (m : obj) (descr : value) (s : Schema) :
  truthy descr = false ->
  add (KeyMap m) descr s
  = _applyDocumentKey
      (withDescriptor (storedMap m (descriptor s)) (recorded (VObj m) VUndefined s)).
Proof.
  intros Hd. unfold add. simpl. rewrite Hd. unfold bind at 1.
  assert (H : (_getRefs (VObj m) ;;
               _getIndexes (VObj m) VUndefined ;;
               forEach (okeys m) (fun index =>
                 update (fun s =>
                   withDescriptor
                     (oset index (normalizeProperties (getProp m index) (VStr index))
                           (descriptor s)) s)))%schema s
              = Returns tt (withDescriptor (storedMap m (descriptor s))
                                           (recorded (VObj m) VUndefined s))).
  { pose proof (_getRefs_getIndexes (VObj m) VUndefined s) as R.
    unfold bind in *.
    destruct (_getRefs (VObj m) s) as [[] s1|e s1]; [|discriminate R].
    destruct (_getIndexes (VObj m) VUndefined s1) as [[] s2|e s2]; [|discriminate R].
    injection R as ->. rewrite forEach_update. f_equal.
    rewrite <- (recorded_descriptor (VObj m) VUndefined s).
    generalize (recorded (VObj m) VUndefined s). intros s0.
    unfold storedMap. generalize (okeys m). intros ks. revert s0.
    induction ks as [|k ks IH]; intros s0; simpl.
    - destruct s0; reflexivity.
    - rewrite IH. reflexivity. }
  rewrite H. reflexivity.
Qed.

(** [add(key, descriptor)] with a key and a descriptor that are set. *)
Lemma add_both (k : addKey) (descr : value) (s : Schema) :
  truthy (addKeyValue k) && truthy descr = true ->
  add k descr s
  = _applyDocumentKey
      (withDescriptor
         (oset (ToString (addKeyValue k)) (normalizeProperties descr (addKeyValue k))
               (descriptor s))
         (recorded descr (addKeyValue k) s)).
Proof.
  intros Hd. unfold add. rewrite Hd. unfold bind at 1.
  pose proof (_getRefs_getIndexes descr (addKeyValue k) s) as R.
  unfold bind in *.
  destruct (_getRefs descr s) as [[] s1|e s1]; [|discriminate R].
  destruct (_getIndexes descr (addKeyValue k) s1) as [[] s2|e s2]; [|discriminate R].
  injection R as ->. unfold update.
  rewrite recorded_descriptor. reflexivity.
Qed.

Lemma hasOwn_storedMap (m o : obj) (p : jsstring) :
  hasOwn (storedMap m o) p = hasOwn m p || hasOwn o p.
Proof.
  unfold hasOwn at 1. rewrite olookup_storedMap.
  destruct (hasOwn m p); reflexivity.
Qed.

(** Every form of [add] stores what it is given, on top of what the
    descriptor holds, and then applies the document key. *)
Lemma add_shape (k : addKey) (descr : value) (s : Schema) :
  exists mid,
    add k descr s = _applyDocumentKey mid
    /\ key mid = key s
    /\ (forall x, hasOwn (descriptor s) x = true -> hasOwn (descriptor mid) x = true).
Proof.
  destruct (truthy (addKeyValue k) && truthy descr) eqn:B.
  - eexists. split; [apply add_both; exact B|]. simpl.
    split; [apply recorded_key|].
    intros x Hx. rewrite hasOwn_oset, Hx. apply orb_true_r.
  - destruct k as [n|m].
    + exists s. split; [|auto]. unfold add. rewrite B. reflexivity.
    + simpl in B. eexists. split; [apply add_KeyMap; exact B|]. simpl.
      split; [apply recorded_key|].
      intros x Hx. rewrite hasOwn_storedMap, Hx. apply orb_true_r.
Qed.

(** The body of the loop of [_applyDocumentKey], case by case. *)
Lemma applyDocumentKeyTo_cases (b : bool) (p : jsstring) (s : Schema) :
  applyDocumentKeyTo b p s
  = if hasOwn (descriptor s) (js "hasOwnProperty") then
      Throws (TypeError "descriptor.hasOwnProperty is not a function") s
    else if hasOwn (descriptor s) p && isKeyProperty (getProp (descriptor s) p) then
      if markedIndex (getProp (descriptor s) p) then
        Throws (TypeError "Schema key cannot be index field") s
      else if declaresRef (getProp (descriptor s) p) then
        Throws (TypeError "Schema key cannot be reference property") s
      else if typeNotKeyLike (getProp (descriptor s) p) then
        Throws (TypeError "Schema expects key to be a String or a Number") s
      else Returns true (keyApplied p s)
    else Returns b s.
Proof.
  unfold applyDocumentKeyTo, descriptorOwns, bind, this, throw, ret, update.
  unfold markedIndex, declaresRef, typeNotKeyLike.
  destruct (hasOwn (descriptor s) (js "hasOwnProperty")); [reflexivity|].
  destruct (hasOwn (descriptor s) p && isKeyProperty (getProp (descriptor s) p));
    [|reflexivity].
  destruct (isTrue _); [reflexivity|].
  destruct (truthy (field _ (js "ref"))); [reflexivity|].
  destruct (truthy (field _ (js "type")) && _); reflexivity.
Qed.

Lemma applyDocumentKeyTo_conflict (b : bool) (p : jsstring) (s : Schema) :
  hasOwn (descriptor s) p = true ->
  isKeyProperty (getProp (descriptor s) p) = true ->
  keyConflict (getProp (descriptor s) p) = true ->
  exists msg, applyDocumentKeyTo b p s = Throws (TypeError msg) s.
Proof.
  intros Ho Hk Hc. rewrite applyDocumentKeyTo_cases, Ho, Hk. unfold keyConflict in Hc.
  destruct (hasOwn (descriptor s) (js "hasOwnProperty")); [eexists; reflexivity|].
  simpl.
  destruct (markedIndex _); [eexists; reflexivity|].
  destruct (declaresRef _); [eexists; reflexivity|].
  destruct (typeNotKeyLike _); [eexists; reflexivity|discriminate Hc].
Qed.

Lemma applyDocumentKeyTo_outcome (b : bool) (p : jsstring) (s : Schema) :
  applyDocumentKeyTo b p s = Returns b s
  \/ (applyDocumentKeyTo b p s = Returns true (keyApplied p s)
      /\ keyConflict (getProp (descriptor s) p) = false)
  \/ exists msg, applyDocumentKeyTo b p s = Throws (TypeError msg) s.
Proof.
  rewrite applyDocumentKeyTo_cases. unfold keyConflict.
  destruct (hasOwn (descriptor s) (js "hasOwnProperty"));
    [right; right; eexists; reflexivity|].
  destruct (hasOwn (descriptor s) p && isKeyProperty _); [|auto].
  destruct (markedIndex _); [right; right; eexists; reflexivity|].
  destruct (declaresRef _); [right; right; eexists; reflexivity|].
  destruct (typeNotKeyLike _); [right; right; eexists; reflexivity|].
  right. left. auto.
Qed.

Lemma keyApplied_descriptor (p : jsstring) (s : Schema) :
  descriptor (keyApplied p s)
  = oset p (normalizeProperties (getProp (descriptor s) p) (VStr p)) (descriptor s).
Proof. reflexivity. Qed.

Lemma keyApplied_docKeyKey (p : jsstring) (s : Schema) :
  docKeyKey (key (keyApplied p s)) = p.
Proof. reflexivity. Qed.

(** The loop throws when a key property in conflict is among the names
    it visits. *)
Lemma applyLoop_conflict (ks : list jsstring) :
  forall (b : bool) (s : Schema) (p : jsstring),
    In p ks ->
    hasOwn (descriptor s) p = true ->
    isKeyProperty (getProp (descriptor s) p) = true ->
    keyConflict (getProp (descriptor s) p) = true ->
    exists msg s', foldM applyDocumentKeyTo b ks s = Throws (TypeError msg) s'.
Proof.
  induction ks as [|k ks IH]; intros b s p Hin Ho Hk Hc; [destruct Hin|].
  simpl. unfold bind.
  destruct (list_eq_dec N.eq_dec p k) as [->|Hne].
  - destruct (applyDocumentKeyTo_conflict b k s Ho Hk Hc) as [msg ->].
    exists msg, s. reflexivity.
  - destruct Hin as [->|Hin]; [congruence|].
    destruct (applyDocumentKeyTo_outcome b k s) as [->|[[-> _]|[msg ->]]].
    + apply (IH b s p Hin Ho Hk Hc).
    + apply (IH true (keyApplied k s) p Hin);
        rewrite keyApplied_descriptor;
        rewrite ?hasOwn_oset, ?getProp_oset_other by exact Hne;
        try assumption.
      rewrite Ho. apply orb_true_r.
    + exists msg, s. reflexivity.
Qed.

(** What the loop leaves when it returns. *)
Lemma applyLoop_returns (ks : list jsstring) :
  forall (b : bool) (s : Schema) (b' : bool) (s' : Schema),
    foldM applyDocumentKeyTo b ks s = Returns b' s' ->
    (forall k, hasOwn (descriptor s) k = true -> hasOwn (descriptor s') k = true)
    /\ (b' = false -> b = false /\ s' = s)
    /\ (b' = true ->
        (b = true /\ key s' = key s)
        \/ (In (docKeyKey (key s')) ks
            /\ hasOwn (descriptor s') (docKeyKey (key s')) = true)).
Proof.
  induction ks as [|k ks IH]; intros b s b' s'; simpl.
  - unfold ret. intros H. injection H as <- <-.
    split; [auto|split]; [auto|]. intros ->. auto.
  - unfold bind.
    destruct (applyDocumentKeyTo_outcome b k s) as [->|[[-> _]|[msg ->]]].
    + intros H. destruct (IH b s b' s' H) as [H1 [H2 H3]].
      split; [exact H1|split; [exact H2|]].
      intros Hb. destruct (H3 Hb) as [H4|[H4 H5]]; [left; exact H4|right; auto].
    + intros H. destruct (IH true (keyApplied k s) b' s' H) as [H1 [H2 H3]].
      assert (Hgrow : forall x, hasOwn (descriptor s) x = true
                                -> hasOwn (descriptor s') x = true).
      { intros x Hx. apply H1. rewrite keyApplied_descriptor, hasOwn_oset, Hx.
        apply orb_true_r. }
      split; [exact Hgrow|split].
      * intros Hb. destruct (H2 Hb) as [Hf _]. discriminate Hf.
      * intros Hb. right. destruct (H3 Hb) as [[_ H4]|[H4 H5]].
        -- rewrite H4, keyApplied_docKeyKey. split; [left; reflexivity|].
           apply H1. rewrite keyApplied_descriptor, hasOwn_oset, jsstring_eqb_refl.
           reflexivity.
        -- split; [right; exact H4|exact H5].
    + intros H. discriminate H.
Qed.

(** The loop changes nothing when no property it visits is marked as the
    key. *)
Lemma applyLoop_none (ks : list jsstring) (b : bool) (s : Schema) :
  hasOwn (descriptor s) (js "hasOwnProperty") = false ->
  (forall p, In p ks -> isKeyProperty (getProp (descriptor s) p) = false) ->
  foldM applyDocumentKeyTo b ks s = Returns b s.
Proof.
  intros Hs. induction ks as [|k ks IH]; intros H; simpl; [reflexivity|].
  unfold bind. rewrite applyDocumentKeyTo_cases, Hs, (H k (or_introl eq_refl)).
  rewrite andb_false_r.
  apply IH. intros p Hp. apply H. right. exact Hp.
Qed.

Lemma _applyDocumentKey_conflict (s : Schema) (p : jsstring) :
  hasOwn (descriptor s) p = true ->
  isKeyProperty (getProp (descriptor s) p) = true ->
  keyConflict (getProp (descriptor s) p) = true ->
  exists msg s', _applyDocumentKey s = Throws (TypeError msg) s'.
Proof.
  intros Ho Hk Hc. pose proof Ho as Hi. apply hasOwn_okeys in Hi.
  destruct (applyLoop_conflict (okeys (descriptor s)) false s p Hi Ho Hk Hc)
    as [msg [s' H]].
  exists msg, s'. unfold _applyDocumentKey, bind, this. rewrite H. reflexivity.
Qed.

Lemma _applyDocumentKey_returns (s s' : Schema) :
  _applyDocumentKey s = Returns tt s' ->
  (forall k, hasOwn (descriptor s) k = true -> hasOwn (descriptor s') k = true)
  /\ (olookup [] (descriptor s) = None -> docKeyKey (key s') <> [])
  /\ (docKeyKey (key s) = [] \/ hasOwn (descriptor s) (docKeyKey (key s)) = true ->
      hasOwn (descriptor s') (docKeyKey (key s')) = true).
Proof.
  unfold _applyDocumentKey, bind, this.
  destruct (foldM applyDocumentKeyTo false (okeys (descriptor s)) s) as [b' s1|e s1] eqn:L;
    [|intros H; discriminate H].
  destruct (applyLoop_returns _ _ _ L) as [H1 [H2 H3]].
  destruct b'; simpl.
  - unfold ret. intros H. injection H as <-.
    destruct (H3 eq_refl) as [[Hf _]|[Hin Hown]]; [discriminate Hf|].
    split; [exact H1|split; [|auto]].
    intros Hnone E. rewrite E in Hin. apply hasOwn_okeys in Hin.
    unfold hasOwn in Hin. rewrite Hnone in Hin. discriminate Hin.
  - destruct (H2 eq_refl) as [_ ->].
    destruct (docKeyKey (key s)) as [|c r] eqn:K; simpl.
    + unfold update. intros H. injection H as <-. simpl.
      split; [|split].
      * intros k Hk. rewrite hasOwn_oset, Hk. apply orb_true_r.
      * intros _ E. discriminate E.
      * intros _. rewrite hasOwn_oset, jsstring_eqb_refl. reflexivity.
    + unfold ret. intros H. injection H as <-. rewrite K.
      split; [auto|split].
      * intros _ E. discriminate E.
      * intros [E|Hown]; [discriminate E|exact Hown].
Qed.

Lemma _applyDocumentKey_synthesizes (s : Schema) :
  hasOwn (descriptor s) (js "hasOwnProperty") = false ->
  (forall p, hasOwn (descriptor s) p = true
             -> isKeyProperty (getProp (descriptor s) p) = false) ->
  docKeyKey (key s) = [] ->
  _applyDocumentKey s = Returns tt (synthesized s).
Proof.
  intros Hs Hnone Hk. unfold _applyDocumentKey, bind, this.
  rewrite applyLoop_none
    by (try exact Hs; intros p Hp; apply Hnone; apply hasOwn_okeys; exact Hp).
  rewrite Hk. reflexivity.
Qed.

End KeyFacts.

Lemma NoDup_okeys_storedMap (D : Deps) (m o : obj) :
  NoDup (okeys o) -> NoDup (okeys (storedMap m o)).
Proof.
  unfold storedMap. generalize (okeys m). intros ks. revert o.
  induction ks as [|k ks IH]; intros o N; simpl; [exact N|].
  apply IH. apply NoDup_okeys_oset. exact N.
Qed.

Lemma keyConflict_false (d : value) :
  keyConflict d = false ->
  markedIndex d = false /\ declaresRef d = false /\ typeNotKeyLike d = false.
Proof.
  unfold keyConflict. intros H.
  apply orb_false_elim in H. destruct H as [H T].
  apply orb_false_elim in H. destruct H as [I R]. auto.
Qed.

(** What the loop over distinct names leaves when it returns: the key is
    the last of the names that the descriptor marks as key, or nothing has
    changed and none is so marked. *)
Lemma applyLoop_declared (D : Deps) (ks : list jsstring) :
  forall (b : bool) (s : Schema) (b' : bool) (s' : Schema),
    NoDup ks ->
    foldM applyDocumentKeyTo b ks s = Returns b' s' ->
    (exists p,
        In p ks /\ hasOwn (descriptor s) p = true
        /\ isKeyProperty (getProp (descriptor s) p) = true
        /\ keyConflict (getProp (descriptor s) p) = false
        /\ docKeyKey (key s') = p /\ b' = true)
    \/ ((forall p, In p ks ->
                   hasOwn (descriptor s) p && isKeyProperty (getProp (descriptor s) p)
                   = false)
        /\ b' = b /\ s' = s).
Proof.
  induction ks as [|k ks IH]; intros b s b' s' N; simpl.
  - unfold ret. intros H. injection H as <- <-. right.
    split; [intros p []|auto].
  - inversion N as [|? ? Nk Nr]. subst.
    unfold bind. rewrite applyDocumentKeyTo_cases.
    destruct (hasOwn (descriptor s) (js "hasOwnProperty")); [intros H; discriminate H|].
    destruct (hasOwn (descriptor s) k && isKeyProperty (getProp (descriptor s) k)) eqn:K.
    + apply andb_true_iff in K. destruct K as [Ko Kk].
      destruct (markedIndex (getProp (descriptor s) k)) eqn:C1;
        [intros H; discriminate H|].
      destruct (declaresRef (getProp (descriptor s) k)) eqn:C2;
        [intros H; discriminate H|].
      destruct (typeNotKeyLike (getProp (descriptor s) k)) eqn:C3;
        [intros H; discriminate H|].
      assert (C : keyConflict (getProp (descriptor s) k) = false)
        by (unfold keyConflict; rewrite C1, C2, C3; reflexivity).
      intros H. left.
      destruct (IH true (keyApplied k s) b' s' Nr H)
        as [[p [I [O [Kp [Cp [Dp B]]]]]]|[_ [B ->]]].
      * assert (Np : p <> k) by (intros ->; elim (Nk I)).
        exists p. rewrite keyApplied_descriptor in O, Kp, Cp.
        rewrite hasOwn_oset in O. rewrite getProp_oset_other in Kp, Cp by exact Np.
        apply jsstring_eqb_neq in Np. rewrite Np in O. simpl in O.
        split; [right; exact I|]. auto.
      * exists k. split; [left; reflexivity|]. auto.
    + intros H.
      destruct (IH b s b' s' Nr H) as [[p [I R]]|[F R]].
      * left. exists p. split; [right; exact I|exact R].
      * right. split; [|exact R].
        intros p [<-|I]; [exact K|apply F; exact I].
Qed.

(** ** The constructor *)

Section Construction.
Context {D : Deps}.

Lemma construct_eq (descr opts : obj) :
  construct descr opts
  = match add (KeyMap descr) VUndefined (initialSchema opts) with
    | Returns _ s => Returns tt (finished s)
    | Throws e s => Throws e s
    end.
Proof.
  unfold construct, bind, this.
  destruct (add (KeyMap descr) VUndefined (initialSchema opts)) as [[] s|e s];
    [|reflexivity].
  unfold finished, update, ret.
  destruct (negb (truthy (prefix (key s))) && _);
    destruct (truthy (getProp (options s) (js "dynamicKey")));
    destruct (negb (truthy (suffix (key s))) && _); reflexivity.
Qed.

Lemma finished_descriptor (s : Schema) : descriptor (finished s) = descriptor s.
Proof.
  unfold finished.
  destruct (negb (truthy (prefix (key s))) && _);
    destruct (truthy (getProp (options s) (js "dynamicKey")));
    destruct (negb (truthy (suffix (key s))) && _); reflexivity.
Qed.

Lemma finished_docKeyKey (s : Schema) : docKeyKey (key (finished s)) = docKeyKey (key s).
Proof.
  unfold finished.
  destruct (negb (truthy (prefix (key s))) && _);
    destruct (truthy (getProp (options s) (js "dynamicKey")));
    destruct (negb (truthy (suffix (key s))) && _); reflexivity.
Qed.

Lemma finished_generate (s : Schema) : generate (key (finished s)) = generate (key s).
Proof.
  unfold finished.
  destruct (negb (truthy (prefix (key s))) && _);
    destruct (truthy (getProp (options s) (js "dynamicKey")));
    destruct (negb (truthy (suffix (key s))) && _); reflexivity.
Qed.

(** After [add] the key names a property, and a non-empty one unless a
    property is named by the empty string. *)
Lemma add_key_invariant (k : addKey) (descr : value) (s s' : Schema) :
  add k descr s = Returns tt s' ->
  (olookup [] (descriptor s') = None -> docKeyKey (key s') <> [])
  /\ (docKeyKey (key s) = [] \/ hasOwn (descriptor s) (docKeyKey (key s)) = true ->
      hasOwn (descriptor s') (docKeyKey (key s')) = true).
Proof.
  destruct (add_shape k descr s) as [mid [-> [Hkey Hgrow]]].
  intros H. destruct (_applyDocumentKey_returns _ H) as [H1 [H2 H3]].
  split.
  - intros Hnone. apply H2.
    destruct (olookup [] (descriptor mid)) eqn:L; [|reflexivity].
    assert (Hown : hasOwn (descriptor s') [] = true)
      by (apply H1; unfold hasOwn; rewrite L; reflexivity).
    unfold hasOwn in Hown. rewrite Hnone in Hown. discriminate Hown.
  - intros Hpre. apply H3. rewrite Hkey.
    destruct Hpre as [E|Hown]; [left; exact E|right; apply Hgrow; exact Hown].
Qed.

Lemma construct_key_invariant (descr opts : obj) (s : Schema) :
  construct descr opts = Returns tt s ->
  hasOwn (descriptor s) (docKeyKey (key s)) = true
  /\ (olookup [] (descriptor s) = None -> docKeyKey (key s) <> []).
Proof.
  rewrite construct_eq.
  destruct (add (KeyMap descr) VUndefined (initialSchema opts)) as [[] s1|e s1] eqn:A;
    [|intros H; discriminate H].
  intros H. injection H as <-.
  destruct (add_key_invariant _ _ _ A) as [H1 H2].
  rewrite finished_descriptor, finished_docKeyKey.
  split; [apply H2; left; reflexivity|exact H1].
Qed.

Lemma construct_synthesizes (descr opts : obj) :
  hasOwn descr (js "hasOwnProperty") = false ->
  (forall p, hasOwn descr p = true ->
             isKeyProperty (normalizeProperties (getProp descr p) (VStr p)) = false) ->
  exists s,
    construct descr opts = Returns tt s
    /\ docKeyKey (key s) = js "id"
    /\ olookup (js "id") (descriptor s)
       = Some (normalizeProperties (VCtor CString) (VStr (js "id")))
    /\ generate (key s) = true.
Proof.
  intros Hs Hnone. rewrite construct_eq, add_KeyMap by reflexivity.
  rewrite _applyDocumentKey_synthesizes.
  - eexists. split; [reflexivity|].
    rewrite finished_docKeyKey, finished_descriptor, finished_generate.
    split; [reflexivity|split].
    + simpl. apply olookup_oset_same.
    + simpl. rewrite recorded_key. reflexivity.
  - simpl. rewrite hasOwn_storedMap, Hs. reflexivity.
  - intros p Hp. simpl in Hp. rewrite hasOwn_storedMap in Hp. simpl.
    change (hasOwn (@nil (jsstring * value)) p) with false in Hp.
    rewrite orb_false_r in Hp.
    unfold getProp at 1. rewrite olookup_storedMap, Hp. apply Hnone. exact Hp.
  - simpl. rewrite recorded_key. reflexivity.
Qed.

(** The key of a new schema: the last property that the descriptor marks
    as key, or the synthesized [id] when it marks none. *)
Lemma construct_declared (descr opts : obj) (s : Schema) :
  construct descr opts = Returns tt s ->
  (exists p,
      declaresKey descr p = true
      /\ keyConflict (normalizeProperties (getProp descr p) (VStr p)) = false
      /\ docKeyKey (key s) = p)
  \/ ((forall p, declaresKey descr p = false)
      /\ docKeyKey (key s) = js "id"
      /\ olookup (js "id") (descriptor s)
         = Some (normalizeProperties (VCtor CString) (VStr (js "id")))
      /\ generate (key s) = true).
Proof.
  rewrite construct_eq, add_KeyMap by reflexivity.
  set (mid := withDescriptor (storedMap descr (descriptor (initialSchema opts)))
                (recorded (VObj descr) VUndefined (initialSchema opts))).
  assert (Om : forall p, hasOwn (descriptor mid) p = hasOwn descr p).
  { intros p. simpl. rewrite hasOwn_storedMap.
    change (hasOwn (descriptor (initialSchema opts)) p) with false.
    apply orb_false_r. }
  assert (Gm : forall p, hasOwn descr p = true ->
                         getProp (descriptor mid) p
                         = normalizeProperties (getProp descr p) (VStr p)).
  { intros p Hp. simpl. unfold getProp at 1. rewrite olookup_storedMap, Hp. reflexivity. }
  assert (Km : key mid = initialKey) by (simpl; apply recorded_key).
  assert (Nm : NoDup (okeys (descriptor mid))).
  { simpl. apply NoDup_okeys_storedMap. apply NoDup_nil. }
  clearbody mid.
  unfold _applyDocumentKey, bind, this.
  destruct (foldM applyDocumentKeyTo false (okeys (descriptor mid)) mid)
    as [b' s1|e s1] eqn:L; [|intros H; discriminate H].
  destruct (applyLoop_declared _ _ _ Nm L) as [[p [I [O [K [C [Dp ->]]]]]]|[F [-> ->]]].
  - cbn [negb andb]. unfold ret. intros H. injection H as <-. left.
    rewrite Om in O. rewrite (Gm p O) in K, C.
    exists p. unfold declaresKey. rewrite O, K. rewrite finished_docKeyKey. auto.
  - rewrite Km. cbn [initialKey docKeyKey truthy negb andb]. unfold update.
    intros H. injection H as <-. right.
    rewrite finished_docKeyKey, finished_descriptor, finished_generate.
    split; [|split; [reflexivity|split]].
    + intros p. unfold declaresKey.
      destruct (hasOwn descr p) eqn:Hp; [|reflexivity].
      rewrite <- (Gm p Hp). simpl.
      assert (Ip : In p (okeys (descriptor mid)))
        by (apply hasOwn_okeys; rewrite Om; exact Hp).
      pose proof (F p Ip) as Fp. rewrite Om, Hp in Fp. exact Fp.
    + simpl. apply olookup_oset_same.
    + simpl. rewrite Km. reflexivity.
Qed.

Lemma construct_conflict (descr opts : obj) (p : jsstring) :
  hasOwn descr p = true ->
  isKeyProperty (normalizeProperties (getProp descr p) (VStr p)) = true ->
  keyConflict (normalizeProperties (getProp descr p) (VStr p)) = true ->
  exists msg s', construct descr opts = Throws (TypeError msg) s'.
Proof.
  intros Ho Hk Hc. rewrite construct_eq, add_KeyMap by reflexivity.
  destruct (_applyDocumentKey_conflict
              (withDescriptor (storedMap descr (descriptor (initialSchema opts)))
                              (recorded (VObj descr) VUndefined (initialSchema opts))) p)
    as [msg [s' ->]].
  - simpl. rewrite hasOwn_storedMap, Ho. reflexivity.
  - simpl. unfold getProp at 1. rewrite olookup_storedMap, Ho. exact Hk.
  - simpl. unfold getProp at 1. rewrite olookup_storedMap, Ho. exact Hc.
  - exists msg, s'. reflexivity.
Qed.

End Construction.

(** C3 (amended): after any call of [add] that returns, [key.docKeyKey]
    names a property of the descriptor (given that it did before, or was
    still unset) and is not empty unless the descriptor has a property
    named by the empty string; the same holds of a new schema.  The key of
    a new schema is a property that the descriptor handed to the
    constructor marks [key: true] once normalized, if there is one, and
    else the synthesized [id], holding the normalized [String], with
    [generate] still true.  The constructor does return when the
    descriptor marks no key and has no property called [hasOwnProperty],
    the call of which at line 113 would throw.  (Throughout, the call asks
    for no property called [__proto__], under which lines 486 and 492 store
    nothing.)  [new Schema({name: String})] has exactly the key [id], of
    string type, with generation enabled. *)
Theorem document_key_synthesis (D : Deps) :
  (forall (k : addKey) (descr : value) (s s' : Schema),
      namesProto k = false ->
      add k descr s = Returns tt s' ->
      (olookup [] (descriptor s') = None -> docKeyKey (key s') <> [])
      /\ (docKeyKey (key s) = [] \/ hasOwn (descriptor s) (docKeyKey (key s)) = true ->
          hasOwn (descriptor s') (docKeyKey (key s')) = true))
  /\ (forall (descr opts : obj) (s : Schema),
         hasOwn descr protoName = false ->
         construct descr opts = Returns tt s ->
         hasOwn (descriptor s) (docKeyKey (key s)) = true
         /\ (olookup [] (descriptor s) = None -> docKeyKey (key s) <> []))
  /\ (forall (descr opts : obj) (s : Schema),
         hasOwn descr protoName = false ->
         construct descr opts = Returns tt s ->
         (exists p,
             declaresKey descr p = true
             /\ keyConflict (normalizeProperties (getProp descr p) (VStr p)) = false
             /\ docKeyKey (key s) = p)
         \/ ((forall p, declaresKey descr p = false)
             /\ docKeyKey (key s) = js "id"
             /\ olookup (js "id") (descriptor s)
                = Some (normalizeProperties (VCtor CString) (VStr (js "id")))
             /\ generate (key s) = true))
  /\ (forall descr opts : obj,
         hasOwn descr protoName = false ->
         hasOwn descr (js "hasOwnProperty") = false ->
         (forall p, declaresKey descr p = false) ->
         exists s,
           construct descr opts = Returns tt s
           /\ docKeyKey (key s) = js "id"
           /\ olookup (js "id") (descriptor s)
              = Some (normalizeProperties (VCtor CString) (VStr (js "id")))
           /\ generate (key s) = true)
  /\ (exists s,
         @construct Reference.deps [(js "name", VCtor CString)] [] = Returns tt s
         /\ key s = {| docKeyKey := js "id"; prefix := VNull; suffix := VNull;
                       generate := true; dynamicKey := VUndefined |}
         /\ descriptor s = [(js "name", VObj [(js "type", VStr (js "string"))]);
                            (js "id", VObj [(js "type", VStr (js "string"))])]).
Proof.
  split; [|split; [|split; [|split]]].
  - intros k descr s s' _. apply add_key_invariant.
  - intros descr opts s _. apply construct_key_invariant.
  - intros descr opts s _. apply construct_declared.
  - intros descr opts _ Hs Hnone. apply construct_synthesizes; [exact Hs|].
    intros p Hp. specialize (Hnone p). unfold declaresKey in Hnone.
    rewrite Hp in Hnone. exact Hnone.
  - eexists. split; [vm_compute; reflexivity|]. split; reflexivity.
Qed.

Lemma document_key_synthesis_witness :
  exists s,
    @construct Reference.deps [(js "name", VCtor CString)] [] = Returns tt s
    /\ docKeyKey (key s) = js "id"
    /\ olookup (js "id") (descriptor s) = Some (VObj [(js "type", VStr (js "string"))])
    /\ generate (key s) = true.
Proof.
  apply (proj1 (proj2 (proj2 (proj2 (document_key_synthesis Reference.deps))))
           [(js "name", VCtor CString)] []).
  - reflexivity.
  - reflexivity.
  - intros p. unfold declaresKey, hasOwn. simpl.
    destruct (jsstring_eqb p (js "name")) eqn:E; [|reflexivity].
    apply jsstring_eqb_eq in E. subst p. reflexivity.
Defined.

(** C3, as stated, fails for a key property named by the empty string:
    [new Schema({'': {type: String, key: true}})] returns with
    [key.docKeyKey === '']. *)
Lemma document_key_can_be_empty :
  exists s,
    @construct Reference.deps
      [([], VObj [(js "type", VCtor CString); (js "key", VBool true)])] []
    = Returns tt s
    /\ docKeyKey (key s) = [].
Proof. eexists. split; [vm_compute; reflexivity|reflexivity]. Qed.

Lemma olookup_map_values (A B : Type) (f : A -> B) (k : jsstring) (o : omap A) :
  olookup k (map (fun kv => (fst kv, f (snd kv))) o) = option_map f (olookup k o).
Proof.
  induction o as [|[k0 v0] o IH]; simpl; [reflexivity|].
  destruct (jsstring_eqb k k0); [reflexivity|exact IH].
Qed.

(** The reference normalizer on a full descriptor whose type is a type
    tag: the tag becomes its alias and the other fields stay. *)
Lemma normalize_tagged (props : obj) (c : ctor) :
  olookup (js "type") props = Some (VCtor c) ->
  Reference.normalize (VObj props)
  = VObj (oset (js "type") (VStr (Reference.typeAlias c)) props).
Proof.
  intros H.
  change (Reference.normalize (VObj props))
    with (let inner := map (fun kv => (fst kv, Reference.normalize (snd kv))) props in
          match olookup (js "type") props, olookup (js "type") inner with
          | Some VUndefined, _ | None, _ | _, None =>
              VObj [(js "type", VStr (js "object")); (js "objectType", VObj inner)]
          | Some _, Some (VObj canonical) =>
              VObj (fold_left (fun acc kv => oset (fst kv) (snd kv) acc) canonical props)
          | Some _, Some _ => VObj props
          end).
  cbv zeta. rewrite olookup_map_values, H. reflexivity.
Qed.

Lemma normalize_tagged_conflict (props : obj) (c : ctor) :
  olookup (js "type") props = Some (VCtor c) ->
  isTrue (getProp props (js "key")) = true ->
  isTrue (getProp props (js "index")) = true
  \/ truthy (getProp props (js "ref")) = true
  \/ (c <> CString /\ c <> CNumber) ->
  isKeyProperty (Reference.normalize (VObj props)) = true
  /\ keyConflict (Reference.normalize (VObj props)) = true.
Proof.
  intros Ht Hk Hc. rewrite (normalize_tagged props Ht).
  unfold isKeyProperty, keyConflict, markedIndex, declaresRef, typeNotKeyLike. simpl.
  rewrite !getProp_oset_other by (intros E; discriminate E).
  rewrite getProp_oset_same, Hk.
  split; [reflexivity|].
  destruct Hc as [Hi|[Hr|[H1 H2]]].
  - rewrite Hi. reflexivity.
  - rewrite Hr. apply orb_true_iff. left. apply orb_true_r.
  - apply orb_true_iff. right. destruct c; try congruence; reflexivity.
Qed.

(** C4 (amended): [add] and the constructor throw a [TypeError] when a
    property of the descriptor they are given is, as [normalizeProperties]
    returns it, marked [key: true] and also marked [index: true], or
    declares a [ref], or has a type that is neither [String], [Number],
    ['string'] nor ['number'] -- provided the call asks for no property
    called [__proto__] (lines 486 and 492 store nothing under that name)
    and, in the form [add(name, descriptor)], the name is not the empty
    string.  With the normalizer modelled from the spec this is so of every
    property written [{type: T, key: true, ...}] with a type tag [T] that is
    marked [index: true], or declares a [ref], or has a [T] other than
    [String] and [Number]; the three descriptors of the claim make the
    constructor throw, each with its own message. *)
Theorem key_conflict_throws (D : Deps) :
  (forall (s : Schema) (m : obj) (p : jsstring),
      hasOwn m protoName = false ->
      hasOwn m p = true ->
      isKeyProperty (normalizeProperties (getProp m p) (VStr p)) = true ->
      keyConflict (normalizeProperties (getProp m p) (VStr p)) = true ->
      exists msg s', add (KeyMap m) VUndefined s = Throws (TypeError msg) s')
  /\ (forall (descr opts : obj) (p : jsstring),
         hasOwn descr protoName = false ->
         hasOwn descr p = true ->
         isKeyProperty (normalizeProperties (getProp descr p) (VStr p)) = true ->
         keyConflict (normalizeProperties (getProp descr p) (VStr p)) = true ->
         exists msg s', construct descr opts = Throws (TypeError msg) s')
  /\ (forall (s : Schema) (k : jsstring) (descr : value),
         k <> [] -> k <> protoName -> truthy descr = true ->
         isKeyProperty (normalizeProperties descr (VStr k)) = true ->
         keyConflict (normalizeProperties descr (VStr k)) = true ->
         exists msg s', add (KeyName k) descr s = Throws (TypeError msg) s')
  /\ (forall (descr opts : obj) (p : jsstring) (props : obj) (c : ctor),
         hasOwn descr protoName = false ->
         olookup p descr = Some (VObj props) ->
         olookup (js "type") props = Some (VCtor c) ->
         isTrue (getProp props (js "key")) = true ->
         isTrue (getProp props (js "index")) = true
         \/ truthy (getProp props (js "ref")) = true
         \/ (c <> CString /\ c <> CNumber) ->
         exists msg s', @construct Reference.deps descr opts = Throws (TypeError msg) s')
  /\ (exists s',
         @construct Reference.deps
           [(js "id", VObj [(js "type", VCtor CString); (js "key", VBool true);
                            (js "index", VBool true)])] []
         = Throws (TypeError "Schema key cannot be index field") s')
  /\ (exists s',
         @construct Reference.deps
           [(js "id", VObj [(js "type", VCtor CString); (js "key", VBool true);
                            (js "ref", VStr (js "Other"))])] []
         = Throws (TypeError "Schema key cannot be reference property") s')
  /\ (exists s',
         @construct Reference.deps
           [(js "id", VObj [(js "type", VCtor CObject); (js "key", VBool true)])] []
         = Throws (TypeError "Schema expects key to be a String or a Number") s').
Proof.
  split; [|split; [|split; [|split; [|split; [|split]]]]].
  - intros s m p _ Ho Hk Hc. rewrite add_KeyMap by reflexivity.
    apply _applyDocumentKey_conflict with (p := p); simpl.
    + rewrite hasOwn_storedMap, Ho. reflexivity.
    + unfold getProp at 1. rewrite olookup_storedMap, Ho. exact Hk.
    + unfold getProp at 1. rewrite olookup_storedMap, Ho. exact Hc.
  - intros descr opts p _. apply construct_conflict.
  - intros s k descr Hne _ Ht Hk Hc.
    rewrite (add_both (KeyName k)) by (destruct k; [congruence|exact Ht]).
    apply _applyDocumentKey_conflict with (p := k); simpl.
    + rewrite hasOwn_oset, jsstring_eqb_refl. reflexivity.
    + rewrite getProp_oset_same. exact Hk.
    + rewrite getProp_oset_same. exact Hc.
  - intros descr opts p props c _ Hp Ht Hk Hc.
    destruct (normalize_tagged_conflict props Ht Hk Hc) as [H1 H2].
    apply (@construct_conflict Reference.deps descr opts p).
    + unfold hasOwn. rewrite Hp. reflexivity.
    + rewrite (getProp_own _ _ Hp). exact H1.
    + rewrite (getProp_own _ _ Hp). exact H2.
  - eexists. vm_compute. reflexivity.
  - eexists. vm_compute. reflexivity.
  - eexists. vm_compute. reflexivity.
Qed.

Lemma key_conflict_throws_witness :
  exists msg s',
    @construct Reference.deps
      [(js "name", VCtor CString);
       (js "email", VObj [(js "type", VStr (js "string")); (js "key", VBool true);
                          (js "index", VBool true)])] []
    = Throws (TypeError msg) s'.
Proof.
  apply (proj1 (proj2 (key_conflict_throws Reference.deps)) _ [] (js "email"));
    reflexivity.
Defined.

(** C4, as stated, fails for a property named by the empty string:
    [add('', {type: String, key: true, index: true})] on [new Schema({})]
    takes neither branch of lines 483-494, stores nothing and returns. *)
Lemma add_empty_name_accepts_conflict :
  @add Reference.deps (KeyName [])
    (VObj [(js "type", VCtor CString); (js "key", VBool true); (js "index", VBool true)])
    Examples.empty
  = Returns tt Examples.empty.
Proof. vm_compute. reflexivity. Qed.

(** ** [extend] *)

Lemma bind_returns (A B : Type) (c : M A) (k : A -> M B) (s s' : Schema) (b : B) :
  bind c k s = Returns b s' ->
  exists a s1, c s = Returns a s1 /\ k a s1 = Returns b s'.
Proof.
  unfold bind. destruct (c s) as [a s1|e s1]; [|intros H; discriminate H].
  intros H. exists a, s1. auto.
Qed.

Lemma forEach_preserves (B C : Type) (proj : Schema -> C) (body : B -> M unit) (l : list B) :
  (forall x s s', body x s = Returns tt s' -> proj s' = proj s) ->
  forall s s', forEach l body s = Returns tt s' -> proj s' = proj s.
Proof.
  intros H. induction l as [|x l IH]; simpl; intros s s' E.
  - injection E as <-. reflexivity.
  - apply bind_returns in E. destruct E as [[] [s1 [E1 E2]]].
    rewrite (IH _ _ E2). apply (H _ _ _ E1).
Qed.

Lemma forEach_returns (B : Type) (body : B -> M unit) (l : list B) :
  (forall x s, exists s', body x s = Returns tt s') ->
  forall s, exists s', forEach l body s = Returns tt s'.
Proof.
  intros H. induction l as [|x l IH]; simpl; intros s.
  - exists s. reflexivity.
  - unfold bind. destruct (H x s) as [s1 ->]. apply IH.
Qed.

Section ExtendFacts.
Context {D : Deps}.

Lemma applyLoop_handlers (ks : list jsstring) :
  forall (b : bool) (s : Schema) (b' : bool) (s' : Schema),
    foldM applyDocumentKeyTo b ks s = Returns b' s' -> handlers s' = handlers s.
Proof.
  induction ks as [|k ks IH]; intros b s b' s'; simpl.
  - intros H. injection H as _ <-. reflexivity.
  - unfold bind.
    destruct (applyDocumentKeyTo_outcome b k s) as [->|[[-> _]|[msg ->]]].
    + apply IH.
    + intros H. apply IH in H. exact H.
    + intros H. discriminate H.
Qed.

Lemma _applyDocumentKey_handlers (s s' : Schema) :
  _applyDocumentKey s = Returns tt s' -> handlers s' = handlers s.
Proof.
  unfold _applyDocumentKey. intros H.
  apply bind_returns in H. destruct H as [s0 [s1 [E0 H]]].
  injection E0 as <- <-.
  apply bind_returns in H. destruct H as [b' [s2 [L H]]].
  apply applyLoop_handlers in L.
  apply bind_returns in H. destruct H as [s3 [s4 [E3 H]]].
  injection E3 as <- <-. rewrite <- L.
  destruct (negb b' && _).
  - injection H as <-. reflexivity.
  - injection H as <-. reflexivity.
Qed.

Lemma recorded_handlers (descr k : value) (s : Schema) :
  handlers (recorded descr k s) = handlers s.
Proof.
  unfold recorded.
  rewrite (fold_left_preserves handlers) by reflexivity.
  rewrite (fold_left_preserves handlers) by reflexivity. reflexivity.
Qed.

(** [add] leaves the methods and the statics alone. *)
Lemma add_handlers (k : addKey) (descr : value) (s s' : Schema) :
  add k descr s = Returns tt s' -> handlers s' = handlers s.
Proof.
  destruct (truthy (addKeyValue k) && truthy descr) eqn:B.
  - rewrite add_both by exact B. intros H.
    apply _applyDocumentKey_handlers in H. rewrite H.
    apply (recorded_handlers descr (addKeyValue k) s).
  - destruct k as [n|m].
    + unfold add. rewrite B. intros H.
      apply bind_returns in H. destruct H as [[] [s1 [E H]]].
      injection E as <-. apply _applyDocumentKey_handlers. exact H.
    + simpl in B. rewrite add_KeyMap by exact B. intros H.
      apply _applyDocumentKey_handlers in H. rewrite H.
      apply (recorded_handlers (VObj m) VUndefined s).
Qed.

(** The calls of [hasOwnProperty] leave the schema alone; without a member
    called [hasOwnProperty] they are the test of [Object.prototype]. *)
Lemma descriptorOwns_cases (o : obj) (p : jsstring) (s : Schema) :
  descriptorOwns o p s
  = if hasOwn o (js "hasOwnProperty")
    then Throws (TypeError "descriptor.hasOwnProperty is not a function") s
    else Returns (hasOwn o p) s.
Proof. unfold descriptorOwns. destruct (hasOwn o (js "hasOwnProperty")); reflexivity. Qed.

Lemma hasOwnPropertyCall_outcome (o : obj) (p : jsstring) (s : Schema) :
  (exists b, hasOwnPropertyCall o p s = Returns b s)
  \/ hasOwnPropertyCall o p s = Throws (TypeError "hasOwnProperty is not a function") s.
Proof.
  unfold hasOwnPropertyCall.
  destruct (olookup (js "hasOwnProperty") o) as [v|]; [|left; eexists; reflexivity].
  destruct (isFunction v); [left; eexists; reflexivity|right; reflexivity].
Qed.

Lemma hasOwnPropertyCall_plain (o : obj) (p : jsstring) (s : Schema) :
  hasOwn o (js "hasOwnProperty") = false ->
  hasOwnPropertyCall o p s = Returns (hasOwn o p) s.
Proof.
  unfold hasOwnPropertyCall, hasOwn at 1.
  destruct (olookup (js "hasOwnProperty") o); [intros H; discriminate H|reflexivity].
Qed.

Lemma ownsMember_outcome (prop : cloned) (o : obj) (p : jsstring) (s : Schema) :
  (exists b, ownsMember prop o p s = Returns b s)
  \/ (exists msg, ownsMember prop o p s = Throws (TypeError msg) s).
Proof.
  destruct prop; simpl.
  - rewrite descriptorOwns_cases.
    destruct (hasOwn o (js "hasOwnProperty")); [right|left]; eexists; reflexivity.
  - destruct (hasOwnPropertyCall_outcome o p s) as [H| ->]; [left; exact H|right; eexists; reflexivity].
  - destruct (hasOwnPropertyCall_outcome o p s) as [H| ->]; [left; exact H|right; eexists; reflexivity].
Qed.

Lemma ownsMember_plain (prop : cloned) (o : obj) (p : jsstring) (s : Schema) :
  hasOwn o (js "hasOwnProperty") = false ->
  ownsMember prop o p s = Returns (hasOwn o p) s.
Proof.
  intros H. destruct prop; simpl.
  - rewrite descriptorOwns_cases, H. reflexivity.
  - apply hasOwnPropertyCall_plain. exact H.
  - apply hasOwnPropertyCall_plain. exact H.
Qed.

(** One round of the loop of [_cloneProp] that returns: the call of
    [hasOwnProperty] returned, and the round went on from the same schema. *)
Lemma _cloneProp_step (other : Schema) (prop : cloned) (viaAdd : bool)
      (p : jsstring) (s s' : Schema) :
  (own <- ownsMember prop (propOf prop other) p ;;
   s0 <- this ;;
   if own && negb (truthy (getProp (propOf prop s0) p))
   then if viaAdd then add (KeyName p) (clone (getProp (descriptor other) p))
        else update (fun s1 =>
               withProp prop (oset p (getProp (propOf prop other) p) (propOf prop s1)) s1)
   else ret tt)%schema s = Returns tt s' ->
  exists own,
    ownsMember prop (propOf prop other) p s = Returns own s
    /\ (if own && negb (truthy (getProp (propOf prop s) p))
        then if viaAdd then add (KeyName p) (clone (getProp (descriptor other) p)) s
             else Returns tt
                    (withProp prop (oset p (getProp (propOf prop other) p) (propOf prop s)) s)
        else Returns tt s) = Returns tt s'.
Proof.
  unfold bind at 1.
  destruct (ownsMember_outcome prop (propOf prop other) p s) as [[own E]|[msg E]];
    rewrite E; [|intros H; discriminate H].
  intros H. exists own. split; [reflexivity|].
  unfold bind, this, update, ret in H.
  destruct (own && _); [destruct viaAdd|]; exact H.
Qed.

Lemma _cloneProp_descriptor_handlers (other s s' : Schema) :
  _cloneProp other Cdescriptor true s = Returns tt s' -> handlers s' = handlers s.
Proof.
  unfold _cloneProp. apply forEach_preserves.
  intros p s0 s1 H.
  apply (_cloneProp_step other Cdescriptor true) in H. destruct H as [own [_ H]].
  destruct (own && _).
  - apply add_handlers in H. exact H.
  - injection H as <-. reflexivity.
Qed.

Lemma propOf_withProp (prop : cloned) (o : obj) (s : Schema) :
  propOf prop (withProp prop o s) = o.
Proof. destruct prop; reflexivity. Qed.

(** One round of the loop of [_cloneProp] when it assigns and returns. *)
Lemma _cloneProp_assign_step (other : Schema) (prop : cloned) (p : jsstring) (s s' : Schema) :
  (own <- ownsMember prop (propOf prop other) p ;;
   s0 <- this ;;
   if own && negb (truthy (getProp (propOf prop s0) p))
   then if false then add (KeyName p) (clone (getProp (descriptor other) p))
        else update (fun s1 =>
               withProp prop (oset p (getProp (propOf prop other) p) (propOf prop s1)) s1)
   else ret tt)%schema s = Returns tt s' ->
  exists own,
    ownsMember prop (propOf prop other) p s = Returns own s
    /\ s' = if own && negb (truthy (getProp (propOf prop s) p))
            then withProp prop (oset p (getProp (propOf prop other) p) (propOf prop s)) s
            else s.
Proof.
  intros H. apply (_cloneProp_step other prop false) in H. destruct H as [own [E H]].
  exists own. split; [exact E|].
  destruct (own && _); injection H as <-; reflexivity.
Qed.

(** Without a member called [hasOwnProperty] in the other schema, the
    loop of [_cloneProp] that assigns returns. *)
Lemma _cloneProp_assign_returns (other : Schema) (prop : cloned) (s : Schema) :
  hasOwn (propOf prop other) (js "hasOwnProperty") = false ->
  exists s', _cloneProp other prop false s = Returns tt s'.
Proof.
  intros Hp. unfold _cloneProp. apply forEach_returns. intros p s0.
  unfold bind at 1. rewrite (ownsMember_plain prop _ p s0 Hp).
  unfold bind, this, update, ret.
  destruct (hasOwn _ p && _); eexists; reflexivity.
Qed.

(** An entry of the receiver that holds a truthy value is kept. *)
Lemma _cloneProp_assign_keeps (other : Schema) (prop : cloned) (n : jsstring) (v : value) :
  truthy v = true ->
  forall s s',
    _cloneProp other prop false s = Returns tt s' ->
    olookup n (propOf prop s) = Some v ->
    olookup n (propOf prop s') = Some v.
Proof.
  intros Hv. unfold _cloneProp.
  generalize (okeys (propOf prop other)). intros ks.
  induction ks as [|p ks IH]; simpl; intros s s' H Hn.
  - injection H as <-. exact Hn.
  - apply bind_returns in H. destruct H as [[] [s1 [E H]]].
    apply (_cloneProp_assign_step other prop) in E. destruct E as [own [_ ->]].
    apply (IH _ _ H).
    destruct (own && _) eqn:C; [|exact Hn].
    rewrite propOf_withProp.
    destruct (list_eq_dec N.eq_dec n p) as [->|Hne].
    + apply andb_true_iff in C. destruct C as [_ C].
      rewrite (getProp_own _ _ Hn), Hv in C. discriminate C.
    + rewrite olookup_oset_other by exact Hne. exact Hn.
Qed.

(** An entry of the other schema is copied when the receiver reads a
    falsy value under its name, and the other schema has no member called
    [hasOwnProperty]. *)
Lemma _cloneProp_assign_copies (other : Schema) (prop : cloned) (n : jsstring) (w : value) :
  hasOwn (propOf prop other) (js "hasOwnProperty") = false ->
  olookup n (propOf prop other) = Some w ->
  forall s s',
    _cloneProp other prop false s = Returns tt s' ->
    truthy (getProp (propOf prop s) n) = false ->
    olookup n (propOf prop s') = Some w.
Proof.
  intros Hp Hw. unfold _cloneProp.
  assert (Hin : In n (okeys (propOf prop other))).
  { apply hasOwn_okeys. unfold hasOwn. rewrite Hw. reflexivity. }
  assert (Hown : hasOwn (propOf prop other) n = true)
    by (unfold hasOwn; rewrite Hw; reflexivity).
  revert Hin. generalize (okeys (propOf prop other)). intros ks.
  assert (Hdone : forall ks s s',
             forEach ks (fun p =>
               own <- ownsMember prop (propOf prop other) p ;;
               s0 <- this ;;
               if own && negb (truthy (getProp (propOf prop s0) p))
               then if false then add (KeyName p) (clone (getProp (descriptor other) p))
                    else update (fun s1 =>
                      withProp prop (oset p (getProp (propOf prop other) p) (propOf prop s1)) s1)
               else ret tt)%schema s = Returns tt s' ->
             olookup n (propOf prop s) = Some w ->
             olookup n (propOf prop s') = Some w).
  { clear ks. induction ks as [|p ks IH]; simpl; intros s s' H Hn.
    - injection H as <-. exact Hn.
    - apply bind_returns in H. destruct H as [[] [s1 [E H]]].
      apply (_cloneProp_assign_step other prop) in E. destruct E as [own [_ ->]].
      apply (IH _ _ H).
      destruct (own && _) eqn:C; [|exact Hn].
      rewrite propOf_withProp, olookup_oset.
      destruct (jsstring_eqb n p) eqn:E; [|exact Hn].
      apply jsstring_eqb_eq in E. subst p.
      rewrite (getProp_own _ _ Hw). reflexivity. }
  induction ks as [|p ks IH]; intros Hin s s' H Hf; [destruct Hin|].
  simpl in H. apply bind_returns in H. destruct H as [[] [s1 [E H]]].
  apply (_cloneProp_assign_step other prop) in E. destruct E as [own [Eo ->]].
  rewrite (ownsMember_plain prop _ p s Hp) in Eo. injection Eo as <-.
  destruct (list_eq_dec N.eq_dec p n) as [->|Hne].
  - rewrite Hown, Hf in H. simpl in H.
    apply (Hdone _ _ _ H).
    rewrite propOf_withProp, olookup_oset_same, (getProp_own _ _ Hw). reflexivity.
  - destruct Hin as [->|Hin]; [congruence|].
    apply (IH Hin _ _ H).
    destruct (hasOwn _ p && _); [|exact Hf].
    rewrite propOf_withProp, getProp_oset_other by congruence. exact Hf.
Qed.

Lemma _cloneProp_statics_methods (other s s' : Schema) :
  _cloneProp other Cstatics false s = Returns tt s' -> methods s' = methods s.
Proof.
  unfold _cloneProp. apply forEach_preserves. intros p s0 s1 H.
  apply (_cloneProp_assign_step other Cstatics) in H. destruct H as [own [_ ->]].
  destruct (own && _); reflexivity.
Qed.

Lemma _cloneProp_methods_statics (other s s' : Schema) :
  _cloneProp other Cmethods false s = Returns tt s' -> statics s' = statics s.
Proof.
  unfold _cloneProp. apply forEach_preserves. intros p s0 s1 H.
  apply (_cloneProp_assign_step other Cmethods) in H. destruct H as [own [_ ->]].
  destruct (own && _); reflexivity.
Qed.

(** The loops of [extend] over the options and the hooks (lines
    532-551) return and leave the methods and the statics alone. *)
Lemma extend_options_step (other : Schema) (k : jsstring) (s s' : Schema) :
  (own <- hasOwnPropertyCall (options other) k ;;
   if own then
     ours <- get k ;;
     if isUndefined ours then set k (clone (getProp (options other) k))
     else if isPlainObject ours && isPlainObject (getProp (options other) k) then
       set k (merge (clone (getProp (options other) k)) ours)
     else ret tt
   else ret tt)%schema s = Returns tt s' ->
  exists own,
    hasOwnPropertyCall (options other) k s = Returns own s
    /\ s' = if own then
              if isUndefined (getProp (options s) k)
              then withOptions (oset k (clone (getProp (options other) k)) (options s)) s
              else if isPlainObject (getProp (options s) k)
                      && isPlainObject (getProp (options other) k)
                   then withOptions
                          (oset k (merge (clone (getProp (options other) k))
                                         (getProp (options s) k)) (options s)) s
                   else s
            else s.
Proof.
  unfold bind at 1.
  destruct (hasOwnPropertyCall_outcome (options other) k s) as [[own E]|E];
    rewrite E; [|intros H; discriminate H].
  intros H. exists own. split; [reflexivity|].
  cbv beta delta [bind get set this update ret] in H.
  destruct own; [|injection H as <-; reflexivity].
  destruct (isUndefined (getProp (options s) k)); [injection H as <-; reflexivity|].
  destruct (isPlainObject (getProp (options s) k)
            && isPlainObject (getProp (options other) k));
    injection H as <-; reflexivity.
Qed.

Lemma extend_options_handlers (other : Schema) (s s' : Schema) :
  forEach (okeys (options other)) (fun k =>
    own <- hasOwnPropertyCall (options other) k ;;
    if own then
      ours <- get k ;;
      if isUndefined ours then set k (clone (getProp (options other) k))
      else if isPlainObject ours && isPlainObject (getProp (options other) k) then
        set k (merge (clone (getProp (options other) k)) ours)
      else ret tt
    else ret tt)%schema s = Returns tt s' ->
  handlers s' = handlers s.
Proof.
  apply forEach_preserves. intros k s0 s1 E.
  apply extend_options_step in E. destruct E as [own [_ ->]].
  destruct own; [|reflexivity].
  destruct (isUndefined _); [reflexivity|].
  destruct (isPlainObject _ && _); reflexivity.
Qed.

Lemma extend_hooks_step (h : HookData) (s : Schema) :
  exists s',
    forEach (fns h) (fun fn =>
      match hook h with
      | Pre => pre (event h) fn
      | Post => post (event h) fn
      end) s = Returns tt s'
    /\ handlers s' = handlers s.
Proof.
  assert (R : forall fn s0, exists s1,
               match hook h with
               | Pre => pre (event h) fn
               | Post => post (event h) fn
               end s0 = Returns tt s1 /\ handlers s1 = handlers s0).
  { intros fn s0. unfold pre, post, _hook, update.
    destruct (hook h); simpl;
      destruct (olookup _ (hooks s0)); eexists; split; reflexivity. }
  destruct (forEach_returns _ (fns h) (fun fn s0 =>
              let (s1, H) := R fn s0 in ex_intro _ s1 (proj1 H)) s) as [s' E].
  exists s'. split; [exact E|].
  revert E. apply forEach_preserves. intros fn s0 s1 H.
  destruct (R fn s0) as [s2 [E2 H2]]. congruence.
Qed.

(** What [extend] does to the methods and the statics when it returns:
    an entry of the receiver with a truthy value is kept, and an entry of
    the other schema is copied when the receiver reads a falsy value under
    its name. *)
Lemma extend_handlers (A B r A' : Schema) :
  extend (Other B) A = Returns r A' ->
  r = A'
  /\ (forall n v, olookup n (methods A) = Some v -> truthy v = true ->
                  olookup n (methods A') = Some v)
  /\ (hasOwn (methods B) (js "hasOwnProperty") = false ->
      forall n w, olookup n (methods B) = Some w ->
                  truthy (getProp (methods A) n) = false ->
                  olookup n (methods A') = Some w)
  /\ (forall n v, olookup n (statics A) = Some v -> truthy v = true ->
                  olookup n (statics A') = Some v)
  /\ (hasOwn (statics B) (js "hasOwnProperty") = false ->
      forall n w, olookup n (statics B) = Some w ->
                  truthy (getProp (statics A) n) = false ->
                  olookup n (statics A') = Some w).
Proof.
  unfold extend. intros H.
  apply bind_returns in H. destruct H as [[] [s1 [E1 H]]].
  apply bind_returns in H. destruct H as [[] [s2 [E2 H]]].
  apply bind_returns in H. destruct H as [[] [s3 [E3 H]]].
  apply bind_returns in H. destruct H as [[] [s4 [E4 H]]].
  apply bind_returns in H. destruct H as [[] [s5 [E5 H]]].
  injection H as <- <-.
  assert (H1 : handlers s1 = handlers A) by (apply (_cloneProp_descriptor_handlers _ _ E1)).
  assert (H4 : handlers s4 = handlers s3) by (apply (extend_options_handlers _ _ E4)).
  assert (H5 : handlers s5 = handlers s4).
  { revert E5. apply forEach_preserves. intros h s0 s' E.
    destruct (extend_hooks_step h s0) as [s'' [E' Hh]]. congruence. }
  assert (Hm : methods s5 = methods s3) by (unfold handlers in *; congruence).
  assert (Hs : statics s5 = statics s3) by (unfold handlers in *; congruence).
  assert (Hm2 : methods s2 = methods A).
  { rewrite (_cloneProp_statics_methods _ _ E2). unfold handlers in H1. congruence. }
  assert (Hs3 : statics s3 = statics s2) by (apply (_cloneProp_methods_statics _ _ E3)).
  assert (Hs1 : statics s1 = statics A) by (unfold handlers in H1; congruence).
  split; [reflexivity|]. rewrite Hm, Hs, Hs3.
  split; [|split; [|split]].
  - intros n v Hn Hv.
    apply (_cloneProp_assign_keeps B Cmethods n Hv _ E3). simpl. rewrite Hm2. exact Hn.
  - intros Hp n w Hn Hf.
    apply (_cloneProp_assign_copies B Cmethods n Hp Hn _ E3). simpl. rewrite Hm2. exact Hf.
  - intros n v Hn Hv.
    apply (_cloneProp_assign_keeps B Cstatics n Hv _ E2). simpl. rewrite Hs1. exact Hn.
  - intros Hp n w Hn Hf.
    apply (_cloneProp_assign_copies B Cstatics n Hp Hn _ E2). simpl. rewrite Hs1. exact Hf.
Qed.

End ExtendFacts.

(** C5 (the code at the failing input): with [A.static('FLAG', false)] and
    [B.static('FLAG', true)], [A.extend(B)] returns [A] with
    [A.statics.FLAG === true]: the entry that [A] had is overwritten,
    because [_cloneProp] takes a falsy entry for an absent one. *)
Theorem extend_overwrites_falsy_static :
  olookup (js "FLAG") (statics Examples.flagOff) = Some (VBool false)
  /\ olookup (js "FLAG") (statics Examples.flagOn) = Some (VBool true)
  /\ exists s',
       @extend Reference.deps (Other Examples.flagOn) Examples.flagOff = Returns s' s'
       /\ olookup (js "FLAG") (statics s') = Some (VBool true).
Proof.
  split; [reflexivity|split; [reflexivity|]].
  eexists. split; [vm_compute; reflexivity|reflexivity].
Qed.

(** The scenario of the claim: [foo] is kept and [bar] is copied.  A
    method of [B] called [toString] is not copied: [A.methods.toString]
    reads the function every object inherits. *)
Example extend_methods_foo_bar :
  exists s',
    @extend Reference.deps (Other Examples.withFooBar) Examples.withFoo = Returns s' s'
    /\ methods s' = [(js "foo", VFun 11); (js "bar", VFun 13)].
Proof. eexists. split; [vm_compute; reflexivity|reflexivity]. Qed.

(** * Further properties *)

(** ** What [add] and [_applyDocumentKey] leave alone *)

Section Frame.
Context {D : Deps}.
Variable C : Type.
Variable proj : Schema -> C.
Hypothesis proj_withKey : forall k s, proj (withKey k s) = proj s.
Hypothesis proj_withDescriptor : forall o s, proj (withDescriptor o s) = proj s.

Lemma applyLoop_frame (ks : list jsstring) :
  forall (b : bool) (s : Schema) (b' : bool) (s' : Schema),
    foldM applyDocumentKeyTo b ks s = Returns b' s' -> proj s' = proj s.
Proof.
  induction ks as [|k ks IH]; intros b s b' s'; simpl.
  - intros H. injection H as _ <-. reflexivity.
  - unfold bind.
    destruct (applyDocumentKeyTo_outcome b k s) as [->|[[-> _]|[msg ->]]].
    + apply IH.
    + intros H. apply IH in H. rewrite H. unfold keyApplied.
      rewrite proj_withDescriptor. apply proj_withKey.
    + intros H. discriminate H.
Qed.

Lemma _applyDocumentKey_frame (s s' : Schema) :
  _applyDocumentKey s = Returns tt s' -> proj s' = proj s.
Proof.
  unfold _applyDocumentKey. intros H.
  apply bind_returns in H. destruct H as [s0 [s1 [E0 H]]].
  injection E0 as <- <-.
  apply bind_returns in H. destruct H as [b' [s2 [L H]]].
  apply applyLoop_frame in L.
  apply bind_returns in H. destruct H as [s3 [s4 [E3 H]]].
  injection E3 as <- <-. rewrite <- L.
  destruct (negb b' && _).
  - unfold bind, update in H. injection H as <-.
    rewrite proj_withDescriptor. unfold withDocKeyKey. apply proj_withKey.
  - injection H as <-. reflexivity.
Qed.

Hypothesis proj_withRefs : forall o s, proj (withRefs o s) = proj s.
Hypothesis proj_withIndexes : forall o s, proj (withIndexes o s) = proj s.

Lemma recorded_frame (descr k : value) (s : Schema) :
  proj (recorded descr k s) = proj s.
Proof.
  unfold recorded.
  rewrite (fold_left_preserves proj) by (intros; apply proj_withIndexes).
  rewrite (fold_left_preserves proj) by (intros; apply proj_withRefs).
  reflexivity.
Qed.

Lemma add_frame (k : addKey) (descr : value) (s s' : Schema) :
  add k descr s = Returns tt s' -> proj s' = proj s.
Proof.
  destruct (truthy (addKeyValue k) && truthy descr) eqn:B.
  - rewrite add_both by exact B. intros H.
    apply _applyDocumentKey_frame in H. rewrite H, proj_withDescriptor.
    apply recorded_frame.
  - destruct k as [n|m].
    + unfold add. rewrite B. intros H.
      apply bind_returns in H. destruct H as [[] [s1 [E H]]].
      injection E as <-. apply _applyDocumentKey_frame. exact H.
    + simpl in B. rewrite add_KeyMap by exact B. intros H.
      apply _applyDocumentKey_frame in H. rewrite H, proj_withDescriptor.
      apply recorded_frame.
Qed.

Lemma _cloneProp_descriptor_frame (other s s' : Schema) :
  _cloneProp other Cdescriptor true s = Returns tt s' -> proj s' = proj s.
Proof.
  unfold _cloneProp. apply forEach_preserves.
  intros p s0 s1 H.
  apply (_cloneProp_step other Cdescriptor true) in H. destruct H as [own [_ H]].
  destruct (own && _).
  - apply add_frame in H. exact H.
  - injection H as <-. reflexivity.
Qed.

End Frame.

(** ** Hooks *)

Lemma hookKey_inj (h h' : phase) (ev ev' : jsstring) :
  hookKey h ev = hookKey h' ev' -> h = h' /\ ev = ev'.
Proof.
  unfold hookKey. destruct h, h'; simpl; intros H.
  - injection H as H. auto.
  - discriminate H.
  - discriminate H.
  - injection H as H. auto.
Qed.

Lemma hookKey_eqb (h h' : phase) (ev ev' : jsstring) :
  jsstring_eqb (hookKey h' ev') (hookKey h ev) = phase_eqb h h' && jsstring_eqb ev ev'.
Proof.
  destruct (jsstring_eqb (hookKey h' ev') (hookKey h ev)) eqn:E.
  - apply jsstring_eqb_eq in E. apply hookKey_inj in E. destruct E as [-> ->].
    rewrite jsstring_eqb_refl. destruct h; reflexivity.
  - destruct (phase_eqb h h' && jsstring_eqb ev ev') eqn:F; [|reflexivity].
    apply andb_true_iff in F. destruct F as [F1 F2].
    apply jsstring_eqb_eq in F2. subst ev'.
    assert (h = h') by (destruct h, h'; try discriminate F1; reflexivity). subst h'.
    rewrite jsstring_eqb_refl in E. discriminate E.
Qed.

Lemma _hook_eq (h : phase) (ev : jsstring) (fn : value) (s : Schema) :
  _hook h ev fn s
  = Returns tt
      (withHooks
         (oset (hookKey h ev)
               match olookup (hookKey h ev) (hooks s) with
               | Some e => {| hook := hook e; event := event e; fns := fns e ++ [fn] |}
               | None => {| hook := h; event := ev; fns := [fn] |}
               end
               (hooks s)) s).
Proof.
  unfold _hook, update, hookKey.
  destruct (olookup _ (hooks s)); reflexivity.
Qed.

Lemma hooksFor_hook (h h' : phase) (ev ev' : jsstring) (fn : value) (s s' : Schema) :
  _hook h ev fn s = Returns tt s' ->
  hooksFor h' ev' s'
  = if phase_eqb h h' && jsstring_eqb ev ev'
    then hooksFor h ev s ++ [fn]
    else hooksFor h' ev' s.
Proof.
  rewrite _hook_eq. intros H. injection H as <-.
  unfold hooksFor at 1. simpl. rewrite olookup_oset, hookKey_eqb.
  destruct (phase_eqb h h' && jsstring_eqb ev ev'); [|reflexivity].
  unfold hooksFor. destruct (olookup (hookKey h ev) (hooks s)); reflexivity.
Qed.

(** X1: [pre] and [post] register a function behind the ones already
    registered for the same phase and event and touch no other
    registration: a [pre] and a [post] of one event are apart, and so are
    two events of one phase.  Registering a list of functions one after the
    other leaves them in that order, repeated ones included.  Nothing but
    [hooks] changes. *)
Theorem hook_registration (h : phase) (ev : jsstring) (s : Schema) :
  (forall fn : value,
      exists s',
        _hook h ev fn s = Returns tt s'
        /\ (forall h' ev',
               hooksFor h' ev' s'
               = if phase_eqb h h' && jsstring_eqb ev ev'
                 then hooksFor h ev s ++ [fn]
                 else hooksFor h' ev' s)
        /\ withHooks (hooks s) s' = s)
  /\ (forall fs : list value,
         exists s',
           forEach fs (fun fn => _hook h ev fn) s = Returns tt s'
           /\ hooksFor h ev s' = hooksFor h ev s ++ fs)
  /\ (forall fn : value, pre ev fn = _hook Pre ev fn /\ post ev fn = _hook Post ev fn).
Proof.
  split; [|split].
  - intros fn. eexists. split; [apply _hook_eq|]. split.
    + intros h' ev'. apply hooksFor_hook with (fn := fn). apply _hook_eq.
    + destruct s; reflexivity.
  - intros fs. revert s. induction fs as [|fn fs IH]; intros s; simpl.
    + exists s. split; [reflexivity|]. rewrite app_nil_r. reflexivity.
    + unfold bind. rewrite _hook_eq.
      destruct (IH (withHooks
                      (oset (hookKey h ev)
                            match olookup (hookKey h ev) (hooks s) with
                            | Some e => {| hook := hook e; event := event e;
                                           fns := fns e ++ [fn] |}
                            | None => {| hook := h; event := ev; fns := [fn] |}
                            end (hooks s)) s)) as [s' [E Hs']].
      exists s'. split; [exact E|]. rewrite Hs'.
      rewrite hooksFor_hook with (h := h) (ev := ev) (fn := fn) (s := s) by apply _hook_eq.
      destruct h; simpl; rewrite jsstring_eqb_refl; simpl;
        rewrite <- app_assoc; reflexivity.
  - intros fn. split; reflexivity.
Qed.

(** ** Options *)

Lemma existsb_okeys (A : Type) (m : omap A) (p : jsstring) :
  existsb (jsstring_eqb p) (okeys m) = hasOwn m p.
Proof.
  destruct (hasOwn m p) eqn:O.
  - apply existsb_exists. exists p. split; [|apply jsstring_eqb_refl].
    apply hasOwn_okeys. exact O.
  - destruct (existsb _ (okeys m)) eqn:X; [|reflexivity].
    apply existsb_exists in X. destruct X as [k [Hk Ek]].
    apply jsstring_eqb_eq in Ek. subst k.
    apply hasOwn_okeys in Hk. congruence.
Qed.

Lemma olookup_fold_keys (A : Type) (f : jsstring -> A) (ks : list jsstring) :
  forall (o : omap A) (p : jsstring),
    olookup p (fold_left (fun acc k => oset k (f k) acc) ks o)
    = if existsb (jsstring_eqb p) ks then Some (f p) else olookup p o.
Proof.
  induction ks as [|k ks IH]; intros o p; simpl; [reflexivity|].
  rewrite IH, olookup_oset.
  destruct (jsstring_eqb p k) eqn:E; simpl; [|reflexivity].
  apply jsstring_eqb_eq in E. subst k. destruct (existsb _ ks); reflexivity.
Qed.

Lemma olookup_lodash_extend (target source : obj) (k : jsstring) :
  olookup k (lodash_extend target source)
  = if hasOwn source k then Some (getProp source k) else olookup k target.
Proof.
  unfold lodash_extend.
  rewrite (olookup_fold_keys (fun k => getProp source k)), existsb_okeys. reflexivity.
Qed.

Lemma getProp_lodash_extend (target source : obj) (k : jsstring) :
  getProp (lodash_extend target source) k
  = if hasOwn source k then getProp source k else getProp target k.
Proof.
  unfold getProp at 1. rewrite olookup_lodash_extend.
  destruct (hasOwn source k); reflexivity.
Qed.

Lemma finished_options (s : Schema) : options (finished s) = options s.
Proof.
  unfold finished.
  destruct (negb (truthy (prefix (key s))) && _);
    destruct (truthy (getProp (options s) (js "dynamicKey")));
    destruct (negb (truthy (suffix (key s))) && _); reflexivity.
Qed.

Lemma construct_frame {D : Deps} (C : Type) (proj : Schema -> C) (descr opts : obj) (s : Schema) :
  (forall k s, proj (withKey k s) = proj s) ->
  (forall o s, proj (withDescriptor o s) = proj s) ->
  construct descr opts = Returns tt s ->
  exists mid,
    add (KeyMap descr) VUndefined (initialSchema opts) = Returns tt mid
    /\ s = finished mid
    /\ proj s = proj mid.
Proof.
  intros Hk Hd. rewrite construct_eq.
  destruct (add (KeyMap descr) VUndefined (initialSchema opts)) as [[] mid|e mid] eqn:E;
    [|intros H; discriminate H].
  intros H. injection H as <-. exists mid. split; [reflexivity|]. split; [reflexivity|].
  unfold finished.
  destruct (negb (truthy (prefix (key mid))) && _);
    destruct (truthy (getProp (options mid) (js "dynamicKey")));
    destruct (negb (truthy (suffix (key mid))) && _);
    unfold withPrefix, withSuffix, withDynamicKey; rewrite ?Hk; reflexivity.
Qed.

(** X2: the options of a new schema are the ones passed to the
    constructor on top of the defaults: an option the caller names is read
    back as given, also when it is [false] or [undefined], and any other
    name reads as in [{strict: true, dotNotation: true}].  The descriptor
    plays no part. *)
Theorem construct_options (D : Deps) (descr opts : obj) (s : Schema) :
  construct descr opts = Returns tt s ->
  (forall k : jsstring,
      get k s
      = Returns (if hasOwn opts k then getProp opts k else getProp defaultOptions k) s)
  /\ (hasOwn opts (js "strict") = false -> get (js "strict") s = Returns (VBool true) s)
  /\ (hasOwn opts (js "dotNotation") = false ->
      get (js "dotNotation") s = Returns (VBool true) s).
Proof.
  intros H.
  assert (O : options s = lodash_extend defaultOptions opts).
  { destruct (construct_frame options descr opts
                (fun _ _ => eq_refl) (fun _ _ => eq_refl) H) as [mid [A [_ ->]]].
    apply (add_frame options (fun _ _ => eq_refl) (fun _ _ => eq_refl)
             (fun _ _ => eq_refl) (fun _ _ => eq_refl)) in A.
    exact A. }
  assert (G : forall k : jsstring,
             get k s
             = Returns (if hasOwn opts k then getProp opts k else getProp defaultOptions k) s).
  { intros k. unfold get, bind, this, ret. rewrite O, getProp_lodash_extend. reflexivity. }
  split; [exact G|]. split; intros N; rewrite G, N; reflexivity.
Qed.

Lemma construct_options_witness :
  exists s,
    @construct Reference.deps [(js "name", VCtor CString)] [(js "strict", VBool false)]
    = Returns tt s
    /\ @get (js "strict") s = Returns (VBool false) s
    /\ @get (js "dotNotation") s = Returns (VBool true) s.
Proof.
  eexists. split; [vm_compute; reflexivity|].
  split.
  - apply (proj1 (@construct_options Reference.deps
                    [(js "name", VCtor CString)] [(js "strict", VBool false)] _ eq_refl)
             (js "strict")).
  - apply (proj2 (proj2 (@construct_options Reference.deps
                    [(js "name", VCtor CString)] [(js "strict", VBool false)] _ eq_refl))).
    reflexivity.
Defined.

(** X3: for a name other than [__proto__] (under which the assignment of
    line 423 makes no property), [set(key, value)] followed by [get(key)],
    or by [set(key)] with one argument, returns the value; every other
    option reads as before; the name becomes an own property of the options
    even for the value [undefined]; nothing but the options changes, and
    reading writes nothing. *)
Theorem set_then_get (k : jsstring) (v : value) (s : Schema) :
  k <> protoName ->
  exists s',
    set k v s = Returns tt s'
    /\ get k s' = Returns v s'
    /\ setRead k s' = Returns v s'
    /\ (forall k', k' <> k -> get k' s' = Returns (getProp (options s) k') s')
    /\ hasOwn (options s') k = true
    /\ withOptions (options s) s' = s.
Proof.
  intros _. eexists. split; [reflexivity|].
  unfold get, setRead, bind, this, ret. simpl.
  rewrite getProp_oset_same.
  split; [reflexivity|]. split; [reflexivity|]. split.
  - intros k' N. rewrite getProp_oset_other by exact N. reflexivity.
  - split.
    + rewrite hasOwn_oset, jsstring_eqb_refl. reflexivity.
    + destruct s; reflexivity.
Qed.

Lemma set_then_get_witness :
  exists s',
    set (js "strict") (VBool false) Examples.empty = Returns tt s'
    /\ get (js "strict") s' = Returns (VBool false) s'
    /\ hasOwn (options s') (js "strict") = true.
Proof.
  destruct (@set_then_get (js "strict") (VBool false) Examples.empty)
    as [s' [E [G [_ [_ [O _]]]]]].
  - intros N. discriminate N.
  - exists s'. split; [exact E|]. split; [exact G|exact O].
Defined.

(** ** References *)













(** ** Indexes *)

Lemma lone_digit (p : jsstring) :
  trailingDigitReg_test p = true -> beforeLast p = None -> length p = 1.
Proof.
  unfold beforeLast. destruct p as [|c [|d r]]; simpl; intros T B.
  - discriminate T.
  - reflexivity.
  - discriminate B.
Qed.

Lemma beforeLast_lone (p : jsstring) : length p = 1 -> beforeLast p = None.
Proof.
  unfold beforeLast. intros ->. reflexivity.
Qed.

Lemma inferIndexName_outcome (D : Deps) (p : jsstring) (s : Schema) :
  (exists n, inferIndexName p s = Returns n s)
  \/ (inferIndexName p s = Throws (TypeError "Cannot read properties of undefined") s
      /\ trailingDigitReg_test p = true /\ length p = 1).
Proof.
  unfold inferIndexName.
  destruct (trailingDigitReg_test p) eqn:T.
  - destruct (beforeLast p) as [c|] eqn:B.
    + left. eexists. reflexivity.
    + right. split; [reflexivity|]. split; [reflexivity|].
      apply lone_digit; assumption.
  - left. eexists. reflexivity.
Qed.

Lemma inferIndexPart_outcome (D : Deps) (p : jsstring) (s : Schema) :
  (exists n, inferIndexPart p s = Returns n s)
  \/ (inferIndexPart p s = Throws (TypeError "Cannot read properties of undefined") s
      /\ trailingDigitReg_test p = true /\ length p = 1).
Proof.
  unfold inferIndexPart.
  destruct (trailingDigitReg_test p) eqn:T.
  - destruct (beforeLast p) as [c|] eqn:B.
    + left. eexists. reflexivity.
    + right. split; [reflexivity|]. split; [reflexivity|].
      apply lone_digit; assumption.
  - left. eexists. reflexivity.
Qed.

Lemma mapM_inferIndexPart_outcome (D : Deps) (ps : list jsstring) (s : Schema) :
  (exists parts, mapM inferIndexPart ps s = Returns parts s)
  \/ (mapM inferIndexPart ps s
      = Throws (TypeError "Cannot read properties of undefined") s
      /\ exists p, In p ps /\ trailingDigitReg_test p = true /\ length p = 1).
Proof.
  induction ps as [|p ps IH]; simpl.
  - left. eexists. reflexivity.
  - unfold bind.
    destruct (inferIndexPart_outcome D p s) as [[n ->]|[-> [T L]]].
    + destruct IH as [[parts ->]|[-> [q [I Q]]]].
      * left. eexists. reflexivity.
      * right. split; [reflexivity|]. exists q. auto.
    + right. split; [reflexivity|]. exists p. auto.
Qed.

Lemma index_cases (D : Deps) (prop : IndexPath) (opts : IndexOptions.t) (s : Schema) :
  (exists n,
      index prop opts s
      = Returns tt (withIndexes (oset n (indexEntry prop n opts) (indexes s)) s)
      /\ (forall m, given (IndexOptions.indexName opts) = Some m -> n = m))
  \/ (index prop opts s = Throws (TypeError "Cannot read properties of undefined") s
      /\ given (IndexOptions.indexName opts) = None
      /\ exists p, In p (pathParts prop) /\ trailingDigitReg_test p = true /\ length p = 1).
Proof.
  unfold index. destruct prop as [p|ps].
  - destruct (given (IndexOptions.indexName opts)) as [n|] eqn:G.
    + left. exists n. split; [reflexivity|]. intros m E. congruence.
    + destruct (inferIndexName_outcome D p s) as [[n E]|[E [T L]]].
      * left. exists n. unfold bind. rewrite E.
        split; [reflexivity|]. intros m F. discriminate F.
      * right. unfold bind. rewrite E.
        split; [reflexivity|]. split; [reflexivity|].
        exists p. simpl. auto.
  - destruct (given (IndexOptions.indexName opts)) as [n|] eqn:G.
    + left. exists n. split; [reflexivity|]. intros m E. congruence.
    + destruct (mapM_inferIndexPart_outcome D ps s) as [[parts E]|[E [q Q]]].
      * left. eexists. unfold bind. rewrite E.
        split; [reflexivity|]. intros m F. discriminate F.
      * right. unfold bind. rewrite E.
        split; [reflexivity|]. split; [reflexivity|].
        exists q. exact Q.
Qed.

Lemma inferIndexPart_lone_digit (D : Deps) (p : jsstring) (s : Schema) :
  trailingDigitReg_test p = true -> length p = 1 ->
  inferIndexPart p s = Throws (TypeError "Cannot read properties of undefined") s.
Proof.
  intros T L. unfold inferIndexPart. rewrite T, (beforeLast_lone p L). reflexivity.
Qed.

Lemma mapM_inferIndexPart_throws (D : Deps) (ps : list jsstring) (p : jsstring) (s : Schema) :
  In p ps -> trailingDigitReg_test p = true -> length p = 1 ->
  mapM inferIndexPart ps s = Throws (TypeError "Cannot read properties of undefined") s.
Proof.
  intros I T L. induction ps as [|q ps IH]; [destruct I|].
  simpl. unfold bind.
  destruct I as [->|I].
  - rewrite (inferIndexPart_lone_digit D p s T L). reflexivity.
  - destruct (inferIndexPart_outcome D q s) as [[n ->]|[-> _]]; [|reflexivity].
    rewrite (IH I). reflexivity.
Qed.

Lemma index_named (D : Deps) (prop : IndexPath) (opts : IndexOptions.t) (s : Schema) :
  forall s', index prop opts s = Returns tt s' ->
  exists n,
    indexNameIs prop opts s n
    /\ s' = withIndexes (oset n (indexEntry prop n opts) (indexes s)) s.
Proof.
  intros s'. unfold index, indexNameIs. destruct prop as [p|ps].
  - destruct (given (IndexOptions.indexName opts)) as [n|] eqn:G.
    + intros H. injection H as <-. exists n. split; reflexivity.
    + destruct (inferIndexName_outcome D p s) as [[n E]|[E _]];
        unfold bind; rewrite E; [|intros H; discriminate H].
      intros H. injection H as <-. exists n. split; reflexivity.
  - destruct (given (IndexOptions.indexName opts)) as [n|] eqn:G.
    + intros H. injection H as <-. exists n. split; reflexivity.
    + destruct (mapM_inferIndexPart_outcome D ps s) as [[parts E]|[E _]];
        unfold bind; rewrite E; [|intros H; discriminate H].
      intros H. injection H as <-. exists (getIndexName parts).
      split; [exists parts; split; reflexivity|reflexivity].
Qed.

(** X6: a call of [index] either returns or throws a [TypeError] and
    leaves the schema as it was.  When it returns with a name other than
    [__proto__] (the name given, or else the one made from the path), the
    indexes hold under that name the new entry (the path as given, that
    name, the index type or ['single'], [compound] set for an array path
    only, and [refKeyCase] when one is given) and under every other name
    what they held, and nothing else has changed; under [__proto__] line 258
    stores no entry.  The call throws exactly when no name is given and a
    property of the path is a single decimal digit, for which the character
    before the last does not exist; with a name given it always returns. *)
Theorem index_outcome (D : Deps) (prop : IndexPath) (opts : IndexOptions.t) (s : Schema) :
  ((exists n s',
       index prop opts s = Returns tt s'
       /\ indexNameIs prop opts s n
       /\ (n <> protoName ->
           s' = withIndexes (oset n (indexEntry prop n opts) (indexes s)) s
           /\ olookup n (indexes s') = Some (indexEntry prop n opts)
           /\ (forall k, k <> n -> olookup k (indexes s') = olookup k (indexes s))))
   \/ ((exists msg, index prop opts s = Throws (TypeError msg) s)
       /\ given (IndexOptions.indexName opts) = None
       /\ exists p, In p (pathParts prop)
                    /\ trailingDigitReg_test p = true /\ length p = 1))
  /\ (forall n,
         given (IndexOptions.indexName opts) = Some n ->
         exists s',
           index prop opts s = Returns tt s'
           /\ (n <> protoName ->
               s' = withIndexes (oset n (indexEntry prop n opts) (indexes s)) s
               /\ olookup n (indexes s') = Some (indexEntry prop n opts)))
  /\ (forall p,
         given (IndexOptions.indexName opts) = None ->
         In p (pathParts prop) -> trailingDigitReg_test p = true -> length p = 1 ->
         exists msg, index prop opts s = Throws (TypeError msg) s).
Proof.
  split; [|split].
  - destruct (index_cases D prop opts s) as [[n0 [E _]]|[T U]].
    + left. destruct (index_named D prop opts s E) as [n [I S']].
      exists n. eexists. split; [exact E|]. split; [exact I|].
      intros _. split; [exact S'|]. rewrite S'. split.
      * simpl. apply olookup_oset_same.
      * intros k N. simpl. apply olookup_oset_other. exact N.
    + right. split; [eexists; exact T|exact U].
  - intros n G. destruct (index_cases D prop opts s) as [[m [E F]]|[_ [N _]]].
    + rewrite (F n G) in E. eexists. split; [exact E|].
      intros _. split; [reflexivity|]. simpl. apply olookup_oset_same.
    + congruence.
  - intros p G I T L. eexists. unfold index. rewrite G.
    destruct prop as [q|ps]; simpl in I.
    + destruct I as [->|[]]. unfold bind, inferIndexName.
      rewrite T, (beforeLast_lone p L). reflexivity.
    + unfold bind. rewrite (mapM_inferIndexPart_throws D ps p s I T L). reflexivity.
Qed.

Lemma index_outcome_witness :
  (exists msg,
      @index Reference.deps (Single (js "7")) IndexOptions.none Examples.empty
      = Throws (TypeError msg) Examples.empty)
  /\ (exists msg,
         @index Reference.deps (Compound [js "email"; js "7"]) IndexOptions.none
           Examples.empty
         = Throws (TypeError msg) Examples.empty).
Proof.
  split.
  - apply (proj2 (proj2 (@index_outcome Reference.deps (Single (js "7"))
                           IndexOptions.none Examples.empty)) (js "7")).
    + reflexivity.
    + left. reflexivity.
    + reflexivity.
    + reflexivity.
  - apply (proj2 (proj2 (@index_outcome Reference.deps (Compound [js "email"; js "7"])
                           IndexOptions.none Examples.empty)) (js "7")).
    + reflexivity.
    + right. left. reflexivity.
    + reflexivity.
    + reflexivity.
Defined.

Lemma getRefKey_depends (D : Deps) (nm : jsstring) (s s' : Schema) :
  options s' = options s ->
  olookup nm (indexes s') = olookup nm (indexes s) ->
  forall v, getRefKey nm v s' = getRefKey nm v s.
Proof.
  intros O I v. unfold getRefKey, foldRefKeyCase, refKeyPrefix, refKeyInfix.
  rewrite O, I. reflexivity.
Qed.

Lemma getRefKey_folded (D : Deps) (nm a b : jsstring) (s : Schema) :
  foldRefKeyCase nm a s = foldRefKeyCase nm b s ->
  getRefKey nm a s = getRefKey nm b s.
Proof.
  intros E. unfold getRefKey. rewrite E. reflexivity.
Qed.

(** X7: the entry [index] writes is the one [getRefKey] consults for the
    same name: with [refKeyCase] equal to [REF_KEY_CASE.UPPER] (or
    [LOWER]) the value is upper-cased (lower-cased) before the key is built,
    so two values that differ in case only get the same reference key; with
    any other [refKeyCase], or none, the value is used as it is.  The keys
    built for every other index name are what they were before the call. *)
Theorem index_then_getRefKey (D : Deps) (prop : IndexPath) (opts : IndexOptions.t)
        (s s' : Schema) :
  index prop opts s = Returns tt s' ->
  exists n,
    olookup n (indexes s') = Some (indexEntry prop n opts)
    /\ (forall v,
           foldRefKeyCase n v s'
           = match given (IndexOptions.refKeyCase opts) with
             | Some c =>
                 if jsstring_eqb c REF_KEY_CASE.UPPER then toUpperCase v
                 else if jsstring_eqb c REF_KEY_CASE.LOWER then toLowerCase v
                 else v
             | None => v
             end)
    /\ (IndexOptions.refKeyCase opts = Some REF_KEY_CASE.UPPER ->
        forall a b, toUpperCase a = toUpperCase b -> getRefKey n a s' = getRefKey n b s')
    /\ (IndexOptions.refKeyCase opts = Some REF_KEY_CASE.LOWER ->
        forall a b, toLowerCase a = toLowerCase b -> getRefKey n a s' = getRefKey n b s')
    /\ (forall m v, m <> n -> getRefKey m v s' = getRefKey m v s).
Proof.
  intros H.
  destruct (index_cases D prop opts s) as [[n [E _]]|[E _]];
    rewrite E in H; [|discriminate H].
  injection H as <-. exists n.
  assert (L : olookup n (indexes
                (withIndexes (oset n (indexEntry prop n opts) (indexes s)) s))
              = Some (indexEntry prop n opts)).
  { simpl. apply olookup_oset_same. }
  assert (F : forall v,
             foldRefKeyCase n v
               (withIndexes (oset n (indexEntry prop n opts) (indexes s)) s)
             = match given (IndexOptions.refKeyCase opts) with
               | Some c =>
                   if jsstring_eqb c REF_KEY_CASE.UPPER then toUpperCase v
                   else if jsstring_eqb c REF_KEY_CASE.LOWER then toLowerCase v
                   else v
               | None => v
               end).
  { intros v. unfold foldRefKeyCase. rewrite L. reflexivity. }
  split; [exact L|]. split; [exact F|]. split; [|split].
  - intros U a b Eab. apply getRefKey_folded. rewrite !F, U. simpl. exact Eab.
  - intros U a b Eab. apply getRefKey_folded. rewrite !F, U. simpl. exact Eab.
  - intros m v N. apply getRefKey_depends; [reflexivity|].
    simpl. apply olookup_oset_other. exact N.
Qed.

Lemma index_then_getRefKey_witness :
  exists s',
    @index Reference.deps (Single (js "emails"))
      {| IndexOptions.indexName := None; IndexOptions.indexType := None;
         IndexOptions.refKeyCase := Some REF_KEY_CASE.UPPER |}
      Examples.delimited
    = Returns tt s'
    /\ @getRefKey Reference.deps (js "email") (js "Joe") s'
       = @getRefKey Reference.deps (js "email") (js "JOE") s'.
Proof.
  eexists. split; [vm_compute; reflexivity|].
  destruct (@index_then_getRefKey Reference.deps (Single (js "emails"))
              {| IndexOptions.indexName := None; IndexOptions.indexType := None;
                 IndexOptions.refKeyCase := Some REF_KEY_CASE.UPPER |}
              Examples.delimited _ eq_refl) as [n [L [_ [U _]]]].
  cbn [indexes withIndexes] in L. rewrite olookup_oset in L.
  destruct (jsstring_eqb n _) eqn:E in L.
  - apply jsstring_eqb_eq in E. vm_compute in E. subst n.
    apply (U eq_refl). reflexivity.
  - vm_compute in L. discriminate L.
Defined.

(** ** Members *)

Lemma forEach_update_In (B : Type) (g : B -> Schema -> Schema) (body : B -> M unit)
      (l : list B) :
  (forall x, In x l -> forall s, body x s = Returns tt (g x s)) ->
  forall s, forEach l body s = Returns tt (fold_left (fun s x => g x s) l s).
Proof.
  induction l as [|x l IH]; intros H s; simpl; [reflexivity|].
  unfold bind. rewrite (H x (or_introl eq_refl)).
  apply IH. intros y I. apply H. right. exact I.
Qed.

Lemma fold_withStatics (f : jsstring -> value) (l : list jsstring) (s : Schema) :
  fold_left (fun s k => withStatics (oset k (f k) (statics s)) s) l s
  = withStatics (fold_left (fun o k => oset k (f k) o) l (statics s)) s.
Proof.
  revert s. induction l as [|k l IH]; intros s; simpl.
  - destruct s; reflexivity.
  - rewrite IH. reflexivity.
Qed.

Lemma fold_withMethods (f : jsstring -> value) (l : list jsstring) (s : Schema) :
  fold_left (fun s k => withMethods (oset k (f k) (methods s)) s) l s
  = withMethods (fold_left (fun o k => oset k (f k) o) l (methods s)) s.
Proof.
  revert s. induction l as [|k l IH]; intros s; simpl.
  - destruct s; reflexivity.
  - rewrite IH. reflexivity.
Qed.

(** X8: given a map with no property called [__proto__] (under which
    lines 301 and 340 store nothing), [static] registers every own property
    of the map under its name, whatever the value, and never throws;
    [method] does the same when every value is a function.  Afterwards a
    name of the map reads as the map has it and any other name as before,
    and nothing but [statics] (or [methods]) has changed. *)
Theorem register_map (D : Deps) (m : obj) (func : value) (s : Schema) :
  hasOwn m protoName = false ->
  (exists s',
      static (VObj m) func s = Returns tt s'
      /\ (forall k, olookup k (statics s')
                    = if hasOwn m k then Some (getProp m k) else olookup k (statics s))
      /\ withStatics (statics s) s' = s)
  /\ ((forall k, hasOwn m k = true -> isFunction (getProp m k) = true) ->
      exists s',
        method (VObj m) func s = Returns tt s'
        /\ (forall k, olookup k (methods s')
                      = if hasOwn m k then Some (getProp m k) else olookup k (methods s))
        /\ withMethods (methods s) s' = s).
Proof.
  intros _. split.
  - eexists. split; [|split].
    + unfold static.
      apply (forEach_update_In
               (fun k s => withStatics (oset k (getProp m k) (statics s)) s)).
      intros k I s0. apply hasOwn_okeys in I. rewrite I. reflexivity.
    + intros k. rewrite (fold_withStatics (fun k => getProp m k)). simpl.
      rewrite (olookup_fold_keys (fun k => getProp m k)), existsb_okeys. reflexivity.
    + rewrite (fold_withStatics (fun k => getProp m k)). destruct s; reflexivity.
  - intros F. eexists. split; [|split].
    + unfold method.
      apply (forEach_update_In
               (fun k s => withMethods (oset k (getProp m k) (methods s)) s)).
      intros k I s0. apply hasOwn_okeys in I. rewrite I.
      unfold methodNamed. simpl. rewrite (F k I). reflexivity.
    + intros k. rewrite (fold_withMethods (fun k => getProp m k)). simpl.
      rewrite (olookup_fold_keys (fun k => getProp m k)), existsb_okeys. reflexivity.
    + rewrite (fold_withMethods (fun k => getProp m k)). destruct s; reflexivity.
Qed.

Lemma register_map_witness :
  exists s',
    @method Reference.deps (VObj [(js "foo", VFun 12); (js "bar", VFun 13)]) VUndefined
      Examples.withFoo
    = Returns tt s'
    /\ olookup (js "foo") (methods s') = Some (VFun 12)
    /\ olookup (js "bar") (methods s') = Some (VFun 13).
Proof.
  destruct (proj2 (@register_map Reference.deps
                     [(js "foo", VFun 12); (js "bar", VFun 13)] VUndefined
                     Examples.withFoo eq_refl)) as [s' [E [L _]]].
  - intros k O. unfold hasOwn in O. simpl in O. unfold getProp. simpl.
    destruct (jsstring_eqb k (js "foo")); [reflexivity|].
    destruct (jsstring_eqb k (js "bar")); [reflexivity|discriminate O].
  - exists s'. split; [exact E|]. split.
    + rewrite L. reflexivity.
    + rewrite L. reflexivity.
Defined.

(** X9: when [virtual] returns, and the name is not [__proto__] (under
    which line 408 stores nothing), it has stored, under the name, an object
    with [virtual: true] and [invisible: true], the getter of the options,
    and either the setter of the options (when that is truthy) and no
    [readOnly], or [readOnly: true] and no [set].  In the two-argument form
    [virtual(name, options)] the type is ['any'], otherwise the type given,
    and then the getter is a function.  The key settings and every other
    descriptor property are left as they were. *)
Theorem virtual_stores (D : Deps) (nm type opts : value) (s s' : Schema) :
  nm <> VStr protoName ->
  virtual nm type opts s = Returns tt s' ->
  exists n vt,
    nm = VStr n
    /\ s' = withDescriptor (oset n (VObj vt) (descriptor s)) s
    /\ olookup (js "virtual") vt = Some (VBool true)
    /\ olookup (js "invisible") vt = Some (VBool true)
    /\ (let twoArgs := isPlainObject type && negb (truthy opts) in
        let o := if twoArgs then type else opts in
        olookup (js "type") vt = Some (if twoArgs then VStr (js "any") else type)
        /\ olookup (js "get") vt = Some (field o (js "get"))
        /\ (twoArgs = false -> isFunction (field o (js "get")) = true)
        /\ (if truthy (field o (js "set"))
            then olookup (js "set") vt = Some (field o (js "set"))
                 /\ olookup (js "readOnly") vt = None
            else olookup (js "readOnly") vt = Some (VBool true)
                 /\ olookup (js "set") vt = None))
    /\ (forall k, k <> n -> olookup k (descriptor s') = olookup k (descriptor s)).
Proof.
  intros _.
  unfold virtual. destruct nm as [| | |n| | | | |]; simpl; try (intros H; discriminate H).
  unfold bind.
  destruct (isPlainObject type && negb (truthy opts)) eqn:T.
  - simpl. unfold update. intros H. injection H as <-.
    eexists n, _. split; [reflexivity|]. split; [reflexivity|].
    destruct (truthy (field type (js "set"))) eqn:S;
      (split; [reflexivity|]); (split; [reflexivity|]);
      (split; [|intros k N; simpl; apply olookup_oset_other; exact N]);
      (split; [reflexivity|]); (split; [reflexivity|]);
      (split; [intros F; discriminate F|]); split; reflexivity.
  - destruct (isPlainObject opts) eqn:P; simpl; [|intros H; discriminate H].
    destruct (isFunction (field opts (js "get"))) eqn:G; simpl;
      [|intros H; discriminate H].
    unfold update. intros H. injection H as <-.
    eexists n, _. split; [reflexivity|]. split; [reflexivity|].
    destruct (truthy (field opts (js "set"))) eqn:S;
      (split; [reflexivity|]); (split; [reflexivity|]);
      (split; [|intros k N; simpl; apply olookup_oset_other; exact N]);
      (split; [reflexivity|]); (split; [reflexivity|]);
      (split; [intros _; reflexivity|]); split; reflexivity.
Qed.

Lemma virtual_stores_witness :
  exists s',
    @virtual Reference.deps (VStr (js "fullName")) (VObj [(js "get", VFun 2)]) VUndefined
      Examples.empty
    = Returns tt s'
    /\ exists vt,
         s' = withDescriptor (oset (js "fullName") (VObj vt) (descriptor Examples.empty))
                Examples.empty
         /\ olookup (js "type") vt = Some (VStr (js "any"))
         /\ olookup (js "readOnly") vt = Some (VBool true)
         /\ olookup (js "set") vt = None.
Proof.
  eexists. split; [vm_compute; reflexivity|].
  destruct (@virtual_stores Reference.deps (VStr (js "fullName"))
              (VObj [(js "get", VFun 2)]) VUndefined Examples.empty _
              ltac:(intros N; discriminate N) eq_refl)
    as [n [vt [N [E [_ [_ [[Ty [_ [_ R]]] _]]]]]]].
  injection N as <-. exists vt. split; [exact E|]. split; [exact Ty|exact R].
Defined.

(** ** Reference keys *)

Lemma utf8_app_len (n : nat) :
  forall (a u : jsstring),
    length a <= n ->
    match u with c :: _ => isLowSurrogate c | [] => false end = false ->
    utf8 (a ++ u) = utf8 a ++ utf8 u.
Proof.
  induction n as [|n IH]; intros a u L C.
  - destruct a; [reflexivity|simpl in L; lia].
  - destruct a as [|x t]; [reflexivity|].
    simpl in L.
    assert (Ht : utf8 (t ++ u) = utf8 t ++ utf8 u) by (apply IH; [lia|exact C]).
    change ((x :: t) ++ u) with (x :: (t ++ u)).
    cbn [utf8].
    destruct (x <? 0x80)%N; [rewrite Ht; reflexivity|].
    destruct (x <? 0x800)%N; [rewrite Ht, app_assoc; reflexivity|].
    destruct (isHighSurrogate x).
    + destruct t as [|lo t'].
      * cbn [app]. destruct u as [|c b]; [reflexivity|].
        rewrite C. reflexivity.
      * cbn [app]. destruct (isLowSurrogate lo).
        -- rewrite (IH t' u) by (simpl in L; lia || exact C).
           rewrite app_assoc. reflexivity.
        -- change (lo :: t' ++ u) with ((lo :: t') ++ u).
           rewrite Ht, app_assoc. reflexivity.
    + destruct (isLowSurrogate x); rewrite Ht, app_assoc; reflexivity.
Qed.

Lemma utf8_app_ascii (a b : jsstring) (c : N) :
  (c <? 0x80)%N = true -> utf8 (a ++ c :: b) = utf8 a ++ utf8 (c :: b).
Proof.
  intros C. apply (utf8_app_len (n := length a)); [lia|].
  unfold isLowSurrogate. apply N.ltb_lt in C.
  apply andb_false_iff. left. apply N.leb_gt. lia.
Qed.

Lemma utf8_ascii (s : jsstring) :
  forallb (fun c => (c <? 0x80)%N) s = true -> utf8 s = s.
Proof.
  induction s as [|c s IH]; [reflexivity|].
  cbn [forallb utf8]. intros H. apply andb_true_iff in H. destruct H as [C H].
  rewrite C, (IH H). reflexivity.
Qed.

Lemma hexDigit_ascii (n : N) : (n < 16)%N -> (MD5.hexDigit n <? 0x80)%N = true.
Proof.
  intros H. unfold MD5.hexDigit. apply N.ltb_lt.
  destruct (n <? 10)%N; lia.
Qed.

Lemma hexByte_ascii (b : N) :
  (b < 256)%N -> forallb (fun c => (c <? 0x80)%N) (MD5.hexByte b) = true.
Proof.
  intros H. unfold MD5.hexByte. cbn [forallb].
  rewrite !hexDigit_ascii; [reflexivity| |].
  - change 15%N with (N.ones 4). rewrite N.land_ones.
    apply N.mod_lt. discriminate.
  - rewrite N.shiftr_div_pow2. change (2 ^ 4)%N with 16%N.
    apply N.Div0.div_lt_upper_bound. lia.
Qed.

Lemma bytesLE_bytes (count : nat) (x : N) :
  Forall (fun b => (b < 256)%N) (MD5.bytesLE count x).
Proof.
  unfold MD5.bytesLE. apply Forall_forall. intros b I.
  apply in_map_iff in I. destruct I as [i [<- _]].
  change 255%N with (N.ones 8). rewrite N.land_ones.
  apply N.mod_lt. discriminate.
Qed.

Lemma md5_hex_ascii (msg : list N) :
  forallb (fun c => (c <? 0x80)%N) (MD5.hex msg) = true.
Proof.
  unfold MD5.hex, MD5.digest.
  destruct (MD5.blocks _ MD5.init (MD5.pad msg)) as [[[a b] c] d].
  apply forallb_forall. intros x I. apply in_flat_map in I.
  destruct I as [y [Iy Ix]].
  assert (Hy : (y < 256)%N).
  { assert (F : Forall (fun b => (b < 256)%N)
                  (MD5.bytesLE 4 a ++ MD5.bytesLE 4 b ++ MD5.bytesLE 4 c ++ MD5.bytesLE 4 d)).
    { repeat (apply Forall_app; split); apply bytesLE_bytes. }
    rewrite Forall_forall in F. apply F. exact Iy. }
  pose proof (hexByte_ascii Hy) as Hb.
  rewrite forallb_forall in Hb. apply Hb. exact Ix.
Qed.

Lemma hashed_byteLength (fullPrefix : jsstring) (msg : list N) :
  byteLength (fullPrefix ++ js "hashed_" ++ MD5.hex msg) = byteLength fullPrefix + 39.
Proof.
  unfold byteLength.
  change (js "hashed_" ++ MD5.hex msg)
    with (104%N :: (js "ashed_" ++ MD5.hex msg)).
  rewrite utf8_app_ascii by reflexivity.
  rewrite length_app. f_equal.
  change (104%N :: (js "ashed_" ++ MD5.hex msg)) with (js "hashed_" ++ MD5.hex msg).
  rewrite utf8_ascii.
  - rewrite length_app, md5_hex_length. reflexivity.
  - rewrite forallb_app, md5_hex_ascii. reflexivity.
Qed.

Lemma Ok_inj (A : Type) (a b : A) : Ok a = Ok b -> a = b.
Proof. congruence. Qed.

Lemma getRefKey_cases (D : Deps) (nm v kp : jsstring) (s : Schema) :
  refKeyPrefix s = VStr kp ->
  getRefKey nm v s
  = Ok ((kp ++ refKeyInfix nm s)
        ++ (if (250 <? byteLength ((kp ++ refKeyInfix nm s) ++ foldRefKeyCase nm v s))%nat
            then js "hashed_" ++ MD5.hex (utf8 (foldRefKeyCase nm v s))
            else foldRefKeyCase nm v s)).
Proof.
  intros P. unfold getRefKey. rewrite P. reflexivity.
Qed.

(** X10: the key [getRefKey] returns has at most 250 bytes whenever the
    part in front of the value (key prefix, [refIndexKeyPrefix], index name
    and delimiter) has at most 211; a hashed key has exactly 39 bytes more
    than that part, so behind a longer one the key exceeds the limit the
    hashing is there to keep. *)
Theorem getRefKey_byte_length (D : Deps) (nm v kp k : jsstring) (s : Schema) :
  refKeyPrefix s = VStr kp ->
  getRefKey nm v s = Ok k ->
  (byteLength (kp ++ refKeyInfix nm s) <= 211 -> byteLength k <= 250)
  /\ (250 < byteLength ((kp ++ refKeyInfix nm s) ++ foldRefKeyCase nm v s) ->
      byteLength k = byteLength (kp ++ refKeyInfix nm s) + 39)
  /\ (250 < byteLength ((kp ++ refKeyInfix nm s) ++ foldRefKeyCase nm v s) ->
      211 < byteLength (kp ++ refKeyInfix nm s) ->
      250 < byteLength k).
Proof.
  intros P H. rewrite (getRefKey_cases D nm v s P) in H.
  apply Ok_inj in H. subst k.
  destruct (250 <? byteLength ((kp ++ refKeyInfix nm s) ++ foldRefKeyCase nm v s))%nat
    eqn:B.
  - rewrite hashed_byteLength. repeat split; intros; lia.
  - apply Nat.ltb_ge in B. repeat split; intros; lia.
Qed.

Lemma getRefKey_byte_length_witness :
  exists k,
    @getRefKey Reference.deps (js "email") (repeat 97%N 300) Examples.delimited = Ok k
    /\ byteLength k <= 250
    /\ byteLength k = byteLength ([] ++ @refKeyInfix Reference.deps (js "email")
                                          Examples.delimited) + 39.
Proof.
  eexists. split; [vm_compute; reflexivity|].
  split.
  - apply (proj1 (@getRefKey_byte_length Reference.deps (js "email") (repeat 97%N 300)
                    [] _ Examples.delimited eq_refl eq_refl)).
    apply Nat.leb_le. vm_compute. reflexivity.
  - apply (proj1 (proj2 (@getRefKey_byte_length Reference.deps (js "email")
                           (repeat 97%N 300) [] _ Examples.delimited eq_refl eq_refl))).
    apply Nat.ltb_lt. vm_compute. reflexivity.
Defined.

(** X11: the tag [hashed_] does not keep hashed and unhashed values apart:
    when a value is long enough to be hashed and the part in front leaves
    room for the 39 characters of a hashed value, the literal value
    ['hashed_' + md5(v)] gets the same reference key as [v], for an index
    without case folding: one registered with no [refKeyCase], or a name
    under which no index is registered. *)
Theorem getRefKey_tag_collision (D : Deps) (nm v kp : jsstring) (s : Schema) :
  refKeyPrefix s = VStr kp ->
  foldsNoCase nm s ->
  250 < byteLength ((kp ++ refKeyInfix nm s) ++ v) ->
  byteLength (kp ++ refKeyInfix nm s) <= 211 ->
  getRefKey nm (js "hashed_" ++ MD5.hex (utf8 v)) s = getRefKey nm v s
  /\ js "hashed_" ++ MD5.hex (utf8 v) <> v.
Proof.
  intros P I L S.
  assert (F : forall x, foldRefKeyCase nm x s = x).
  { intros x. unfold foldRefKeyCase.
    destruct (olookup nm (indexes s)) as [ix|] eqn:O; [|reflexivity].
    rewrite (I ix O). reflexivity. }
  split.
  - rewrite !(getRefKey_cases D nm _ s P), !F.
    apply Nat.ltb_lt in L. rewrite L.
    assert (B : (250 <? byteLength ((kp ++ refKeyInfix nm s)
                                      ++ js "hashed_" ++ MD5.hex (utf8 v)))%nat = false).
    { apply Nat.ltb_ge. rewrite hashed_byteLength. lia. }
    rewrite B. reflexivity.
  - intros E. rewrite <- E in L. rewrite hashed_byteLength in L. lia.
Qed.

Lemma getRefKey_tag_collision_witness :
  olookup (js "email") (indexes Examples.plainEmail)
  = Some {| path := Single (js "email"); name := js "email"; indexType := js "single";
            compound := false; refKeyCase := None |}
  /\ @getRefKey Reference.deps (js "email")
       (js "hashed_" ++ MD5.hex (utf8 (repeat 97%N 300))) Examples.plainEmail
     = @getRefKey Reference.deps (js "email") (repeat 97%N 300) Examples.plainEmail
  /\ js "hashed_" ++ MD5.hex (utf8 (repeat 97%N 300)) <> repeat 97%N 300.
Proof.
  split; [vm_compute; reflexivity|].
  apply (@getRefKey_tag_collision Reference.deps (js "email") (repeat 97%N 300) []
           Examples.plainEmail).
  - reflexivity.
  - intros ix O. vm_compute in O. injection O as <-. reflexivity.
  - apply Nat.ltb_lt. vm_compute. reflexivity.
  - apply Nat.leb_le. vm_compute. reflexivity.
Defined.



(** ** [extend] *)

Lemma hooks_forEach (h : phase) (ev : jsstring) (fs : list value) :
  forall s, exists s',
    forEach fs (fun fn => _hook h ev fn) s = Returns tt s'
    /\ (forall h' ev',
           hooksFor h' ev' s'
           = if phase_eqb h h' && jsstring_eqb ev ev'
             then hooksFor h ev s ++ fs
             else hooksFor h' ev' s)
    /\ withHooks (hooks s) s' = s.
Proof.
  induction fs as [|fn fs IH]; intros s; simpl.
  - exists s. split; [reflexivity|]. split.
    + intros h' ev'. rewrite app_nil_r.
      destruct (phase_eqb h h' && jsstring_eqb ev ev') eqn:E; [|reflexivity].
      apply andb_true_iff in E. destruct E as [E1 E2].
      apply jsstring_eqb_eq in E2. subst ev'.
      destruct h, h'; try discriminate E1; reflexivity.
    + destruct s; reflexivity.
  - unfold bind. rewrite _hook_eq.
    match goal with |- context [forEach fs _ ?s1] =>
      destruct (IH s1) as [s' [E [Hs' F]]]; exists s'; split; [exact E|];
      assert (H1 : _hook h ev fn s = Returns tt s1) by apply _hook_eq
    end.
    split.
    + intros h' ev'. rewrite Hs'.
      rewrite !(hooksFor_hook _ _ H1).
      assert (Hh : phase_eqb h h = true) by (destruct h; reflexivity).
      rewrite Hh, jsstring_eqb_refl. simpl.
      destruct (phase_eqb h h' && jsstring_eqb ev ev'); [|reflexivity].
      rewrite <- app_assoc. reflexivity.
    + destruct s, s'; unfold withHooks in *; simpl in *; congruence.
Qed.

Lemma hook_dispatch (e : HookData) (fn : value) :
  match hook e with
  | Pre => pre (event e) fn
  | Post => post (event e) fn
  end = _hook (hook e) (event e) fn.
Proof. destruct (hook e); reflexivity. Qed.

Lemma hookKey_eqb_key (h h' : phase) (ev ev' : jsstring) :
  jsstring_eqb (hookKey h ev) (hookKey h' ev') = phase_eqb h' h && jsstring_eqb ev' ev.
Proof. apply hookKey_eqb. Qed.

Lemma hooks_copied (D : Deps) (hb : omap HookData) :
  hooksKeyed hb ->
  forall s, exists s',
    forEach (ovalues hb) (fun e =>
      forEach (fns e) (fun fn =>
        match hook e with
        | Pre => pre (event e) fn
        | Post => post (event e) fn
        end)) s = Returns tt s'
    /\ (forall h ev,
           hooksFor h ev s'
           = hooksFor h ev s
             ++ match olookup (hookKey h ev) hb with
                | Some e => fns e
                | None => []
                end)
    /\ withHooks (hooks s) s' = s.
Proof.
  induction hb as [|[k e] hb IH]; intros [N K] s.
  - exists s. split; [reflexivity|]. split.
    + intros h ev. simpl. rewrite app_nil_r. reflexivity.
    + destruct s; reflexivity.
  - simpl in N. inversion N as [|? ? Nk Nr]. subst.
    assert (Kk : k = hookKey (hook e) (event e)) by (apply K; left; reflexivity).
    assert (Kr : hooksKeyed hb).
    { split; [exact Nr|]. intros k' e' I. apply K. right. exact I. }
    simpl. unfold bind.
    assert (Eq : forEach (fns e) (fun fn =>
                   match hook e with
                   | Pre => pre (event e) fn
                   | Post => post (event e) fn
                   end)
                 = forEach (fns e) (fun fn => _hook (hook e) (event e) fn)).
    { destruct (hook e); reflexivity. }
    rewrite Eq.
    destruct (hooks_forEach (hook e) (event e) (fns e) s) as [s1 [E1 [H1 F1]]].
    rewrite E1.
    destruct (IH Kr s1) as [s' [E' [H' F']]].
    exists s'. split; [exact E'|]. split.
    + intros h ev. rewrite H', H1. subst k. rewrite hookKey_eqb_key.
      destruct (phase_eqb (hook e) h && jsstring_eqb (event e) ev) eqn:B.
      * assert (L : olookup (hookKey h ev) hb = None).
        { apply andb_true_iff in B. destruct B as [B1 B2].
          apply jsstring_eqb_eq in B2. subst ev.
          assert (h = hook e) by (destruct h, (hook e); try discriminate B1; reflexivity).
          subst h.
          destruct (olookup (hookKey (hook e) (event e)) hb) eqn:O; [|reflexivity].
          elim Nk. apply hasOwn_okeys. unfold hasOwn. rewrite O. reflexivity. }
        rewrite L, app_nil_r.
        apply andb_true_iff in B. destruct B as [B1 B2].
        apply jsstring_eqb_eq in B2. subst ev.
        assert (h = hook e) by (destruct h, (hook e); try discriminate B1; reflexivity).
        subst h. reflexivity.
      * reflexivity.
    + destruct s, s1, s'; unfold withHooks in *; simpl in *; congruence.
Qed.

Lemma _cloneProp_assign_preserves (D : Deps) (C : Type) (proj : Schema -> C)
      (other : Schema) (prop : cloned) :
  (forall o s, proj (withProp prop o s) = proj s) ->
  forall s s', _cloneProp other prop false s = Returns tt s' -> proj s' = proj s.
Proof.
  intros P. unfold _cloneProp. apply forEach_preserves. intros p s0 s1 H.
  apply (_cloneProp_assign_step other prop) in H. destruct H as [own [_ ->]].
  destruct (own && _); [apply P|reflexivity].
Qed.

Lemma extend_options_preserves (D : Deps) (C : Type) (proj : Schema -> C) (other : Schema) :
  (forall o s, proj (withOptions o s) = proj s) ->
  forall s s',
    forEach (okeys (options other)) (fun k =>
      own <- hasOwnPropertyCall (options other) k ;;
      if own then
        ours <- get k ;;
        if isUndefined ours then set k (clone (getProp (options other) k))
        else if isPlainObject ours && isPlainObject (getProp (options other) k) then
          set k (merge (clone (getProp (options other) k)) ours)
        else ret tt
      else ret tt)%schema s = Returns tt s' ->
    proj s' = proj s.
Proof.
  intros P. apply forEach_preserves. intros k s0 s1 H.
  apply extend_options_step in H. destruct H as [own [_ ->]].
  destruct own; [|reflexivity].
  destruct (isUndefined (getProp (options s0) k)); [apply P|].
  destruct (isPlainObject (getProp (options s0) k)
            && isPlainObject (getProp (options other) k)); [apply P|reflexivity].
Qed.

Lemma extend_stages (D : Deps) (A B r A' : Schema) :
  extend (Other B) A = Returns r A' ->
  exists s1 s2 s3 s4,
    _cloneProp B Cdescriptor true A = Returns tt s1
    /\ _cloneProp B Cstatics false s1 = Returns tt s2
    /\ _cloneProp B Cmethods false s2 = Returns tt s3
    /\ forEach (okeys (options B)) (fun k =>
         own <- hasOwnPropertyCall (options B) k ;;
         if own then
           ours <- get k ;;
           if isUndefined ours then set k (clone (getProp (options B) k))
           else if isPlainObject ours && isPlainObject (getProp (options B) k) then
             set k (merge (clone (getProp (options B) k)) ours)
           else ret tt
         else ret tt)%schema s3 = Returns tt s4
    /\ forEach (ovalues (hooks B)) (fun e =>
         forEach (fns e) (fun fn =>
           match hook e with
           | Pre => pre (event e) fn
           | Post => post (event e) fn
           end)) s4 = Returns tt A'
    /\ r = A'.
Proof.
  unfold extend. intros H.
  apply bind_returns in H. destruct H as [[] [s1 [E1 H]]].
  apply bind_returns in H. destruct H as [[] [s2 [E2 H]]].
  apply bind_returns in H. destruct H as [[] [s3 [E3 H]]].
  apply bind_returns in H. destruct H as [[] [s4 [E4 H]]].
  apply bind_returns in H. destruct H as [[] [s5 [E5 H]]].
  injection H as <- <-.
  exists s1, s2, s3, s4. auto 10.
Qed.

Lemma In_olookup (A : Type) (k : jsstring) (e : A) (o : omap A) :
  NoDup (okeys o) -> In (k, e) o -> olookup k o = Some e.
Proof.
  induction o as [|[k0 v0] o IH]; simpl; intros N I; [destruct I|].
  inversion N as [|? ? Nk Nr]. subst.
  destruct I as [I|I].
  - injection I as -> ->. rewrite jsstring_eqb_refl. reflexivity.
  - destruct (jsstring_eqb k k0) eqn:E.
    + apply jsstring_eqb_eq in E. subst k0. elim Nk.
      unfold okeys. apply in_map_iff. exists (k, e). auto.
    + apply IH; assumption.
Qed.

Lemma olookup_In (A : Type) (k : jsstring) (e : A) (o : omap A) :
  olookup k o = Some e -> In (k, e) o.
Proof.
  induction o as [|[k0 v0] o IH]; simpl; [intros H; discriminate H|].
  destruct (jsstring_eqb k k0) eqn:E.
  - apply jsstring_eqb_eq in E. subst k0. intros H. injection H as ->. auto.
  - intros H. right. apply IH. exact H.
Qed.

Lemma hooksKeyed_hook (h : phase) (ev : jsstring) (fn : value) (s s' : Schema) :
  hooksKeyed (hooks s) -> _hook h ev fn s = Returns tt s' -> hooksKeyed (hooks s').
Proof.
  intros [N K]. rewrite _hook_eq. intros H. injection H as <-. simpl.
  split; [apply NoDup_okeys_oset; exact N|].
  intros k e I.
  apply In_olookup in I; [|apply NoDup_okeys_oset; exact N].
  rewrite olookup_oset in I.
  destruct (jsstring_eqb k (hookKey h ev)) eqn:E.
  - apply jsstring_eqb_eq in E. subst k. injection I as <-.
    destruct (olookup (hookKey h ev) (hooks s)) as [e0|] eqn:L; simpl; [|reflexivity].
    apply K. apply olookup_In. exact L.
  - apply K. apply olookup_In. exact I.
Qed.

Lemma forEach_invariant (B : Type) (P : Schema -> Prop) (body : B -> M unit) (l : list B) :
  (forall x s s', P s -> body x s = Returns tt s' -> P s') ->
  forall s s', P s -> forEach l body s = Returns tt s' -> P s'.
Proof.
  intros H. induction l as [|x l IH]; simpl; intros s s' Ps E.
  - injection E as <-. exact Ps.
  - apply bind_returns in E. destruct E as [[] [s1 [E1 E2]]].
    apply (IH s1 s'); [|exact E2]. apply (H x s s1 Ps E1).
Qed.

Lemma extend_hooks_before (D : Deps) (A B r A' : Schema) :
  extend (Other B) A = Returns r A' ->
  exists s4,
    hooks s4 = hooks A
    /\ forEach (ovalues (hooks B)) (fun e =>
         forEach (fns e) (fun fn =>
           match hook e with
           | Pre => pre (event e) fn
           | Post => post (event e) fn
           end)) s4 = Returns tt A'.
Proof.
  intros H.
  destruct (extend_stages D A B H) as [s1 [s2 [s3 [s4 [E1 [E2 [E3 [E4 [E5 _]]]]]]]]].
  exists s4. split; [|exact E5].
  rewrite (extend_options_preserves D hooks B (fun _ _ => eq_refl) _ E4).
  rewrite (_cloneProp_assign_preserves D hooks B Cmethods (fun _ _ => eq_refl) _ E3).
  rewrite (_cloneProp_assign_preserves D hooks B Cstatics (fun _ _ => eq_refl) _ E2).
  apply (_cloneProp_descriptor_frame hooks (fun _ _ => eq_refl) (fun _ _ => eq_refl)
           (fun _ _ => eq_refl) (fun _ _ => eq_refl) B A E1).
Qed.

(** X13: [extend] replays the hooks of the other schema on the receiver:
    for every phase and event the receiver afterwards holds its own
    functions followed by the other schema's, in their order; a function
    both schemas registered is held twice.  The shape [_hook] gives the
    hooks (one entry for each phase and event, stored under its key) is
    the one a new schema has, and it is kept by [_hook] and by [extend]. *)
Theorem extend_copies_hooks (D : Deps) (A B r A' : Schema) :
  extend (Other B) A = Returns r A' ->
  hooksKeyed (hooks B) ->
  (forall h ev, hooksFor h ev A' = hooksFor h ev A ++ hooksFor h ev B)
  /\ (hooksKeyed (hooks A) -> hooksKeyed (hooks A'))
  /\ (forall h ev fn s', _hook h ev fn B = Returns tt s' -> hooksKeyed (hooks s'))
  /\ (forall descr opts s, construct descr opts = Returns tt s -> hooksKeyed (hooks s)).
Proof.
  intros H KB.
  destruct (@extend_hooks_before D A B r A' H) as [s4 [H4 E5]].
  split; [|split; [|split]]; cycle 3.
  { intros descr opts s C.
    destruct (construct_frame hooks descr opts
                (fun _ _ => eq_refl) (fun _ _ => eq_refl) C) as [mid [Ad [_ ->]]].
    apply (add_frame hooks (fun _ _ => eq_refl) (fun _ _ => eq_refl)
             (fun _ _ => eq_refl) (fun _ _ => eq_refl)) in Ad.
    rewrite Ad. split; [apply NoDup_nil|intros k e []]. }
  - intros h ev.
    destruct (hooks_copied D KB s4) as [s' [E' [C _]]].
    rewrite E5 in E'. injection E' as <-.
    rewrite C. unfold hooksFor. rewrite H4. reflexivity.
  - intros KA. rewrite <- H4 in KA.
    refine (forEach_invariant (fun s => hooksKeyed (hooks s)) _ _ _ s4 KA E5).
    intros e s0 s1 K0 E0.
    refine (forEach_invariant (fun s => hooksKeyed (hooks s)) _ _ _ s0 K0 E0).
    intros fn s2 s3 K2. rewrite hook_dispatch. apply hooksKeyed_hook. exact K2.
  - intros h ev fn s' E. apply (hooksKeyed_hook KB E).
Qed.

Lemma extend_copies_hooks_witness :
  exists s',
    @extend Reference.deps (Other Examples.hookedB) Examples.hookedA = Returns s' s'
    /\ hooksFor Pre (js "save") s' = [VFun 21; VFun 23]
    /\ hooksFor Post (js "save") s' = [VFun 22].
Proof.
  assert (KB : hooksKeyed (hooks Examples.hookedB)).
  { split.
    - apply NoDup_cons; [simpl; intros [E|[]]; discriminate E|].
      apply NoDup_cons; [intros []|apply NoDup_nil].
    - intros k e I. simpl in I.
      destruct I as [I|[I|[]]]; injection I as <- <-; reflexivity. }
  eexists. split; [vm_compute; reflexivity|].
  split.
  - rewrite (proj1 (@extend_copies_hooks Reference.deps Examples.hookedA Examples.hookedB
                      _ _ eq_refl KB)).
    reflexivity.
  - rewrite (proj1 (@extend_copies_hooks Reference.deps Examples.hookedA Examples.hookedB
                      _ _ eq_refl KB)).
    reflexivity.
Defined.

Lemma extend_options_visit (D : Deps) (other : Schema) (k : jsstring) (s : Schema) :
  hasOwn (options other) (js "hasOwnProperty") = false ->
  (own <- hasOwnPropertyCall (options other) k ;;
   if own then
     ours <- get k ;;
     if isUndefined ours then set k (clone (getProp (options other) k))
     else if isPlainObject ours && isPlainObject (getProp (options other) k) then
       set k (merge (clone (getProp (options other) k)) ours)
     else ret tt
   else ret tt)%schema s
  = Returns tt (withOptions (optionVisited other k (options s)) s).
Proof.
  intros Hp. unfold optionVisited.
  unfold bind at 1. rewrite (hasOwnPropertyCall_plain _ k s Hp).
  cbv beta delta [bind get set this update ret].
  destruct (hasOwn (options other) k); [|destruct s; reflexivity].
  destruct (isUndefined (getProp (options s) k)); [reflexivity|].
  destruct (isPlainObject (getProp (options s) k)
            && isPlainObject (getProp (options other) k));
    [reflexivity|destruct s; reflexivity].
Qed.

Lemma fold_withOptions (g : jsstring -> obj -> obj) (l : list jsstring) (s : Schema) :
  fold_left (fun s k => withOptions (g k (options s)) s) l s
  = withOptions (fold_left (fun o k => g k o) l (options s)) s.
Proof.
  revert s. induction l as [|k l IH]; intros s; simpl.
  - destruct s; reflexivity.
  - rewrite IH. reflexivity.
Qed.

Lemma getProp_optionVisited_same (D : Deps) (other : Schema) (k : jsstring) (o : obj) :
  getProp (optionVisited other k o) k
  = if hasOwn (options other) k then
      if isUndefined (getProp o k) then getProp (options other) k
      else if isPlainObject (getProp o k) && isPlainObject (getProp (options other) k)
           then merge (getProp (options other) k) (getProp o k)
           else getProp o k
    else getProp o k.
Proof.
  unfold optionVisited, clone.
  destruct (hasOwn (options other) k); [|reflexivity].
  destruct (isUndefined (getProp o k)); [apply getProp_oset_same|].
  destruct (isPlainObject (getProp o k) && _); [apply getProp_oset_same|reflexivity].
Qed.

Lemma getProp_optionVisited_other (D : Deps) (other : Schema) (k k' : jsstring) (o : obj) :
  k <> k' -> getProp (optionVisited other k' o) k = getProp o k.
Proof.
  intros N. unfold optionVisited.
  destruct (hasOwn (options other) k'); [|reflexivity].
  destruct (isUndefined (getProp o k')); [apply getProp_oset_other; exact N|].
  destruct (isPlainObject (getProp o k') && _);
    [apply getProp_oset_other; exact N|reflexivity].
Qed.

Lemma getProp_fold_optionVisited (D : Deps) (other : Schema) (k : jsstring)
      (ks : list jsstring) :
  NoDup ks ->
  forall o,
    getProp (fold_left (fun o k' => optionVisited other k' o) ks o) k
    = if existsb (jsstring_eqb k) ks then getProp (optionVisited other k o) k
      else getProp o k.
Proof.
  induction ks as [|k' ks IH]; intros N o; simpl; [reflexivity|].
  inversion N as [|? ? Nk Nr]. subst.
  rewrite (IH Nr).
  destruct (jsstring_eqb k k') eqn:E; simpl.
  - apply jsstring_eqb_eq in E. subst k'.
    assert (X : existsb (jsstring_eqb k) ks = false).
    { destruct (existsb (jsstring_eqb k) ks) eqn:X; [|reflexivity].
      apply existsb_exists in X. destruct X as [x [I Ex]].
      apply jsstring_eqb_eq in Ex. subst x. elim (Nk I). }
    rewrite X. reflexivity.
  - assert (Nkk : k <> k') by (apply jsstring_eqb_neq; exact E).
    rewrite !getProp_optionVisited_same.
    rewrite (getProp_optionVisited_other D other o Nkk). reflexivity.
Qed.

Lemma NoDup_okeys_lodash_extend (target source : obj) :
  NoDup (okeys target) -> NoDup (okeys (lodash_extend target source)).
Proof.
  unfold lodash_extend. generalize (okeys source). intros ks. revert target.
  induction ks as [|k ks IH]; intros target N; simpl; [exact N|].
  apply IH. apply NoDup_okeys_oset. exact N.
Qed.

Lemma hooks_loop_preserves (D : Deps) (C : Type) (proj : Schema -> C) (other : Schema) :
  (forall o s, proj (withHooks o s) = proj s) ->
  forall s s',
    forEach (ovalues (hooks other)) (fun e =>
      forEach (fns e) (fun fn =>
        match hook e with
        | Pre => pre (event e) fn
        | Post => post (event e) fn
        end)) s = Returns tt s' ->
    proj s' = proj s.
Proof.
  intros P. apply forEach_preserves. intros e s0 s1.
  apply forEach_preserves. intros fn s2 s3.
  rewrite hook_dispatch, _hook_eq. intros H. injection H as <-. apply P.
Qed.

(** X14: what [extend] leaves in the options of the receiver, when the
    other schema has no option called [hasOwnProperty] (the loop of line 535
    would call it) and none called [__proto__].  An option the other schema
    does not own is read as before.  One it owns is taken from the other
    schema when the receiver reads [undefined] under that name, merged with
    [_.merge] (the receiver's value on top of a copy of the other's) when
    both hold plain objects, and kept otherwise: a value of the receiver
    that is [false], [null] or the empty string is not replaced.  (The names
    of the other schema's options are distinct, as they are in the options
    of a new schema and after [set].) *)
Theorem extend_options (D : Deps) (A B r A' : Schema) :
  extend (Other B) A = Returns r A' ->
  hasOwn (options B) (js "hasOwnProperty") = false ->
  hasOwn (options B) protoName = false ->
  NoDup (okeys (options B)) ->
  (forall k,
      get k A'
      = Returns
          (if hasOwn (options B) k then
             if isUndefined (getProp (options A) k) then getProp (options B) k
             else if isPlainObject (getProp (options A) k)
                     && isPlainObject (getProp (options B) k)
                  then merge (getProp (options B) k) (getProp (options A) k)
                  else getProp (options A) k
           else getProp (options A) k) A')
  /\ (forall k v,
         olookup k (options A) = Some v ->
         isUndefined v = false -> isPlainObject v = false ->
         get k A' = Returns v A')
  /\ (forall descr opts s,
         construct descr opts = Returns tt s -> NoDup (okeys (options s)))
  /\ (forall k v s', set k v B = Returns tt s' -> NoDup (okeys (options s'))).
Proof.
  intros H Hp _ N.
  destruct (extend_stages D A B H) as [s1 [s2 [s3 [s4 [E1 [E2 [E3 [E4 [E5 _]]]]]]]]].
  assert (O3 : options s3 = options A).
  { rewrite (_cloneProp_assign_preserves D options B Cmethods (fun _ _ => eq_refl) _ E3).
    rewrite (_cloneProp_assign_preserves D options B Cstatics (fun _ _ => eq_refl) _ E2).
    apply (_cloneProp_descriptor_frame options (fun _ _ => eq_refl) (fun _ _ => eq_refl)
             (fun _ _ => eq_refl) (fun _ _ => eq_refl) B A E1). }
  assert (O5 : options A' = options s4).
  { apply (hooks_loop_preserves D options B (fun _ _ => eq_refl) _ E5). }
  assert (O4 : options s4
               = fold_left (fun o k => optionVisited B k o) (okeys (options B)) (options s3)).
  { rewrite (forEach_update_In
               (fun k s => withOptions (optionVisited B k (options s)) s)) in E4.
    - injection E4 as <-.
      rewrite (fold_withOptions (fun k o => optionVisited B k o)). reflexivity.
    - intros k _ s0. apply extend_options_visit. exact Hp. }
  assert (G : forall k,
             getProp (options A') k
             = if hasOwn (options B) k then
                 if isUndefined (getProp (options A) k) then getProp (options B) k
                 else if isPlainObject (getProp (options A) k)
                         && isPlainObject (getProp (options B) k)
                      then merge (getProp (options B) k) (getProp (options A) k)
                      else getProp (options A) k
               else getProp (options A) k).
  { intros k. rewrite O5, O4, O3.
    rewrite (getProp_fold_optionVisited D B k N), existsb_okeys.
    destruct (hasOwn (options B) k) eqn:Ob; [|reflexivity].
    rewrite getProp_optionVisited_same, Ob. reflexivity. }
  split; [|split; [|split]].
  - intros k. unfold get, bind, this, ret. rewrite G. reflexivity.
  - intros k v L U P. unfold get, bind, this, ret. rewrite G.
    rewrite (getProp_own _ _ L), U, P. simpl.
    destruct (hasOwn (options B) k); reflexivity.
  - intros descr opts s C.
    destruct (construct_frame options descr opts
                (fun _ _ => eq_refl) (fun _ _ => eq_refl) C) as [mid [Ad [_ ->]]].
    apply (add_frame options (fun _ _ => eq_refl) (fun _ _ => eq_refl)
             (fun _ _ => eq_refl) (fun _ _ => eq_refl)) in Ad.
    rewrite Ad. simpl. apply NoDup_okeys_lodash_extend.
    apply NoDup_cons; [simpl; intros [E|[]]; discriminate E|].
    apply NoDup_cons; [intros []|apply NoDup_nil].
  - intros k v s' E. unfold set, update in E. injection E as <-. simpl.
    apply NoDup_okeys_oset. exact N.
Qed.

Lemma extend_options_witness :
  exists s',
    @extend Reference.deps (Other Examples.users) Examples.lax = Returns s' s'
    /\ @get (js "strict") s' = Returns (VBool false) s'
    /\ @get (js "keyPrefix") s' = Returns (VStr (js "user::")) s'.
Proof.
  assert (N : NoDup (okeys (options Examples.users))).
  { vm_compute.
    repeat (apply NoDup_cons; [simpl; intuition discriminate|]). apply NoDup_nil. }
  eexists. split; [vm_compute; reflexivity|].
  split.
  - apply (proj1 (proj2 (@extend_options Reference.deps Examples.lax Examples.users _ _
                           eq_refl eq_refl eq_refl N))
             (js "strict") (VBool false)); reflexivity.
  - refine (eq_trans (proj1 (@extend_options Reference.deps Examples.lax Examples.users
                               _ _ eq_refl eq_refl eq_refl N) (js "keyPrefix")) _).
    vm_compute. reflexivity.
Defined.

Lemma add_hasOwn_mono (D : Deps) (k : addKey) (descr : value) (s s' : Schema) (x : jsstring) :
  add k descr s = Returns tt s' ->
  hasOwn (descriptor s) x = true -> hasOwn (descriptor s') x = true.
Proof.
  intros H O.
  destruct (add_shape k descr s) as [mid [E [_ M]]].
  rewrite E in H. apply _applyDocumentKey_returns in H.
  destruct H as [M' _]. apply M'. apply M. exact O.
Qed.

Lemma add_stores (D : Deps) (p : jsstring) (descr : value) (s s' : Schema) :
  p <> [] -> truthy descr = true ->
  add (KeyName p) descr s = Returns tt s' ->
  hasOwn (descriptor s') p = true.
Proof.
  intros Np Td H.
  rewrite add_both in H by (simpl; rewrite Td; destruct p; [congruence|reflexivity]).
  apply _applyDocumentKey_returns in H. destruct H as [M _].
  apply M. simpl. rewrite hasOwn_oset, jsstring_eqb_refl. reflexivity.
Qed.

Lemma getProp_not_own (o o' : obj) (p : jsstring) :
  hasOwn o p = false -> hasOwn o' p = false -> getProp o p = getProp o' p.
Proof.
  unfold hasOwn, getProp.
  destruct (olookup p o); [intros H; discriminate H|].
  destruct (olookup p o'); [intros _ H; discriminate H|reflexivity].
Qed.

Lemma ownsMember_descriptor_returns (D : Deps) (o : obj) (p : jsstring) (s s' : Schema) (own : bool) :
  ownsMember Cdescriptor o p s = Returns own s' -> own = hasOwn o p.
Proof.
  simpl. rewrite descriptorOwns_cases.
  destruct (hasOwn o (js "hasOwnProperty")); intros H; [discriminate H|].
  injection H as <- _. reflexivity.
Qed.

Lemma _cloneProp_descriptor_names (D : Deps) (B : Schema) (ks : list jsstring) :
  forall s s',
    forEach ks (fun p =>
      own <- ownsMember Cdescriptor (descriptor B) p ;;
      s0 <- this ;;
      if own && negb (truthy (getProp (descriptor s0) p)) then
        add (KeyName p) (clone (getProp (descriptor B) p))
      else ret tt)%schema s = Returns tt s' ->
    (forall x, hasOwn (descriptor s) x = true -> hasOwn (descriptor s') x = true)
    /\ (forall p,
           In p ks -> hasOwn (descriptor B) p = true -> p <> [] ->
           truthy (getProp (descriptor B) p) = true ->
           truthy (getProp (descriptor s) p) = false ->
           hasOwn (descriptor s') p = true).
Proof.
  induction ks as [|q ks IH]; intros s s' H; simpl in H.
  - injection H as <-. split; [auto|]. intros p [].
  - apply bind_returns in H. destruct H as [[] [s1 [E1 H]]].
    destruct (IH s1 s' H) as [M1 C1].
    apply (_cloneProp_step B Cdescriptor true) in E1. destruct E1 as [own [Eo E1]].
    apply ownsMember_descriptor_returns in Eo. subst own. simpl propOf in E1.
    assert (M0 : forall x, hasOwn (descriptor s) x = true -> hasOwn (descriptor s1) x = true).
    { intros x O.
      destruct (hasOwn (descriptor B) q && _).
      - apply (@add_hasOwn_mono D _ _ _ _ x E1 O).
      - injection E1 as <-. exact O. }
    split; [intros x O; apply M1, M0, O|].
    intros p I Ob Np Tb Fa.
    destruct (hasOwn (descriptor s1) p) eqn:O1; [apply M1; exact O1|].
    assert (O0 : hasOwn (descriptor s) p = false).
    { destruct (hasOwn (descriptor s) p) eqn:O0; [|reflexivity].
      rewrite (M0 p O0) in O1. discriminate O1. }
    destruct I as [->|I].
    + rewrite Ob, Fa in E1. simpl in E1.
      rewrite (@add_stores D p _ _ _ Np Tb E1) in O1. discriminate O1.
    + apply (C1 p I Ob Np Tb).
      rewrite <- (@getProp_not_own _ _ p O0 O1). exact Fa.
Qed.

(** X15: [extend] never removes a property of the receiver's descriptor,
    and it adds every property of the other schema's descriptor that has a
    non-empty name and under whose name the receiver reads a falsy value (a
    name every object inherits, such as [constructor], reads as a function
    and is therefore not copied).  The properties are added with [add], so
    the document key is applied again each time, and the key property the
    receiver names afterwards is one of its descriptor. *)
Theorem extend_descriptor (D : Deps) (A B r A' : Schema) :
  extend (Other B) A = Returns r A' ->
  (forall x, hasOwn (descriptor A) x = true -> hasOwn (descriptor A') x = true)
  /\ (forall p,
         hasOwn (descriptor B) p = true -> p <> [] ->
         truthy (getProp (descriptor B) p) = true ->
         truthy (getProp (descriptor A) p) = false ->
         hasOwn (descriptor A') p = true)
  /\ (hasOwn (descriptor A) (docKeyKey (key A)) = true ->
      hasOwn (descriptor A') (docKeyKey (key A')) = true).
Proof.
  intros H.
  destruct (extend_stages D A B H) as [s1 [s2 [s3 [s4 [E1 [E2 [E3 [E4 [E5 _]]]]]]]]].
  assert (Dd : descriptor A' = descriptor s1).
  { rewrite (hooks_loop_preserves D descriptor B (fun _ _ => eq_refl) _ E5).
    rewrite (extend_options_preserves D descriptor B (fun _ _ => eq_refl) _ E4).
    rewrite (_cloneProp_assign_preserves D descriptor B Cmethods (fun _ _ => eq_refl) _ E3).
    apply (_cloneProp_assign_preserves D descriptor B Cstatics (fun _ _ => eq_refl) _ E2). }
  assert (Dk : key A' = key s1).
  { rewrite (hooks_loop_preserves D key B (fun _ _ => eq_refl) _ E5).
    rewrite (extend_options_preserves D key B (fun _ _ => eq_refl) _ E4).
    rewrite (_cloneProp_assign_preserves D key B Cmethods (fun _ _ => eq_refl) _ E3).
    apply (_cloneProp_assign_preserves D key B Cstatics (fun _ _ => eq_refl) _ E2). }
  rewrite Dd, Dk.
  destruct (_cloneProp_descriptor_names D B (okeys (descriptor B)) A E1) as [M C].
  split; [exact M|]. split.
  - intros p Ob. apply (C p); [apply hasOwn_okeys; exact Ob|exact Ob].
  - intros I.
    refine (forEach_invariant
              (fun s => hasOwn (descriptor s) (docKeyKey (key s)) = true)
              _ _ _ A I E1).
    intros p s0 s0' I0 Ea.
    apply (_cloneProp_step B Cdescriptor true) in Ea. destruct Ea as [own [_ Ea]].
    destruct (own && negb (truthy (getProp (propOf Cdescriptor s0) p))).
    + apply (proj2 (add_key_invariant _ _ _ Ea)). right. exact I0.
    + injection Ea as <-. exact I0.
Qed.

Lemma extend_descriptor_witness :
  exists s',
    @extend Reference.deps (Other Examples.named) Examples.empty = Returns s' s'
    /\ hasOwn (descriptor s') (js "name") = true
    /\ hasOwn (descriptor s') (docKeyKey (key s')) = true.
Proof.
  eexists. split; [vm_compute; reflexivity|].
  split.
  - apply (proj1 (proj2 (@extend_descriptor Reference.deps Examples.empty Examples.named
                           _ _ eq_refl)) (js "name")).
    + reflexivity.
    + discriminate.
    + reflexivity.
    + reflexivity.
  - apply (proj2 (proj2 (@extend_descriptor Reference.deps Examples.empty Examples.named
                           _ _ eq_refl))).
    reflexivity.
Defined.

(** ** A call of [add] that throws *)









(** ** The key settings of a new schema *)

Lemma finished_prefix (s : Schema) :
  prefix (key (finished s))
  = if negb (truthy (prefix (key s))) && isString (getProp (options s) (js "keyPrefix"))
    then getProp (options s) (js "keyPrefix")
    else prefix (key s).
Proof.
  unfold finished.
  destruct (negb (truthy (prefix (key s))) && _);
    destruct (truthy (getProp (options s) (js "dynamicKey")));
    destruct (negb (truthy (suffix (key s))) && _); reflexivity.
Qed.

Lemma finished_suffix (s : Schema) :
  suffix (key (finished s))
  = if negb (truthy (suffix (key s))) && isString (getProp (options s) (js "keySuffix"))
    then getProp (options s) (js "keySuffix")
    else suffix (key s).
Proof.
  unfold finished.
  destruct (negb (truthy (prefix (key s))) && _);
    destruct (truthy (getProp (options s) (js "dynamicKey")));
    destruct (negb (truthy (suffix (key s))) && _); reflexivity.
Qed.

Lemma getProp_defaults (opts : obj) (k : jsstring) :
  isInherited k = false -> hasOwn defaultOptions k = false ->
  getProp (lodash_extend defaultOptions opts) k = getProp opts k.
Proof.
  intros I Hd. rewrite getProp_lodash_extend.
  destruct (hasOwn opts k) eqn:O; [reflexivity|].
  unfold getProp, hasOwn in *.
  destruct (olookup k opts); [discriminate O|].
  destruct (olookup k defaultOptions); [discriminate Hd|]. reflexivity.
Qed.

(** X17: with a descriptor that marks no property as key, and that has
    no property called [hasOwnProperty] (at which the call of line 113
    throws) or [__proto__], the constructor returns and the key settings
    come from the options alone: the key property is the synthesized [id],
    generated; the prefix and the suffix are [keyPrefix] and [keySuffix]
    when these are strings (the empty string included) and [null]
    otherwise; [dynamicKey] is the option of that name when it is truthy, a
    function or not. *)
Theorem construct_key_settings (D : Deps) (descr opts : obj) :
  hasOwn descr (js "hasOwnProperty") = false ->
  hasOwn descr protoName = false ->
  (forall p, hasOwn descr p = true ->
             isKeyProperty (normalizeProperties (getProp descr p) (VStr p)) = false) ->
  exists s,
    construct descr opts = Returns tt s
    /\ key s
       = {| docKeyKey := js "id";
            prefix := if isString (getProp opts (js "keyPrefix"))
                      then getProp opts (js "keyPrefix") else VNull;
            suffix := if isString (getProp opts (js "keySuffix"))
                      then getProp opts (js "keySuffix") else VNull;
            generate := true;
            dynamicKey := if truthy (getProp opts (js "dynamicKey"))
                          then getProp opts (js "dynamicKey") else VUndefined |}.
Proof.
  intros Hs _ Hnone. rewrite construct_eq, add_KeyMap by reflexivity.
  rewrite _applyDocumentKey_synthesizes.
  2: { simpl. rewrite hasOwn_storedMap, Hs. reflexivity. }
  - eexists. split; [reflexivity|].
    unfold finished, synthesized. simpl.
    rewrite !recorded_key.
    rewrite !(recorded_frame options) by reflexivity.
    simpl.
    rewrite !getProp_defaults by reflexivity.
    destruct (isString (getProp opts (js "keyPrefix")));
      destruct (truthy (getProp opts (js "dynamicKey")));
      destruct (isString (getProp opts (js "keySuffix")));
      simpl; rewrite ?recorded_key; reflexivity.
  - intros p Hp. simpl in Hp. rewrite hasOwn_storedMap in Hp. simpl.
    change (hasOwn (@nil (jsstring * value)) p) with false in Hp.
    rewrite orb_false_r in Hp.
    unfold getProp at 1. rewrite olookup_storedMap, Hp. apply Hnone. exact Hp.
  - simpl. rewrite recorded_key. reflexivity.
Qed.

Lemma construct_key_settings_witness :
  exists s,
    @construct Reference.deps [(js "name", VCtor CString)]
      [(js "keyPrefix", VStr (js "user::")); (js "keySuffix", VBool true)]
    = Returns tt s
    /\ key s
       = {| docKeyKey := js "id"; prefix := VStr (js "user::"); suffix := VNull;
            generate := true; dynamicKey := VUndefined |}.
Proof.
  apply (@construct_key_settings Reference.deps [(js "name", VCtor CString)]
           [(js "keyPrefix", VStr (js "user::")); (js "keySuffix", VBool true)]);
    [reflexivity|reflexivity|].
  intros p Hp. unfold hasOwn in Hp. simpl in Hp.
  destruct (jsstring_eqb p (js "name")) eqn:E; [|discriminate Hp].
  apply jsstring_eqb_eq in E. subst p. reflexivity.
Defined.

Lemma applyLoop_single (D : Deps) (p : jsstring) (ks : list jsstring) :
  forall (b : bool) (s : Schema),
    NoDup ks -> In p ks ->
    hasOwn (descriptor s) (js "hasOwnProperty") = false ->
    hasOwn (descriptor s) p = true ->
    isKeyProperty (getProp (descriptor s) p) = true ->
    keyConflict (getProp (descriptor s) p) = false ->
    (forall q, In q ks -> q <> p -> isKeyProperty (getProp (descriptor s) q) = false) ->
    foldM applyDocumentKeyTo b ks s = Returns true (keyApplied p s).
Proof.
  induction ks as [|k ks IH]; intros b s N I Hs Hp K C O; [destruct I|].
  inversion N as [|? ? Nk Nr]. subst.
  simpl. unfold bind. rewrite applyDocumentKeyTo_cases, Hs.
  destruct (jsstring_eqb k p) eqn:E.
  - apply jsstring_eqb_eq in E. subst k.
    destruct (keyConflict_false _ C) as [C1 [C2 C3]].
    rewrite Hp, K, C1, C2, C3. cbn [andb].
    apply applyLoop_none.
    + rewrite keyApplied_descriptor, hasOwn_oset, Hs, orb_false_r.
      apply jsstring_eqb_neq. intros <-. congruence.
    + intros q Iq.
      assert (Nq : q <> p) by (intros ->; elim (Nk Iq)).
      rewrite keyApplied_descriptor, getProp_oset_other by exact Nq.
      apply O; [right; exact Iq|exact Nq].
  - assert (Nkp : k <> p) by (apply jsstring_eqb_neq; exact E).
    rewrite (O k (or_introl eq_refl) Nkp), andb_false_r.
    destruct I as [I|I]; [congruence|].
    apply IH; try assumption.
    intros q Iq. apply O. right. exact Iq.
Qed.

(** X18: with a descriptor in which exactly one property [p] is marked as
    key, and acceptably so, and which has no property called
    [hasOwnProperty] (at which the call of line 113 throws) or [__proto__],
    the constructor returns with [p] as the key property and synthesizes no
    [id].  [generate] is the boolean the
    property gives and [false] when it gives none.  The prefix is the
    property's [prefix] when that is a non-empty string, else [keyPrefix]
    of the options when that is a string, so that an empty prefix on the
    property gives way to the option; likewise for the suffix.  The
    property is stored normalized a second time. *)
Theorem construct_with_key (D : Deps) (descr opts : obj) (p : jsstring) :
  hasOwn descr (js "hasOwnProperty") = false ->
  hasOwn descr protoName = false ->
  hasOwn descr p = true ->
  isKeyProperty (normalizeProperties (getProp descr p) (VStr p)) = true ->
  keyConflict (normalizeProperties (getProp descr p) (VStr p)) = false ->
  (forall q, hasOwn descr q = true -> q <> p ->
             isKeyProperty (normalizeProperties (getProp descr q) (VStr q)) = false) ->
  exists s,
    construct descr opts = Returns tt s
    /\ docKeyKey (key s) = p
    /\ generate (key s)
       = match field (normalizeProperties (getProp descr p) (VStr p)) (js "generate") with
         | VBool b => b
         | _ => false
         end
    /\ prefix (key s)
       = (let own := field (normalizeProperties (getProp descr p) (VStr p)) (js "prefix") in
          if isString own && truthy own then own
          else if isString (getProp opts (js "keyPrefix"))
               then getProp opts (js "keyPrefix")
               else if isString own then own else VNull)
    /\ suffix (key s)
       = (let own := field (normalizeProperties (getProp descr p) (VStr p)) (js "suffix") in
          if isString own && truthy own then own
          else if isString (getProp opts (js "keySuffix"))
               then getProp opts (js "keySuffix")
               else if isString own then own else VNull)
    /\ olookup p (descriptor s)
       = Some (normalizeProperties (normalizeProperties (getProp descr p) (VStr p)) (VStr p))
    /\ (forall q, q <> p -> hasOwn (descriptor s) q = hasOwn descr q).
Proof.
  intros Hs _ Hp K C O. rewrite construct_eq, add_KeyMap by reflexivity.
  set (mid := withDescriptor (storedMap descr (descriptor (initialSchema opts)))
                (recorded (VObj descr) VUndefined (initialSchema opts))).
  assert (Gp : getProp (descriptor mid) p = normalizeProperties (getProp descr p) (VStr p)).
  { simpl. unfold getProp at 1. rewrite olookup_storedMap, Hp. reflexivity. }
  assert (L : foldM applyDocumentKeyTo false (okeys (descriptor mid)) mid
              = Returns true (keyApplied p mid)).
  { apply applyLoop_single.
    - simpl. apply NoDup_okeys_storedMap. apply NoDup_nil.
    - apply hasOwn_okeys. simpl. rewrite hasOwn_storedMap, Hp. reflexivity.
    - simpl. rewrite hasOwn_storedMap, Hs. reflexivity.
    - simpl. rewrite hasOwn_storedMap, Hp. reflexivity.
    - rewrite Gp. exact K.
    - rewrite Gp. exact C.
    - intros q Iq Nq. apply hasOwn_okeys in Iq. simpl in Iq.
      rewrite hasOwn_storedMap in Iq.
      change (hasOwn (descriptor (initialSchema opts)) q) with false in Iq.
      rewrite orb_false_r in Iq.
      simpl. unfold getProp at 1. rewrite olookup_storedMap, Iq. apply O; assumption. }
  assert (Ko : key mid = initialKey) by (simpl; apply recorded_key).
  assert (Oo : options mid = lodash_extend defaultOptions opts).
  { simpl. rewrite (recorded_frame options) by reflexivity. reflexivity. }
  assert (Dm : forall q, hasOwn (descriptor mid) q = hasOwn descr q).
  { intros q. simpl. rewrite hasOwn_storedMap.
    change (hasOwn (descriptor (initialSchema opts)) q) with false.
    apply orb_false_r. }
  unfold _applyDocumentKey, bind, this. rewrite L.
  clearbody mid. cbn [negb andb]. unfold ret.
  eexists. split; [reflexivity|].
  rewrite finished_docKeyKey, finished_generate, finished_descriptor.
  split; [reflexivity|].
  split; [unfold keyApplied; cbn [key withDescriptor withKey keyFrom generate];
          rewrite Gp; reflexivity|].
  assert (Ok' : options (keyApplied p mid) = lodash_extend defaultOptions opts)
    by exact Oo.
  assert (Kk : key (keyApplied p mid)
               = keyFrom p (normalizeProperties (getProp descr p) (VStr p)) initialKey).
  { unfold keyApplied. cbn [key withDescriptor withKey]. rewrite Gp, Ko. reflexivity. }
  split; [|split; [|split]].
  - rewrite finished_prefix, Ok', Kk, getProp_defaults by reflexivity.
    cbn [keyFrom prefix initialKey].
    destruct (field (normalizeProperties (getProp descr p) (VStr p)) (js "prefix"))
      as [| | |[|c0 pfx]| | | | |];
      destruct (isString (getProp opts (js "keyPrefix"))); reflexivity.
  - rewrite finished_suffix, Ok', Kk, getProp_defaults by reflexivity.
    cbn [keyFrom suffix initialKey].
    destruct (field (normalizeProperties (getProp descr p) (VStr p)) (js "suffix"))
      as [| | |[|c1 sfx]| | | | |];
      destruct (isString (getProp opts (js "keySuffix"))); reflexivity.
  - rewrite keyApplied_descriptor, olookup_oset_same, Gp. reflexivity.
  - intros q Nq. rewrite keyApplied_descriptor, hasOwn_oset.
    apply jsstring_eqb_neq in Nq. rewrite Nq. simpl. apply Dm.
Qed.

Lemma construct_with_key_witness :
  exists s,
    @construct Reference.deps Examples.keyedByEmail [(js "keyPrefix", VStr (js "user::"))]
    = Returns tt s
    /\ docKeyKey (key s) = js "email"
    /\ generate (key s) = false
    /\ prefix (key s) = VStr (js "user::")
    /\ hasOwn (descriptor s) (js "id") = false.
Proof.
  destruct (@construct_with_key Reference.deps Examples.keyedByEmail
              [(js "keyPrefix", VStr (js "user::"))] (js "email"))
    as [s [E [K [G [P [_ [_ O]]]]]]].
  - reflexivity.
  - reflexivity.
  - reflexivity.
  - reflexivity.
  - reflexivity.
  - intros q Hq Nq. unfold hasOwn in Hq. simpl in Hq.
    destruct (jsstring_eqb q (js "email")) eqn:Eq; [|discriminate Hq].
    apply jsstring_eqb_eq in Eq. contradiction.
  - exists s. split; [exact E|]. split; [exact K|]. split; [exact G|].
    split; [exact P|]. rewrite O by discriminate. reflexivity.
Defined.

(** ** Document keys and line terminators *)

Lemma test_keyPattern_wrapped (pre suf m : jsstring) :
  test (keyPattern pre suf) (pre ++ m ++ suf) = noLineTerminator m.
Proof.
  destruct (noLineTerminator m) eqn:N.
  - apply test_keyPattern. exists m. auto.
  - destruct (test (keyPattern pre suf) (pre ++ m ++ suf)) eqn:T; [|reflexivity].
    apply test_keyPattern in T. destruct T as [m' [E N']].
    apply app_inv_head in E. apply app_inv_tail in E. subst m'. congruence.
Qed.

(** X19: a key that already carries the prefix and the suffix of the
    schema is recognised only when the part between them has no line
    terminator, at which the [.] of the pattern stops.  With none, expanding
    leaves the key as it is and stripping returns the part between; with
    one, expanding wraps the key a second time and stripping leaves it
    whole.  A dynamic key function is called with the key as the receiver
    would otherwise return it. *)
Theorem getDocumentKeyValue_wrapped (D : Deps) (s : Schema) (m : jsstring) :
  (isFunction (dynamicKey (key s)) = false ->
   getDocumentKeyValue
     (VStr (stringOrEmpty (prefix (key s)) ++ m ++ stringOrEmpty (suffix (key s)))) true s
   = VStr (if noLineTerminator m
           then stringOrEmpty (prefix (key s)) ++ m ++ stringOrEmpty (suffix (key s))
           else stringOrEmpty (prefix (key s))
                ++ (stringOrEmpty (prefix (key s)) ++ m ++ stringOrEmpty (suffix (key s)))
                ++ stringOrEmpty (suffix (key s))))
  /\ getDocumentKeyValue
       (VStr (stringOrEmpty (prefix (key s)) ++ m ++ stringOrEmpty (suffix (key s)))) false s
     = VStr (if noLineTerminator m then m
             else stringOrEmpty (prefix (key s)) ++ m ++ stringOrEmpty (suffix (key s)))
  /\ (isFunction (dynamicKey (key s)) = true ->
      getDocumentKeyValue
        (VStr (stringOrEmpty (prefix (key s)) ++ m ++ stringOrEmpty (suffix (key s)))) true s
      = call (dynamicKey (key s))
          [VStr (if noLineTerminator m
                 then stringOrEmpty (prefix (key s)) ++ m ++ stringOrEmpty (suffix (key s))
                 else stringOrEmpty (prefix (key s))
                      ++ (stringOrEmpty (prefix (key s)) ++ m
                          ++ stringOrEmpty (suffix (key s)))
                      ++ stringOrEmpty (suffix (key s)))]).
Proof.
  split; [|split].
  - intros F. rewrite getDocumentKeyValue_full by exact F.
    rewrite test_keyPattern_wrapped. reflexivity.
  - destruct (noLineTerminator m) eqn:N.
    + apply getDocumentKeyValue_strip. exact N.
    + apply getDocumentKeyValue_strip_other.
      rewrite test_keyPattern_wrapped. exact N.
  - intros F. unfold getDocumentKeyValue.
    rewrite test_keyPattern_wrapped, F.
    destruct (noLineTerminator m); reflexivity.
Qed.

Lemma getDocumentKeyValue_wrapped_witness :
  @getDocumentKeyValue Reference.deps (VStr (js "user::" ++ [97; 10; 98]%N ++ [])) true
    Examples.users
  = VStr (js "user::" ++ (js "user::" ++ [97; 10; 98]%N ++ []) ++ [])
  /\ @getDocumentKeyValue Reference.deps (VStr (js "dyn::" ++ [])) true Examples.dynamic
     = VStr (js "dyn::dyn::").
Proof.
  split.
  - apply (proj1 (@getDocumentKeyValue_wrapped Reference.deps Examples.users
                    [97; 10; 98]%N)).
    reflexivity.
  - apply (proj2 (proj2 (@getDocumentKeyValue_wrapped Reference.deps Examples.dynamic
                           (js "dyn::")))).
    reflexivity.
Defined.

(** ** Indexes declared in a descriptor *)

Lemma olookup_fold_by (A : Type) (keyOf : A -> jsstring) (l : list A) :
  forall (o : omap A) (k : jsstring),
    (existsb (fun e => jsstring_eqb k (keyOf e)) l = true ->
     exists e, olookup k (fold_left (fun o e => oset (keyOf e) e o) l o) = Some e
               /\ In e l /\ keyOf e = k)
    /\ (existsb (fun e => jsstring_eqb k (keyOf e)) l = false ->
        olookup k (fold_left (fun o e => oset (keyOf e) e o) l o) = olookup k o).
Proof.
  induction l as [|x l IH]; intros o k; simpl.
  - split; [intros H; discriminate H|reflexivity].
  - destruct (IH (oset (keyOf x) x o) k) as [IH1 IH2].
    destruct (existsb (fun e => jsstring_eqb k (keyOf e)) l) eqn:X.
    + rewrite orb_true_r. split; [|intros H; discriminate H].
      intros _. destruct (IH1 eq_refl) as [e [L [I P]]].
      exists e. auto.
    + rewrite orb_false_r, (IH2 eq_refl), olookup_oset.
      destruct (jsstring_eqb k (keyOf x)) eqn:E.
      * split; [|intros H; discriminate H].
        intros _. exists x. apply jsstring_eqb_eq in E. auto.
      * split; [intros H; discriminate H|reflexivity].
Qed.

Lemma indexes_recorded (D : Deps) (descr k : value) (s : Schema) :
  indexes (recorded descr k s)
  = fold_left (fun o e => oset (pathKey (path e)) e o) (getIndexes descr k) (indexes s).
Proof.
  unfold recorded.
  assert (R : forall l s0,
             indexes (fold_left (fun s elem =>
                        withIndexes (oset (pathKey (path elem)) elem (indexes s)) s) l s0)
             = fold_left (fun o e => oset (pathKey (path e)) e o) l (indexes s0)).
  { induction l as [|x l IH]; intros s0; simpl; [reflexivity|]. rewrite IH. reflexivity. }
  rewrite R. rewrite (fold_left_preserves indexes) by reflexivity. reflexivity.
Qed.

Lemma add_indexes (D : Deps) (k : addKey) (descr : value) (s s' : Schema) :
  add k descr s = Returns tt s' ->
  indexes s'
  = match scanned k descr with
    | Some v =>
        fold_left (fun o e => oset (pathKey (path e)) e o)
          (getIndexes v (scannedKey k descr)) (indexes s)
    | None => indexes s
    end.
Proof.
  unfold scanned, scannedKey. destruct (truthy (addKeyValue k) && truthy descr) eqn:B.
  - rewrite add_both by exact B. intros H.
    apply (_applyDocumentKey_frame indexes (fun _ _ => eq_refl) (fun _ _ => eq_refl)) in H.
    rewrite H. simpl. apply indexes_recorded.
  - destruct k as [n|m].
    + unfold add. rewrite B. intros H.
      apply bind_returns in H. destruct H as [[] [s1 [E H]]].
      injection E as <-.
      apply (_applyDocumentKey_frame indexes (fun _ _ => eq_refl) (fun _ _ => eq_refl))
        in H.
      exact H.
    + simpl in B. rewrite add_KeyMap by exact B. intros H.
      apply (_applyDocumentKey_frame indexes (fun _ _ => eq_refl) (fun _ _ => eq_refl)) in H.
      rewrite H. simpl. apply indexes_recorded.
Qed.

(** X20: [add] never drops an index, and it stores every index that
    [getIndexes] finds in what it scans under the path of that index (an
    array path under its elements joined by commas), not under its name.
    The entry found there is one of those with that path, and it is the
    entry whose [refKeyCase] [getRefKey] applies when it is called with
    the path. *)
Theorem add_records_indexes (D : Deps) (k : addKey) (descr : value) (s s' : Schema) :
  add k descr s = Returns tt s' ->
  (forall n, hasOwn (indexes s) n = true -> hasOwn (indexes s') n = true)
  /\ (forall v ix,
         scanned k descr = Some v -> In ix (getIndexes v (scannedKey k descr)) ->
         exists e,
           olookup (pathKey (path ix)) (indexes s') = Some e
           /\ In e (getIndexes v (scannedKey k descr))
           /\ pathKey (path e) = pathKey (path ix)
           /\ (forall x,
                  foldRefKeyCase (pathKey (path ix)) x s'
                  = match refKeyCase e with
                    | Some c =>
                        if jsstring_eqb c REF_KEY_CASE.UPPER then toUpperCase x
                        else if jsstring_eqb c REF_KEY_CASE.LOWER then toLowerCase x
                        else x
                    | None => x
                    end))
  /\ (scanned k descr = None -> indexes s' = indexes s).
Proof.
  intros H. apply add_indexes in H.
  split; [|split].
  - intros n O. rewrite H. destruct (scanned k descr) as [v|]; [|exact O].
    unfold hasOwn in *.
    destruct (olookup_fold_by (fun e => pathKey (path e))
                (getIndexes v (scannedKey k descr)) (indexes s) n) as [F1 F2].
    destruct (existsb (fun e => jsstring_eqb n (pathKey (path e)))
                (getIndexes v (scannedKey k descr))).
    + destruct (F1 eq_refl) as [e [-> _]]. reflexivity.
    + rewrite (F2 eq_refl). exact O.
  - intros v ix V I. rewrite V in H.
    destruct (olookup_fold_by (fun e => pathKey (path e))
                (getIndexes v (scannedKey k descr)) (indexes s) (pathKey (path ix)))
      as [F _].
    destruct F as [e [L [Ie P]]].
    { apply existsb_exists. exists ix. split; [exact I|apply jsstring_eqb_refl]. }
    rewrite <- H in L. exists e.
    split; [exact L|]. split; [exact Ie|]. split; [exact P|].
    intros x. unfold foldRefKeyCase. rewrite L. reflexivity.
  - intros V. rewrite V in H. exact H.
Qed.

Lemma add_records_indexes_witness :
  exists s',
    @add Reference.deps (KeyMap Examples.indexedEmail) VUndefined Examples.empty
    = Returns tt s'
    /\ exists e,
         olookup (js "email") (indexes s') = Some e
         /\ forall x, @foldRefKeyCase Reference.deps (js "email") x s'
                      = match refKeyCase e with
                        | Some c =>
                            if jsstring_eqb c REF_KEY_CASE.UPPER then Reference.asciiUpper x
                            else if jsstring_eqb c REF_KEY_CASE.LOWER
                                 then Reference.asciiLower x
                                 else x
                        | None => x
                        end.
Proof.
  eexists. split; [vm_compute; reflexivity|].
  destruct (proj1 (proj2 (@add_records_indexes Reference.deps
                            (KeyMap Examples.indexedEmail) VUndefined Examples.empty
                            _ eq_refl))
                  (VObj Examples.indexedEmail)
                  {| path := Single (js "email"); name := js "email";
                     indexType := js "single"; compound := false;
                     refKeyCase := Some (js "upper") |}
                  eq_refl (or_introl eq_refl))
    as [e [L [_ [_ F]]]].
  exists e. split; [exact L|exact F].
Defined.

(** ** Methods and statics under [extend] *)

Lemma _cloneProp_assign_untouched (D : Deps) (other : Schema) (prop : cloned) (n : jsstring) :
  forall s s',
    _cloneProp other prop false s = Returns tt s' ->
    hasOwn (propOf prop other) n = false \/ truthy (getProp (propOf prop s) n) = true ->
    olookup n (propOf prop s') = olookup n (propOf prop s).
Proof.
  unfold _cloneProp.
  assert (Hks : forall p, In p (okeys (propOf prop other)) ->
                          hasOwn (propOf prop other) p = true)
    by (intros p; apply hasOwn_okeys).
  revert Hks. generalize (okeys (propOf prop other)). intros ks.
  induction ks as [|p ks IH]; simpl; intros Hks s s' H U.
  - injection H as <-. reflexivity.
  - apply bind_returns in H. destruct H as [[] [s1 [E H]]].
    apply (_cloneProp_assign_step other prop) in E. destruct E as [own [_ ->]].
    assert (L : olookup n (propOf prop
                  (if own && negb (truthy (getProp (propOf prop s) p))
                   then withProp prop (oset p (getProp (propOf prop other) p)
                                         (propOf prop s)) s
                   else s))
                = olookup n (propOf prop s)).
    { destruct (own && negb (truthy (getProp (propOf prop s) p)))
        eqn:B; [|reflexivity].
      rewrite propOf_withProp, olookup_oset.
      destruct (jsstring_eqb n p) eqn:Enp; [|reflexivity].
      apply jsstring_eqb_eq in Enp. subst p.
      apply andb_true_iff in B. destruct B as [B1 B2].
      destruct U as [U|U]; [rewrite (Hks n (or_introl eq_refl)) in U; discriminate U|].
      rewrite U in B2. discriminate B2. }
    rewrite <- L. apply (IH (fun q Iq => Hks q (or_intror Iq)) _ _ H).
    destruct U as [U|U]; [left; exact U|]. right.
    unfold getProp in *. rewrite L. exact U.
Qed.

(** X21: what [extend] does to the methods and the statics, when the
    other schema has no member called [__proto__].  A name the other schema
    does not own, and a name under which the receiver reads a truthy value,
    is left exactly as it was, so a member of the receiver whose value is
    truthy is kept.  A member of the other schema is copied when the
    receiver reads a falsy value under its name and the other schema has,
    among the members of that kind, none called [hasOwnProperty]: the test
    of line 510 calls such a member in place of the method, and copies what
    that call allows.  A member of the other schema called [toString] or
    [constructor] is never copied: the receiver reads the inherited
    function there. *)
Theorem extend_members (D : Deps) (A B r A' : Schema) :
  extend (Other B) A = Returns r A' ->
  hasOwn (statics B) protoName = false ->
  hasOwn (methods B) protoName = false ->
  r = A'
  /\ (forall prop n,
         prop <> Cdescriptor ->
         hasOwn (propOf prop B) n = false \/ truthy (getProp (propOf prop A) n) = true ->
         olookup n (propOf prop A') = olookup n (propOf prop A))
  /\ (forall prop n w,
         prop <> Cdescriptor ->
         hasOwn (propOf prop B) (js "hasOwnProperty") = false ->
         olookup n (propOf prop B) = Some w ->
         truthy (getProp (propOf prop A) n) = false ->
         olookup n (propOf prop A') = Some w)
  /\ (forall prop n,
         prop <> Cdescriptor ->
         isInherited n = true -> hasOwn (propOf prop A) n = false ->
         hasOwn (propOf prop A') n = false).
Proof.
  intros H _ _.
  destruct (extend_stages D A B H) as [s1 [s2 [s3 [s4 [E1 [E2 [E3 [E4 [E5 R]]]]]]]]].
  assert (P1 : forall prop, prop <> Cdescriptor -> propOf prop s1 = propOf prop A).
  { intros prop N. destruct prop; [congruence| |].
    - apply (_cloneProp_descriptor_frame statics (fun _ _ => eq_refl) (fun _ _ => eq_refl)
               (fun _ _ => eq_refl) (fun _ _ => eq_refl) B A E1).
    - apply (_cloneProp_descriptor_frame methods (fun _ _ => eq_refl) (fun _ _ => eq_refl)
               (fun _ _ => eq_refl) (fun _ _ => eq_refl) B A E1). }
  assert (P5 : forall prop, prop <> Cdescriptor -> propOf prop A' = propOf prop s3).
  { intros prop N. destruct prop; [congruence| |]; simpl.
    - rewrite (hooks_loop_preserves D statics B (fun _ _ => eq_refl) _ E5).
      apply (extend_options_preserves D statics B (fun _ _ => eq_refl) _ E4).
    - rewrite (hooks_loop_preserves D methods B (fun _ _ => eq_refl) _ E5).
      apply (extend_options_preserves D methods B (fun _ _ => eq_refl) _ E4). }
  assert (U : forall prop n,
             prop <> Cdescriptor ->
             hasOwn (propOf prop B) n = false \/ truthy (getProp (propOf prop A) n) = true ->
             olookup n (propOf prop A') = olookup n (propOf prop A)).
  { intros prop n N Hn. rewrite (P5 prop N).
    assert (S32 : statics s3 = statics s2)
      by apply (_cloneProp_assign_preserves D statics B Cmethods (fun _ _ => eq_refl) _ E3).
    assert (M21 : methods s2 = methods s1)
      by apply (_cloneProp_assign_preserves D methods B Cstatics (fun _ _ => eq_refl) _ E2).
    pose proof (P1 prop N) as P1p.
    destruct prop; [congruence| |].
    - transitivity (olookup n (propOf Cstatics s2)).
      + unfold propOf. rewrite S32. reflexivity.
      + rewrite <- P1p. apply (_cloneProp_assign_untouched D B Cstatics n _ E2).
        rewrite P1p. exact Hn.
    - assert (P2 : propOf Cmethods s2 = propOf Cmethods A).
      { unfold propOf in *. rewrite M21. exact P1p. }
      rewrite <- P2. apply (_cloneProp_assign_untouched D B Cmethods n _ E3).
      rewrite P2. exact Hn. }
  split; [exact R|]. split; [exact U|]. split.
  - intros prop n w N Hp Hw Hf.
    destruct (@extend_handlers D A B r A' H) as [_ [_ [Cm [_ Cs]]]].
    destruct prop; [congruence| |]; simpl in *.
    + apply Cs; assumption.
    + apply Cm; assumption.
  - intros prop n N I O. unfold hasOwn. rewrite (U prop n N).
    + unfold hasOwn in O. exact O.
    + right. unfold getProp. unfold hasOwn in O.
      destruct (olookup n (propOf prop A)); [discriminate O|].
      rewrite I. destruct (jsstring_eqb n (js "constructor")); reflexivity.
Qed.

Lemma extend_members_witness :
  exists s',
    @extend Reference.deps (Other Examples.withFooBar) Examples.withFoo = Returns s' s'
    /\ olookup (js "foo") (methods s') = Some (VFun 11)
    /\ olookup (js "bar") (methods s') = Some (VFun 13)
    /\ hasOwn (methods s') (js "toString") = false.
Proof.
  eexists. split; [vm_compute; reflexivity|].
  split; [|split].
  - refine (eq_trans
              (proj1 (proj2 (@extend_members Reference.deps Examples.withFoo
                               Examples.withFooBar _ _ eq_refl eq_refl eq_refl))
                     Cmethods (js "foo") _ _) _).
    + discriminate.
    + right. reflexivity.
    + reflexivity.
  - apply (proj1 (proj2 (proj2 (@extend_members Reference.deps Examples.withFoo
                                  Examples.withFooBar _ _ eq_refl eq_refl eq_refl)))
             Cmethods (js "bar") (VFun 13)).
    + discriminate.
    + reflexivity.
    + reflexivity.
    + reflexivity.
  - apply (proj2 (proj2 (proj2 (@extend_members Reference.deps Examples.withFoo
                                  Examples.withFooBar _ _ eq_refl eq_refl eq_refl)))
             Cmethods (js "toString")).
    + discriminate.
    + reflexivity.
    + reflexivity.
Defined.
